(** * NGPL league poker trainer: hand evaluator and betting engine

    A shallow embedding of [utils/poker.ts] (card model, deck and shuffle,
    starting-hand grading, post-flop hand evaluation, winner determination,
    bot decisions) and of [utils/GameEngine.ts] (blind posting, action
    accounting, turn rotation, street advancement, showdown), followed by
    the properties of the specification and of the code.

    Conventions of the embedding:
    - JavaScript numbers that hold chip amounts, scores and rank values are
      [Z]; the fractional starting-hand score is a rational ([Q]).
    - Array reads [a[i]] are list lookups; a read outside the array (which
      yields [undefined] in JavaScript) makes the embedded function return
      [None].
    - A dereference of [undefined] (a [TypeError] in JavaScript) is [None]
      as well.
    - The deck is an argument of the functions that deal (the source
      shuffles or carries it); a pop from an empty deck, which in the source
      yields [undefined] as a card and no failure, is outside the embedding
      ([None], see [arrayPop]), and the properties about dealing assume a
      deck that holds the cards to be dealt.
    - [counts] (an object keyed by numbers) is a [gmap]; [suitCounts], whose
      key order is observed through [Object.keys(...).find], is an
      insertion-ordered association list.
    - The strength estimate of a bot, its personality constants and the
      [Math.random()] draws are binary64 numbers ([float]); the draws are
      arguments of the embedded function. *)

From Stdlib Require Import ZArith QArith Qround Floats.
From stdpp Require Import gmap strings list sorting.

Local Close Scope Q_scope.
Set Warnings "-clear-no-such-hyp".
Set Warnings "-inexact-float".

Local Open Scope Z_scope.

(** ** Cards ([types.ts]) *)

Inductive Suit := HEARTS | DIAMONDS | CLUBS | SPADES.

Inductive Rank :=
  | TWO | THREE | FOUR | FIVE | SIX | SEVEN | EIGHT | NINE | TEN
  | JACK | QUEEN | KING | ACE.

(** The [id] field of a card is the string [`${rank}${suit}`], a function of
    the two other fields that only serves as a rendering key; it is left out. *)
Record Card := mkCard { rank : Rank; suit : Suit }.

#[global] Instance Suit_eq_dec : EqDecision Suit.
Proof. solve_decision. Defined.

#[global] Instance Rank_eq_dec : EqDecision Rank.
Proof. solve_decision. Defined.

#[global] Instance Card_eq_dec : EqDecision Card.
Proof. solve_decision. Defined.

Definition RANK_VALUE (r : Rank) : Z :=
  match r with
  | TWO => 2 | THREE => 3 | FOUR => 4 | FIVE => 5 | SIX => 6 | SEVEN => 7
  | EIGHT => 8 | NINE => 9 | TEN => 10 | JACK => 11 | QUEEN => 12
  | KING => 13 | ACE => 14
  end.

Definition getCardValue (card : Card) : Z := RANK_VALUE (rank card).

Definition SUITS : list Suit := [HEARTS; DIAMONDS; CLUBS; SPADES].

Definition RANKS : list Rank :=
  [TWO; THREE; FOUR; FIVE; SIX; SEVEN; EIGHT; NINE; TEN; JACK; QUEEN; KING;
   ACE].

(** [createDeck]: the 52 cards, suit by suit. *)
Definition createDeck : list Card :=
  s ← SUITS; r ← RANKS; [mkCard r s].

(** ** Array helpers *)

(** [arr.sort((a, b) => key(b) - key(a))]: a stable sort, descending in
    [key].  An element is placed in front of the first element whose key is
    not larger, so elements with equal keys keep their input order. *)
Fixpoint insertDescBy {A} (key : A → Z) (x : A) (l : list A) : list A :=
  match l with
  | [] => [x]
  | y :: l' =>
      if decide (key x < key y) then y :: insertDescBy key x l' else x :: l
  end.

Definition sortDescBy {A} (key : A → Z) (l : list A) : list A :=
  foldr (insertDescBy key) [] l.

(** [values.forEach(v => counts[v] = (counts[v] || 0) + 1)] *)
Definition tallyValues (values : list Z) : gmap Z nat :=
  foldl (λ counts v, <[v := (default 0%nat (counts !! v) + 1)%nat]> counts)
        ∅ values.

(** [counts[v]] used in a comparison: a missing key reads [undefined], which
    fails every comparison of the evaluator exactly as the count 0 does. *)
Definition countOf (counts : gmap Z nat) (v : Z) : nat :=
  default 0%nat (counts !! v).

(** [Object.keys(counts).map(Number)] *)
Definition objectKeys (counts : gmap Z nat) : list Z :=
  (map_to_list counts).*1.

(** [suitCounts[s] = (suitCounts[s] || 0) + 1] on an object whose keys are
    enumerated in insertion order. *)
Fixpoint bumpSuit (s : Suit) (m : list (Suit * nat)) : list (Suit * nat) :=
  match m with
  | [] => [(s, 1%nat)]
  | (s', n) :: m' =>
      if decide (s = s') then (s', S n) :: m' else (s', n) :: bumpSuit s m'
  end.

Fixpoint suitCountOf (m : list (Suit * nat)) (s : Suit) : nat :=
  match m with
  | [] => 0%nat
  | (s', n) :: m' => if decide (s = s') then n else suitCountOf m' s
  end.

Definition tallySuits (suits : list Suit) : list (Suit * nat) :=
  foldl (λ m s, bumpSuit s m) [] suits.

(** [Array.from(new Set(values))]: first occurrences, in order. *)
Definition setFromArray (values : list Z) : list Z :=
  foldl (λ acc v, if decide (v ∈ acc) then acc else acc ++ [v]) [] values.

(** ** Post-flop evaluation ([evaluateHand]) *)

Record HandEval := mkEval { score : Z; description : string }.

#[global] Instance HandEval_eq_dec : EqDecision HandEval.
Proof. solve_decision. Defined.

(** The straight scan: [n] iterations remain, [i] is the loop index.
    [uniqueSorted[i - 3]] with [i < 3] would be a read at a negative index. *)
Fixpoint straightScan (uniqueSorted : list Z) (n i : nat)
    (straightHigh : Z) (consecutive : nat) : option Z :=
  match n with
  | O => Some straightHigh
  | S n' =>
      a ← uniqueSorted !! i;
      b ← uniqueSorted !! (i + 1)%nat;
      if decide (a - b = 1) then
        let consecutive := S consecutive in
        if decide (4 ≤ consecutive)%nat then
          h ← (if decide (3 ≤ i)%nat then uniqueSorted !! (i - 3)%nat
               else None);
          straightScan uniqueSorted n' (S i) h consecutive
        else straightScan uniqueSorted n' (S i) straightHigh consecutive
      else straightScan uniqueSorted n' (S i) straightHigh 0%nat
  end.

(** The full-house loop over [distinctValues], with its two accumulators. *)
Definition fullHouseStep (counts : gmap Z nat) (acc : Z * Z) (v : Z) : Z * Z :=
  let '(three, two) := acc in
  if decide (countOf counts v = 3%nat ∧ three = 0) then (v, two)
  else if decide ((2 ≤ countOf counts v)%nat ∧ two = 0) then (three, v)
  else (three, two).

Definition fullHouseScan (counts : gmap Z nat) (distinctValues : list Z)
    : Z * Z :=
  foldl (fullHouseStep counts) (0, 0) distinctValues.

(** The block under [// Check Flush]: [isFlush] and [flushCards]. *)
Definition checkFlush (allCards : list Card) : bool * list Z :=
  let suits := suit <$> allCards in
  let suitCounts := tallySuits suits in
  let flushSuit :=
    snd <$> list_find (λ s, (5 ≤ suitCountOf suitCounts s)%nat) suitCounts.*1 in
  match flushSuit with
  | Some fs => (true, getCardValue <$> filter (λ c, suit c = fs) allCards)
  | None => (false, [])
  end.

(** The block under [// Check Straight], wheel included: [straightHigh]. *)
Definition checkStraight (values : list Z) : option Z :=
  let uniqueSorted := setFromArray values in
  straightHigh ← straightScan uniqueSorted (length uniqueSorted - 1) 0 0 0;
  Some (if decide (straightHigh = 0 ∧ 14 ∈ uniqueSorted ∧ 2 ∈ uniqueSorted
                   ∧ 3 ∈ uniqueSorted ∧ 4 ∈ uniqueSorted ∧ 5 ∈ uniqueSorted)
        then 5 else straightHigh).

(** The block under [// Detect Hands]: the chain of early returns. *)
Definition detectHands (values : list Z) (isFlush : bool) (flushCards : list Z)
    (straightHigh : Z) : option HandEval :=
  let counts := tallyValues values in
  let distinctValues := sortDescBy id (objectKeys counts) in
  (* 2. Four of a Kind *)
  match list_find (λ v, countOf counts v = 4%nat) distinctValues with
  | Some (_, v) => Some (mkEval (7000 + v) "Four of a Kind")
  | None =>
  (* 3. Full House *)
  let '(three, two) := fullHouseScan counts distinctValues in
  if decide (three ≠ 0 ∧ two ≠ 0) then
    Some (mkEval (6000 + three * 10 + two) "Full House")
  (* 4. Flush *)
  else if isFlush then
    top ← flushCards !! 0%nat; Some (mkEval (5000 + top) "Flush")
  (* 5. Straight *)
  else if decide (straightHigh ≠ 0) then
    Some (mkEval (4000 + straightHigh) "Straight")
  (* 6. Three of a Kind *)
  else if decide (three ≠ 0) then
    Some (mkEval (3000 + three) "Three of a Kind")
  else
  (* 7. Two Pair *)
  let pairs := filter (λ v, countOf counts v = 2%nat) distinctValues in
  if decide (2 ≤ length pairs)%nat then
    p0 ← pairs !! 0%nat; p1 ← pairs !! 1%nat;
    Some (mkEval (2000 + p0 * 10 + p1) "Two Pair")
  (* 8. Pair *)
  else if decide (length pairs = 1%nat) then
    p0 ← pairs !! 0%nat; Some (mkEval (1000 + p0) "Pair")
  (* 9. High Card *)
  else
    v0 ← values !! 0%nat; Some (mkEval v0 "High Card")
  end.

Definition evaluateHand (holeCards communityCards : list Card)
    : option HandEval :=
  let allCards := holeCards ++ communityCards in
  if decide (length allCards = 0%nat) then Some (mkEval 0 "Waiting") else
  (* Sort by value descending *)
  let allCards := sortDescBy getCardValue allCards in
  let values := getCardValue <$> allCards in
  let '(isFlush, flushCards) := checkFlush allCards in
  straightHigh ← checkStraight values;
  detectHands values isFlush flushCards straightHigh.

(** ** Pre-flop grading ([gradeStartingHand], "Chen Formula Simplified") *)

Module HandGrade.
Record t := mk { score : Z; grade : string; tip : string }.
End HandGrade.

#[global] Instance HandGrade_eq_dec : EqDecision HandGrade.t.
Proof. solve_decision. Defined.

(** The score before [Math.ceil]; [v1 / 2] is a JavaScript division, so the
    running score is a multiple of one half, kept here as a rational. *)
Definition chenScore (c1 c2 : Card) : Q :=
  let v1 := getCardValue c1 in
  let v2 := getCardValue c2 in
  (* 1. High Card Points *)
  let score : Q :=
    if decide (v1 = 14) then 10%Q
    else if decide (v1 = 13) then 8%Q
    else if decide (v1 = 12) then 7%Q
    else if decide (v1 = 11) then 6%Q
    else (inject_Z v1 / 2)%Q in
  (* 2. Pairs *)
  let score : Q :=
    if decide (v1 = v2) then
      let score := (score * 2)%Q in
      if Qlt_le_dec score 5%Q then 5%Q else score
    else score in
  (* 3. Suited *)
  let score : Q :=
    if decide (suit c1 = suit c2) then (score + 2)%Q else score in
  (* 4. Closeness (Gaps) *)
  let gap := v1 - v2 in
  let score : Q :=
    if decide (gap = 1) then (score + 1)%Q
    else if decide (gap = 2) then (score - 1)%Q
    else if decide (gap = 3) then (score - 2)%Q
    else if decide (gap = 4) then (score - 4)%Q
    else if decide (5 ≤ gap) then (score - 5)%Q
    else score in
  (* 5. Connector bonus (simplified) *)
  if decide (gap ≤ 1 ∧ v1 < 12 ∧ suit c1 = suit c2) then (score + 1)%Q
  else score.

Definition gradeStartingHand (hand : list Card) : HandGrade.t :=
  match hand with
  | [h0; h1] =>
      (* Sort high to low *)
      let c1 := if decide (getCardValue h1 ≤ getCardValue h0) then h0 else h1 in
      let c2 := if decide (getCardValue h1 ≤ getCardValue h0) then h1 else h0 in
      let score := Qceiling (chenScore c1 c2) in
      (* Determine Grade *)
      if decide (20 ≤ score) then
        HandGrade.mk score "S" "Monster. Raise big."
      else if decide (15 ≤ score) then
        HandGrade.mk score "A" "Premium. 3-bet territory."
      else if decide (10 ≤ score) then
        HandGrade.mk score "B" "Strong. Playable from any position."
      else if decide (7 ≤ score) then
        HandGrade.mk score "C" "Marginal. Careful out of position."
      else if decide (5 ≤ score) then
        HandGrade.mk score "D" "Speculative. Fold unless on Button."
      else
        HandGrade.mk score "F" "Garbage. Do not play."
  | _ => HandGrade.mk 0 "?" "Wait for deal"
  end.

(** ** Betting engine ([GameEngine]) *)

Definition BIG_BLIND : Z := 20.
Definition SMALL_BLIND : Z := 10.

Inductive GamePhase :=
  | MENU | SHOP | PRE_FLOP | FLOP | TURN | RIVER | SHOWDOWN | GAME_OVER.

#[global] Instance GamePhase_eq_dec : EqDecision GamePhase.
Proof. solve_decision. Defined.

(** The speech bubble [`${actionVerb.split(' ')[0]} ${displayTotal ||
    actualAmount || ''}`] and the lines of [roundLog] are kept as the data
    they are rendered from; the text formatting is not modelled. *)
Record Bubble := mkBubble { bubbleVerb : string; bubbleAmount : option Z }.

Inductive LogLine :=
  | LogHandStarted (handNumber : Z)
  | LogAction (playerName actionVerb : string) (amount : option Z)
  | LogStreet (phase : GamePhase) (auto : bool)
  | LogShowdown (winnerNames : list string) (handDesc : string).

Module Player.
Record t := mk {
  id : string;
  name : string;
  chips : Z;
  hand : list Card;
  isHuman : bool;
  isActive : bool;
  isAllIn : bool;
  currentBet : Z;
  position : string;
  actionMessage : option Bubble
}.

(** [{ ...p, hand: [], isActive: p.chips > 0, isAllIn: false, currentBet: 0,
    actionMessage: undefined }] *)
Definition resetForHand (p : t) : t :=
  mk (id p) (name p) (chips p) [] (isHuman p) (bool_decide (0 < chips p))
     false 0 (position p) None.

(** [p.chips -= amt; p.currentBet = amt; if (p.chips === 0) p.isAllIn = true] *)
Definition postBlind (amt : Z) (p : t) : t :=
  mk (id p) (name p) (chips p - amt) (hand p) (isHuman p) (isActive p)
     (if decide (chips p - amt = 0) then true else isAllIn p)
     amt (position p) (actionMessage p).

(** [p.chips -= amt; p.currentBet += amt; if (p.chips === 0) p.isAllIn = true;
    p.actionMessage = ...] *)
Definition commit (amt : Z) (msg : Bubble) (p : t) : t :=
  mk (id p) (name p) (chips p - amt) (hand p) (isHuman p) (isActive p)
     (if decide (chips p - amt = 0) then true else isAllIn p)
     (currentBet p + amt) (position p) (Some msg).

Definition withHand (h : list Card) (p : t) : t :=
  mk (id p) (name p) (chips p) h (isHuman p) (isActive p) (isAllIn p)
     (currentBet p) (position p) (actionMessage p).

(** [{ ...p, currentBet: 0 }] *)
Definition clearBet (p : t) : t :=
  mk (id p) (name p) (chips p) (hand p) (isHuman p) (isActive p) (isAllIn p)
     0 (position p) (actionMessage p).

(** [{ ...p, chips: p.chips + winAmount }] *)
Definition credit (winAmount : Z) (p : t) : t :=
  mk (id p) (name p) (chips p + winAmount) (hand p) (isHuman p) (isActive p)
     (isAllIn p) (currentBet p) (position p) (actionMessage p).

(** [!p.isActive || p.isAllIn]: the seat cannot act. *)
Definition cannotAct (p : t) : bool := negb (isActive p) || isAllIn p.
End Player.

#[global] Instance Bubble_eq_dec : EqDecision Bubble.
Proof. solve_decision. Defined.

#[global] Instance Player_eq_dec : EqDecision Player.t.
Proof. solve_decision. Defined.

(** The entry's [id] is [`hand_${handCount}`], a function of [handNumber];
    [date] is the wall-clock reading taken at showdown. *)
Record HandHistoryEntry := mkHistory {
  handNumber : Z;
  winnerNames : list string;
  winAmount : Z;
  winningHand : string;
  date : string
}.

Module GameState.
Record t := mk {
  phase : GamePhase;
  pot : Z;
  communityCards : list Card;
  deck : list Card;
  players : list Player.t;
  currentPlayerIndex : Z;
  dealerIndex : Z;
  minBet : Z;
  currentBet : Z;
  lastRaiserIndex : option Z;
  roundLog : list LogLine;
  deckColor : string;
  winners : list Player.t;
  winningHandDesc : string;
  lastPotSize : Z;
  handHistory : list HandHistoryEntry;
  handCount : Z
}.

(** [{ ...state, currentPlayerIndex: i }] *)
Definition withCurrentPlayerIndex (i : Z) (s : t) : t :=
  mk (phase s) (pot s) (communityCards s) (deck s) (players s) i
     (dealerIndex s) (minBet s) (currentBet s) (lastRaiserIndex s)
     (roundLog s) (deckColor s) (winners s) (winningHandDesc s)
     (lastPotSize s) (handHistory s) (handCount s).

(** [{ ...state, players: ps }] *)
Definition withPlayers (ps : list Player.t) (s : t) : t :=
  mk (phase s) (pot s) (communityCards s) (deck s) ps (currentPlayerIndex s)
     (dealerIndex s) (minBet s) (currentBet s) (lastRaiserIndex s)
     (roundLog s) (deckColor s) (winners s) (winningHandDesc s)
     (lastPotSize s) (handHistory s) (handCount s).
End GameState.

(** [arr[i]] for a numeric index: [undefined] outside the array. *)
Definition arrayGet {A} (arr : list A) (i : Z) : option A :=
  if decide (0 ≤ i) then arr !! Z.to_nat i else None.

(** [arr.pop()]: the last element and the shortened array.  It is only
    used on the deck.  On an empty deck the source does not fail: [pop]
    yields [undefined], which [deck.pop()!] passes on as a card.  A card
    that is [undefined] is not represented here, so [None] on an empty array
    stands for "outside the embedding", not for a failure of the code, and
    the properties about dealing are stated for decks that hold the cards
    to be dealt.  The source's deck always does: [setupNewHand] shuffles a
    fresh deck of 52 cards, which serves 26 seats with chips, or 22 with a
    full board to follow. *)
Definition arrayPop {A} (arr : list A) : option (A * list A) :=
  match reverse arr with
  | [] => None
  | x :: rest => Some (x, reverse rest)
  end.

(** The dealing loop of [setupNewHand]: each active seat takes two cards off
    the end of the deck. *)
Fixpoint dealHoleCards (players : list Player.t) (deck : list Card)
    : option (list Player.t * list Card) :=
  match players with
  | [] => Some ([], deck)
  | p :: rest =>
      if Player.isActive p then
        '(a, deck) ← arrayPop deck;
        '(b, deck) ← arrayPop deck;
        '(rest, deck) ← dealHoleCards rest deck;
        Some (Player.withHand [a; b] p :: rest, deck)
      else
        '(rest, deck) ← dealHoleCards rest deck;
        Some (p :: rest, deck)
  end.

(** [setupNewHand]; [deck] stands for [shuffleDeck(createDeck())], whose
    order is drawn from the ambient random source. *)
Definition setupNewHand (deck : list Card) (currentPlayers : list Player.t)
    (dealerIdx : Z) (handCount : Z) (currentHistory : list HandHistoryEntry)
    : option GameState.t :=
  (* Reset player round state *)
  let players := Player.resetForHand <$> currentPlayers in
  let len := Z.of_nat (length players) in
  if decide (len = 0) then None else
  (* Rotate Dealer *)
  let nextDealer := Z.rem (dealerIdx + 1) len in
  (* Determine Blinds; Heads up logic *)
  let headsUp :=
    bool_decide (length (filter (λ p, 0 < Player.chips p) players) = 2%nat) in
  let sbIndex := if headsUp then nextDealer else Z.rem (nextDealer + 1) len in
  let bbIndex :=
    if headsUp then Z.rem (nextDealer + 1) len else Z.rem (nextDealer + 2) len in
  (* Post Blinds *)
  sbPlayer ← arrayGet players sbIndex;
  let sbAmt := Z.min SMALL_BLIND (Player.chips sbPlayer) in
  let players := <[Z.to_nat sbIndex := Player.postBlind sbAmt sbPlayer]> players in
  bbPlayer ← arrayGet players bbIndex;
  let bbAmt := Z.min BIG_BLIND (Player.chips bbPlayer) in
  let players := <[Z.to_nat bbIndex := Player.postBlind bbAmt bbPlayer]> players in
  let pot := sbAmt + bbAmt in
  (* Deal Cards *)
  '(players, deck) ← dealHoleCards players deck;
  let firstActor := Z.rem (bbIndex + 1) len in
  Some (GameState.mk PRE_FLOP pot [] deck players firstActor nextDealer
          BIG_BLIND BIG_BLIND (Some bbIndex)
          [LogHandStarted (handCount + 1)] "blue" [] "" 0 currentHistory
          (handCount + 1)).

(** [displayTotal || x]: an absent or zero [displayTotal] is falsy. *)
Definition orElse (displayTotal : option Z) (x : option Z) : option Z :=
  match displayTotal with
  | Some d => if decide (d = 0) then x else Some d
  | None => x
  end.

(** [processPlayerAction].  The seat record [p] is updated in place in the
    source, so the array of the state passed in sees the update too; the
    embedding returns the new state.  [None] is the [TypeError] raised when
    no seat carries the id of [player]. *)
Definition processPlayerAction (state : GameState.t) (player : Player.t)
    (amount : Z) (actionVerb : string) (displayTotal : option Z)
    : option GameState.t :=
  '(pIndex, p) ←
    list_find (λ p, Player.id p = Player.id player) (GameState.players state);
  let actualAmount := Z.min amount (Player.chips player) in
  (* Bubble Text *)
  let bubble :=
    mkBubble actionVerb
      (orElse displayTotal
         (if decide (actualAmount = 0) then None else Some actualAmount)) in
  let p := Player.commit actualAmount bubble p in
  let newPlayers := <[pIndex := p]> (GameState.players state) in
  (* Log *)
  let logMsg :=
    LogAction (Player.name player) actionVerb
      (orElse displayTotal
         (if decide (0 < actualAmount) then Some actualAmount else None)) in
  let newPot := GameState.pot state + actualAmount in
  (* Raise Logic *)
  let raised := bool_decide (GameState.currentBet state < Player.currentBet p) in
  let raiseDiff := Player.currentBet p - GameState.currentBet state in
  let newCurrentBet :=
    if raised then Player.currentBet p else GameState.currentBet state in
  let newMinBet :=
    if raised then Z.max (GameState.minBet state) raiseDiff
    else GameState.minBet state in
  let newLastRaiser :=
    if raised then Some (Z.of_nat pIndex) else GameState.lastRaiserIndex state in
  Some (GameState.mk (GameState.phase state) newPot
          (GameState.communityCards state) (GameState.deck state) newPlayers
          (GameState.currentPlayerIndex state) (GameState.dealerIndex state)
          newMinBet newCurrentBet newLastRaiser
          (GameState.roundLog state ++ [logMsg]) (GameState.deckColor state)
          (GameState.winners state) (GameState.winningHandDesc state)
          (GameState.lastPotSize state) (GameState.handHistory state)
          (GameState.handCount state)).

(** The seat scans of [nextTurn] and [nextPhase]:
    [while (cannotAct(players[idx]) && count < bound) { idx = (idx + 1) %
    players.length; count++ }], with [remaining = bound - count].  The seat
    is read before the counter is tested, so an index outside the array is a
    [TypeError] ([None]).  The result is the index at loop exit together
    with what is left of the bound. *)
Fixpoint scanSeats (players : list Player.t) (remaining : nat) (idx : Z)
    : option (Z * nat) :=
  p ← arrayGet players idx;
  if Player.cannotAct p then
    match remaining with
    | O => Some (idx, O)
    | S remaining' =>
        scanSeats players remaining'
          (Z.rem (idx + 1) (Z.of_nat (length players)))
    end
  else Some (idx, remaining).

(** The [forEach] of [handleShowdown] over the active seats, with its three
    accumulators. *)
Fixpoint showdownScan (communityCards : list Card)
    (activePlayers : list Player.t) (bestScore : Z) (winners : list Player.t)
    (bestHandDesc : string) : option (Z * list Player.t * string) :=
  match activePlayers with
  | [] => Some (bestScore, winners, bestHandDesc)
  | p :: rest =>
      evalResult ← evaluateHand (Player.hand p) communityCards;
      if decide (bestScore < score evalResult) then
        showdownScan communityCards rest (score evalResult) [p]
          (description evalResult)
      else if decide (score evalResult = bestScore) then
        showdownScan communityCards rest bestScore (winners ++ [p])
          bestHandDesc
      else showdownScan communityCards rest bestScore winners bestHandDesc
  end.

(** [handleShowdown]; [now] is [new Date().toLocaleTimeString()].
    [Math.floor(pot / winners.length)] is [Z.div]: [winners] is not empty
    here, since every score exceeds the initial [bestScore] of -1. *)
Definition handleShowdown (now : string) (state : GameState.t)
    : option GameState.t :=
  let activePlayers :=
    filter (λ p, Player.isActive p = true) (GameState.players state) in
  if decide (length activePlayers = 0%nat) then Some state else
  '(bestScore, winners, bestHandDesc) ←
    showdownScan (GameState.communityCards state) activePlayers (-1) [] "";
  let winAmount := GameState.pot state / Z.of_nat (length winners) in
  let newPlayers :=
    (λ p, if decide (Exists (λ w, Player.id w = Player.id p) winners)
          then Player.credit winAmount p else p)
      <$> GameState.players state in
  (* Add to history *)
  let historyEntry :=
    mkHistory (GameState.handCount state) (Player.name <$> winners)
      (GameState.pot state) bestHandDesc now in
  Some (GameState.mk SHOWDOWN 0 (GameState.communityCards state)
          (GameState.deck state) newPlayers
          (GameState.currentPlayerIndex state) (GameState.dealerIndex state)
          (GameState.minBet state) (GameState.currentBet state)
          (GameState.lastRaiserIndex state)
          (GameState.roundLog state
             ++ [LogShowdown (Player.name <$> winners) bestHandDesc])
          (GameState.deckColor state) winners bestHandDesc
          (GameState.pot state)
          (GameState.handHistory state ++ [historyEntry])
          (GameState.handCount state)).

(** The burn-and-deal step of [nextPhase] for the three dealing phases; any
    other phase leaves phase, board and deck as they are. *)
Definition dealStreet (phase : GamePhase) (communityCards deck : list Card)
    : option (GamePhase * list Card * list Card) :=
  match phase with
  | PRE_FLOP =>
      '(_, deck) ← arrayPop deck; (* Burn *)
      '(c1, deck) ← arrayPop deck;
      '(c2, deck) ← arrayPop deck;
      '(c3, deck) ← arrayPop deck;
      Some (FLOP, communityCards ++ [c1; c2; c3], deck)
  | FLOP =>
      '(_, deck) ← arrayPop deck;
      '(c1, deck) ← arrayPop deck;
      Some (TURN, communityCards ++ [c1], deck)
  | TURN =>
      '(_, deck) ← arrayPop deck;
      '(c1, deck) ← arrayPop deck;
      Some (RIVER, communityCards ++ [c1], deck)
  | _ => Some (phase, communityCards, deck)
  end.

(** [nextPhase], which calls itself while nobody can act.  [fuel] bounds the
    depth of that recursion: from a street phase it ends at the river after
    at most four calls; from [MENU], [SHOP] or [GAME_OVER] with nobody able
    to act the source recurses without end, which is [None] here. *)
Fixpoint nextPhaseFrom (fuel : nat) (now : string) (state : GameState.t)
    : option GameState.t :=
  match fuel with
  | O => None
  | S fuel' =>
      let players := GameState.players state in
      let nextPlayers := Player.clearBet <$> players in
      if decide (GameState.phase state = RIVER) then
        handleShowdown now (GameState.withPlayers nextPlayers state)
      else
        '(nextGamePhase, newCommunityCards, newDeck) ←
          dealStreet (GameState.phase state) (GameState.communityCards state)
            (GameState.deck state);
        (* Find first actor (Left of Dealer) *)
        '(firstActor, _) ←
          scanSeats nextPlayers 10
            (Z.rem (GameState.dealerIndex state + 1)
               (Z.of_nat (length players)));
        let activeNonAllIn :=
          filter (λ p, Player.isActive p = true ∧ Player.isAllIn p = false)
            nextPlayers in
        let auto :=
          bool_decide (length activeNonAllIn = 0%nat
                       ∧ nextGamePhase ≠ SHOWDOWN) in
        let next :=
          GameState.mk nextGamePhase (GameState.pot state) newCommunityCards
            newDeck nextPlayers firstActor (GameState.dealerIndex state)
            BIG_BLIND 0 (Some firstActor)
            (GameState.roundLog state ++ [LogStreet nextGamePhase auto])
            (GameState.deckColor state) (GameState.winners state)
            (GameState.winningHandDesc state) (GameState.lastPotSize state)
            (GameState.handHistory state) (GameState.handCount state) in
        if auto then
          (* Auto-deal next street if everyone is all-in *)
          nextPhaseFrom fuel' now next
        else Some next
  end.

Definition nextPhase (now : string) (state : GameState.t)
    : option GameState.t :=
  nextPhaseFrom 4 now state.

(** [nextTurn] *)
Definition nextTurn (now : string) (state : GameState.t)
    : option GameState.t :=
  let players := GameState.players state in
  let nextIndex :=
    Z.rem (GameState.currentPlayerIndex state + 1)
      (Z.of_nat (length players)) in
  (* Find next active player *)
  '(nextIndex, remaining) ← scanSeats players (length players) nextIndex;
  (* loopCount >= state.players.length *)
  if decide (remaining = 0%nat) then nextPhase now state else
  playerToAct ← arrayGet players nextIndex;
  let isBetMatched :=
    bool_decide (Player.currentBet playerToAct = GameState.currentBet state) in
  let endPhase :=
    bool_decide (GameState.lastRaiserIndex state = Some nextIndex)
    && isBetMatched in
  if endPhase then nextPhase now state
  else Some (GameState.withCurrentPlayerIndex nextIndex state).

(** ** Shuffling ([shuffleDeck]) *)

(** [[arr[i], arr[j]] = [arr[j], arr[i]]]: both elements are read, then
    both written.  [None] when an index lies outside the array, where the
    source would store [undefined]. *)
Definition arraySwap {A} (arr : list A) (i j : nat) : option (list A) :=
  x ← arr !! i;
  y ← arr !! j;
  Some (<[j := x]> (<[i := y]> arr)).

(** The loop [for (let i = newDeck.length - 1; i > 0; i--)], by its index.
    [rand i] stands for [Math.floor(Math.random() * (i + 1))], the draw
    taken from the ambient random source in the iteration of index [i]. *)
Fixpoint shuffleFrom {A} (rand : nat → nat) (i : nat) (newDeck : list A)
    : option (list A) :=
  match i with
  | O => Some newDeck
  | S i' =>
      newDeck ← arraySwap newDeck i (rand i);
      shuffleFrom rand i' newDeck
  end.

Definition shuffleDeck {A} (rand : nat → nat) (deck : list A)
    : option (list A) :=
  shuffleFrom rand (length deck - 1) deck.

(** ** Winners without payout ([determineWinner]) *)

(** The [forEach] of [determineWinner], with its two accumulators. *)
Fixpoint winnerScan (communityCards : list Card)
    (activePlayers : list Player.t) (bestScore : Z) (winners : list Player.t)
    : option (Z * list Player.t) :=
  match activePlayers with
  | [] => Some (bestScore, winners)
  | p :: rest =>
      evalResult ← evaluateHand (Player.hand p) communityCards;
      if decide (bestScore < score evalResult) then
        winnerScan communityCards rest (score evalResult) [p]
      else if decide (score evalResult = bestScore) then
        winnerScan communityCards rest bestScore (winners ++ [p])
      else winnerScan communityCards rest bestScore winners
  end.

Definition determineWinner (players : list Player.t)
    (communityCards : list Card) : option (list Player.t) :=
  let activePlayers := filter (λ p, Player.isActive p = true) players in
  if decide (length activePlayers = 0%nat) then Some []
  else if decide (length activePlayers = 1%nat) then
    p ← activePlayers !! 0%nat; Some [p]
  else
    '(_, winners) ← winnerScan communityCards activePlayers (-1) [];
    Some winners.

(** ** Bot decisions ([getBotDecision])

    The strength estimate, the personality constants and the random draws
    are JavaScript numbers with fractional parts; they are IEEE 754
    binary64 values here as there ([float]).  Chip amounts and scores stay
    integers and are converted where the source mixes them with
    fractions. *)

(** An integer as a number (exact below 2^53, rounded to nearest beyond). *)
Definition numberOfZ (z : Z) : float :=
  SF2Prim (binary_normalize prec emax z 0 false).

(** [Math.floor] of a finite number; [None] on [NaN] and the infinities,
    which no chip amount or [Math.random()] draw produces. *)
Definition mathFloor (x : float) : option Z :=
  match Prim2SF x with
  | S754_zero _ => Some 0
  | S754_finite s m e =>
      let n := if s then Z.neg m else Z.pos m in
      Some (if decide (0 ≤ e) then n * 2 ^ e else n `div` 2 ^ (- e))
  | _ => None
  end.

Record BotPersonality := mkPersonality {
  vpip : float;
  aggression : float;
  bluff : float;
  label : string
}.

(** [constants.ts] *)
Definition BOT_PROFILES : list (string * BotPersonality) :=
  [("Nick", mkPersonality 0.15 0.8 0.2 "Tight-Aggressive");
   ("Devin", mkPersonality 0.50 0.9 0.8 "Wild Card");
   ("Cody A", mkPersonality 0.05 0.2 0.0 "The Rock");
   ("Cody", mkPersonality 0.60 0.6 0.6 "Loose Cannon");
   ("Pat", mkPersonality 0.30 0.4 0.3 "Rookie");
   ("Noah", mkPersonality 0.80 0.1 0.1 "Calling Station");
   ("Rob", mkPersonality 0.90 0.9 0.9 "Maniac")]%float.

(** The keys every object inherits from [Object.prototype]: under such a
    name the lookup below finds a built-in instead of a profile, whose
    [vpip], [aggression] and [bluff] are [undefined] and compare as [NaN]. *)
Definition inheritedKeys : list string :=
  ["constructor"; "hasOwnProperty"; "isPrototypeOf"; "propertyIsEnumerable";
   "toLocaleString"; "toString"; "valueOf"; "__proto__"; "__defineGetter__";
   "__defineSetter__"; "__lookupGetter__"; "__lookupSetter__"].

(** [BOT_PROFILES[player.name] || { vpip: 0.5, aggression: 0.5, bluff: 0.1,
    label: "Unknown" }] *)
Definition profileOf (name : string) : BotPersonality :=
  match list_find (λ entry, entry.1 = name) BOT_PROFILES with
  | Some (_, entry) => entry.2
  | None =>
      if decide (name ∈ inheritedKeys) then mkPersonality nan nan nan ""
      else mkPersonality 0.5 0.5 0.1 "Unknown"
  end.

(** The [Math.random()] draws of one decision, one field per call site, in
    the order of the source. *)
Record Rolls := mkRolls {
  bluffRoll : float;
  vpipRoll : float;
  foldRoll : float;
  raiseRoll : float;
  sizeRoll : float
}.

Inductive BotAction := FOLD | CALL | CHECK | RAISE.

Record BotDecision := mkDecision { action : BotAction; amount : option Z }.

(** The strength estimate of step 1, from the starting-hand score before
    the flop and from the evaluation score after it. *)
Definition preflopStrength (score : Z) : float :=
  (* Normalize preflop score: 0-25 => 0-1 *)
  (numberOfZ (Z.min score 25) / 25)%float.

Definition postflopStrength (score : Z) : float :=
  (* Normalize postflop score: <1000 (High Card) to 7000 (Quads) *)
  if decide (score < 1000) then (0.1 + numberOfZ score / 1500)%float
  else if decide (score < 2000) then
    (0.4 + (numberOfZ (score - 1000) / 1000) * 0.2)%float
  else if decide (score < 3000) then 0.7%float
  else if decide (score < 4000) then 0.8%float
  else 0.95%float.

Definition handStrength (player : Player.t) (gameState : GameState.t)
    : option float :=
  if decide (GameState.phase gameState = PRE_FLOP) then
    Some (preflopStrength
            (HandGrade.score (gradeStartingHand (Player.hand player))))
  else
    r ← evaluateHand (Player.hand player) (GameState.communityCards gameState);
    Some (postflopStrength (score r)).

Definition getBotDecision (rolls : Rolls) (player : Player.t)
    (gameState : GameState.t) : option BotDecision :=
  let profile := profileOf (Player.name player) in
  let toCall := GameState.currentBet gameState - Player.currentBet player in
  let isCheck := bool_decide (toCall = 0) in
  (* 1. Evaluate Hand Strength *)
  strength ← handStrength player gameState;
  (* 2. Adjust Strength with Personality (Bluff factor) *)
  let strength :=
    if (bluffRoll rolls <? bluff profile)%float then (strength + 0.3)%float
    else strength in
  (* 3. Decision Matrix *)
  let folds :=
    if decide (GameState.phase gameState = PRE_FLOP) then
      negb isCheck && (strength <? 0.3)%float
      && (vpip profile <? vpipRoll rolls)%float
    else
      negb isCheck && (strength <? 0.3)%float
      && (bluff profile <? foldRoll rolls)%float in
  if folds then Some (mkDecision FOLD None) else
  (* If we are here, we are playing. Raise or Call? *)
  let canAffordRaise :=
    bool_decide (toCall + GameState.minBet gameState < Player.chips player) in
  if canAffordRaise && (raiseRoll rolls <? aggression profile)%float
     && (0.4 <? strength)%float then
    size ← mathFloor (numberOfZ (GameState.pot gameState)
                      * (0.5 + sizeRoll rolls))%float;
    Some (mkDecision RAISE (Some (Z.max (GameState.minBet gameState) size)))
  else Some (mkDecision (if isCheck then CHECK else CALL) None).

(** * Vocabulary of the properties

    Definitions used to state and prove the properties below: counting,
    order, the shape of an evaluation, the chip totals, and sample seats
    and tables.  None of them is part of the program. *)

(** Number of occurrences of [x] in [l]. *)
Definition occ {A} `{EqDecision A} (x : A) (l : list A) : nat :=
  length (filter (λ y, y = x) l).

(** Descending order, in the strong form: every element dominates all
    later ones. *)
Definition descBy {A} (key : A → Z) : list A → Prop :=
  StronglySorted (λ a b, key b ≤ key a).

(** The highest value among the cards whose suit occurs five times or more:
    the order-independent content of the flush check. *)
Definition flushTop (cards : list Card) : option Z :=
  head (sortDescBy id
          (getCardValue
             <$> filter (λ c, (5 ≤ occ (suit c) (suit <$> cards))%nat) cards)).

(** Invariant of the full-house loop after the prefix [seen]. *)
Definition fullHouseInv (values seen : list Z) (acc : Z * Z) : Prop :=
  let '(three, two) := acc in
  (three = 0 ∨ (three ∈ seen ∧ occ three values = 3%nat))
  ∧ (two = 0 ∨ (two ∈ seen ∧ (2 ≤ occ two values)%nat))
  ∧ (three ≠ 0 → two ≠ 0 → three ≠ two)
  ∧ (three = 0 → ∀ v, v ∈ seen → v ≠ 0 → occ v values ≠ 3%nat)
  ∧ (two = 0 → ∀ v, v ∈ seen → v ≠ 0 → v ≠ three → (occ v values < 2)%nat).

(** What the detection chain establishes about its result, in terms of the
    rank multiplicities [occ v values], the flush top card [flush] and the
    straight high card [sh]. *)
Inductive HandShape (values : list Z) (flush : option Z) (sh : Z)
    : HandEval → Prop :=
  | ShapeQuads v :
      v ∈ values → occ v values = 4%nat →
      HandShape values flush sh (mkEval (7000 + v) "Four of a Kind")
  | ShapeFull three two :
      three ∈ values → two ∈ values → three ≠ two →
      occ three values = 3%nat → (2 ≤ occ two values)%nat →
      HandShape values flush sh
        (mkEval (6000 + three * 10 + two) "Full House")
  | ShapeFlush top :
      flush = Some top →
      HandShape values flush sh (mkEval (5000 + top) "Flush")
  | ShapeStraight :
      sh ≠ 0 → flush = None →
      HandShape values flush sh (mkEval (4000 + sh) "Straight")
  | ShapeTrips three :
      three ∈ values → occ three values = 3%nat → flush = None → sh = 0 →
      HandShape values flush sh (mkEval (3000 + three) "Three of a Kind")
  | ShapeTwoPair p0 p1 :
      p0 ∈ values → p1 ∈ values → p0 ≠ p1 →
      occ p0 values = 2%nat → occ p1 values = 2%nat →
      flush = None → sh = 0 →
      HandShape values flush sh (mkEval (2000 + p0 * 10 + p1) "Two Pair")
  | ShapePair p :
      p ∈ values → occ p values = 2%nat →
      (∀ q, occ q values = 2%nat → q = p) → flush = None → sh = 0 →
      HandShape values flush sh (mkEval (1000 + p) "Pair")
  | ShapeHigh v0 :
      values !! 0%nat = Some v0 →
      (∀ v, v ∈ values → occ v values = 1%nat ∨ (5 ≤ occ v values)%nat) →
      flush = None → sh = 0 →
      HandShape values flush sh (mkEval v0 "High Card").

(** The score band of each category. *)
Definition inBand (r : HandEval) : Prop :=
  (description r = "Waiting" ∧ score r = 0)
  ∨ (description r = "Four of a Kind" ∧ 7002 ≤ score r ≤ 7014)
  ∨ (description r = "Full House" ∧ 6022 ≤ score r ≤ 6154)
  ∨ (description r = "Flush" ∧ 5002 ≤ score r ≤ 5014)
  ∨ (description r = "Straight" ∧ 4002 ≤ score r ≤ 4014)
  ∨ (description r = "Three of a Kind" ∧ 3002 ≤ score r ≤ 3014)
  ∨ (description r = "Two Pair" ∧ 2022 ≤ score r ≤ 2154)
  ∨ (description r = "Pair" ∧ 1002 ≤ score r ≤ 1014)
  ∨ (description r = "High Card" ∧ 2 ≤ score r ≤ 14).

(** The class of a description, as an index: High Card (and the empty
    "Waiting" result) 0, Pair 1, ..., Four of a Kind 7. *)
Definition classRank (d : string) : Z :=
  if decide (d = "Four of a Kind") then 7
  else if decide (d = "Full House") then 6
  else if decide (d = "Flush") then 5
  else if decide (d = "Straight") then 4
  else if decide (d = "Three of a Kind") then 3
  else if decide (d = "Two Pair") then 2
  else if decide (d = "Pair") then 1
  else 0.

(** The tie-break term of the one-rank classes: the rank held four, three
    or two times, or the highest rank held. *)
Definition primaryRank (cards : list Card) (r : HandEval) : Prop :=
  let values := getCardValue <$> cards in
  (description r = "Four of a Kind" →
   ∃ v, score r = 7000 + v ∧ occ v values = 4%nat)
  ∧ (description r = "Three of a Kind" →
     ∃ v, score r = 3000 + v ∧ occ v values = 3%nat)
  ∧ (description r = "Pair" →
     ∃ v, score r = 1000 + v ∧ occ v values = 2%nat
          ∧ ∀ q, occ q values = 2%nat → q = v)
  ∧ (description r = "High Card" →
     score r ∈ values ∧ ∀ v, v ∈ values → v ≤ score r).

(** ** Standard poker hand strength

    Modelled from the rules of poker, which the specification refers to as
    "standard poker hand strength"; nothing here is taken from the source.
    A five-card hand is ranked by a class number followed by its tie-break
    ranks, and two rankings compare lexicographically. *)

Fixpoint choose {A} (k : nat) (l : list A) : list (list A) :=
  match k, l with
  | O, _ => [[]]
  | S _, [] => []
  | S k', x :: l' => (cons x <$> choose k' l') ++ choose k l'
  end.

Fixpoint lexLt (a b : list Z) : bool :=
  match a, b with
  | [], [] => false
  | [], _ :: _ => true
  | _ :: _, [] => false
  | x :: a', y :: b' =>
      if decide (x < y) then true
      else if decide (y < x) then false
      else lexLt a' b'
  end.

Definition standardRank5 (cards : list Card) : list Z :=
  let vs := sortDescBy id (getCardValue <$> cards) in
  (* ranks grouped: larger groups first, higher rank first among equals *)
  let groups :=
    sortDescBy (λ v, Z.of_nat (occ v vs) * 100 + v) (setFromArray vs) in
  let shape := (λ v, occ v vs) <$> groups in
  let flush :=
    bool_decide (Forall (λ c, Some (suit c) = suit <$> head cards) cards) in
  let wheel := bool_decide (vs = [14; 5; 4; 3; 2]) in
  let straight :=
    wheel || bool_decide (shape = [1; 1; 1; 1; 1]%nat
                          ∧ default 0 (head vs) - default 0 (last vs) = 4) in
  let high := if wheel then 5 else default 0 (head vs) in
  if straight && flush then [8; high]
  else if bool_decide (shape = [4; 1]%nat) then 7 :: groups
  else if bool_decide (shape = [3; 2]%nat) then 6 :: groups
  else if flush then 5 :: vs
  else if straight then [4; high]
  else if bool_decide (shape = [3; 1; 1]%nat) then 3 :: groups
  else if bool_decide (shape = [2; 2; 1]%nat) then 2 :: groups
  else if bool_decide (shape = [2; 1; 1; 1]%nat) then 1 :: groups
  else 0 :: vs.

(** The best five-card hand that can be made from the cards. *)
Definition standardBest (cards : list Card) : list Z :=
  foldr (λ r best, if lexLt best r then r else best) []
        (standardRank5 <$> choose 5 cards).

Definition standardStronger (a b : list Card) : Prop :=
  lexLt (standardBest b) (standardBest a) = true.

Definition standardTie (a b : list Card) : Prop :=
  standardBest a = standardBest b.

(** The grade thresholds and the advisory line of each grade, as the
    specification lists them. *)
Definition gradeForScore (s : Z) : string :=
  if decide (20 ≤ s) then "S"
  else if decide (15 ≤ s) then "A"
  else if decide (10 ≤ s) then "B"
  else if decide (7 ≤ s) then "C"
  else if decide (5 ≤ s) then "D"
  else "F".

Definition adviceForGrade (g : string) : string :=
  if decide (g = "S") then "Monster. Raise big."
  else if decide (g = "A") then "Premium. 3-bet territory."
  else if decide (g = "B") then "Strong. Playable from any position."
  else if decide (g = "C") then "Marginal. Careful out of position."
  else if decide (g = "D") then "Speculative. Fold unless on Button."
  else "Garbage. Do not play.".

(** The two cards of a starting hand, higher value first (the first card
    on equal values). *)
Definition highLow (h0 h1 : Card) : Card * Card :=
  if decide (getCardValue h1 ≤ getCardValue h0) then (h0, h1) else (h1, h0).

(** The chips held by all seats. *)
Definition sumChips (players : list Player.t) : Z :=
  foldr (λ p acc, Player.chips p + acc) 0 players.

(** [sum(seat.chips) + pot] *)
Definition chipsInPlay (state : GameState.t) : Z :=
  sumChips (GameState.players state) + GameState.pot state.

Definition creditWinners (winners : list Player.t) (winAmount : Z)
    (p : Player.t) : Player.t :=
  if decide (Exists (λ w, Player.id w = Player.id p) winners)
  then Player.credit winAmount p else p.

(** Calls of [nextPhase] left before the hand is settled. *)
Definition streetsLeft (phase : GamePhase) : nat :=
  match phase with
  | PRE_FLOP => 4
  | FLOP => 3
  | TURN => 2
  | RIVER | SHOWDOWN => 1
  | _ => 0
  end.

(** Sample cards, seats and tables. *)
(** Sample hands. *)
Definition card (r : Rank) (s : Suit) : Card := mkCard r s.

Definition seatWith (id : string) (chips bet : Z) (hand : list Card)
    (active allIn : bool) : Player.t :=
  Player.mk id id chips hand false active allIn bet "EP" None.

Definition tableWith (phase : GamePhase) (pot : Z) (board : list Card)
    (players : list Player.t) (current dealer : Z) (tableBet : Z)
    (lastRaiser : option Z) : GameState.t :=
  GameState.mk phase pot board [] players current dealer BIG_BLIND tableBet
    lastRaiser [] "blue" [] "" 0 [] 1.

(** The score and the description a seat's hole cards evaluate to on a
    board. *)
Definition handScore (communityCards : list Card) (p : Player.t) : Z :=
  from_option score 0 (evaluateHand (Player.hand p) communityCards).

Definition handDesc (communityCards : list Card) (p : Player.t) : string :=
  from_option description "" (evaluateHand (Player.hand p) communityCards).

(** The seats still in the hand. *)
Definition activeSeats (players : list Player.t) : list Player.t :=
  filter (λ p, Player.isActive p = true) players.

(** The hole cards held around the table. *)
Definition holeCards (players : list Player.t) : list Card :=
  mjoin (Player.hand <$> players).

(** Seats holding chips. *)
Definition fundedSeats (players : list Player.t) : list Player.t :=
  filter (λ p, 0 < Player.chips p) players.

(** One seat record [p] after the reset and the blinds of hand setup, before
    the deal: identity kept, active exactly when it held chips, all-in only
    with an empty stack, no cards, and, for a non-negative stack, a blind
    between 0 and the big blind taken from it. *)
Definition seatBeforeDeal (p p' : Player.t) : Prop :=
  Player.id p' = Player.id p
  ∧ Player.name p' = Player.name p
  ∧ Player.isActive p' = bool_decide (0 < Player.chips p)
  ∧ (Player.isAllIn p' = true → Player.chips p' = 0)
  ∧ (0 ≤ Player.chips p →
     0 ≤ Player.chips p' ≤ Player.chips p
     ∧ 0 ≤ Player.currentBet p' ≤ BIG_BLIND)
  ∧ Player.hand p' = [].

(** The same seat once the hand is set up: two hole cards if active, none
    otherwise. *)
Definition seatAfterSetup (p p' : Player.t) : Prop :=
  Player.id p' = Player.id p
  ∧ Player.name p' = Player.name p
  ∧ Player.isActive p' = bool_decide (0 < Player.chips p)
  ∧ (Player.isAllIn p' = true → Player.chips p' = 0)
  ∧ (0 ≤ Player.chips p →
     0 ≤ Player.chips p' ≤ Player.chips p
     ∧ 0 ≤ Player.currentBet p' ≤ BIG_BLIND)
  ∧ length (Player.hand p') = (if Player.isActive p' then 2 else 0)%nat.

(** A seat record is sound when its stack is not negative and it is marked
    all-in only with an empty stack. *)
Definition soundSeat (p : Player.t) : Prop :=
  0 ≤ Player.chips p ∧ (Player.isAllIn p = true → Player.chips p = 0).

(** The street that follows a dealing phase, and the cards it puts on the
    board. *)
Definition nextStreet (phase : GamePhase) : GamePhase :=
  match phase with
  | PRE_FLOP => FLOP
  | FLOP => TURN
  | TURN => RIVER
  | _ => phase
  end.

Definition streetCards (phase : GamePhase) : nat :=
  match phase with
  | PRE_FLOP => 3
  | FLOP | TURN => 1
  | _ => 0
  end.

(** Board cards still to come before the showdown, and the deck cards that
    takes (one burn per street). *)
Definition cardsToCome (phase : GamePhase) : nat :=
  match phase with
  | PRE_FLOP => 5
  | FLOP => 2
  | TURN => 1
  | _ => 0
  end.

Definition deckNeeded (phase : GamePhase) : nat :=
  match phase with
  | PRE_FLOP => 8
  | FLOP => 4
  | TURN => 2
  | _ => 0
  end.

Definition dealingPhase (phase : GamePhase) : Prop :=
  phase = PRE_FLOP ∨ phase = FLOP ∨ phase = TURN.

(** A sample table in the middle of a hand, with its deck (top card
    last). *)
Definition dealtTable (phase : GamePhase) (pot : Z) (board deck : list Card)
    (players : list Player.t) (dealer : Z) : GameState.t :=
  GameState.mk phase pot board deck players 0 dealer BIG_BLIND 0 None []
    "blue" [] "" 0 [] 1.

(** The chips the seats have in front of them in the current betting
    round. *)
Definition sumBets (players : list Player.t) : Z :=
  foldr (λ p acc, Player.currentBet p + acc) 0 players.

(** The thirteen rank values, highest first, and all the ways to hold some
    of them. *)
Definition rankValuesDesc : list Z :=
  [14; 13; 12; 11; 10; 9; 8; 7; 6; 5; 4; 3; 2].

Fixpoint sublists {A} (l : list A) : list (list A) :=
  match l with
  | [] => [[]]
  | x :: l => ((x ::.) <$> sublists l) ++ sublists l
  end.

(** Five ranks in a row with [v] on top, and the wheel A-2-3-4-5, among the
    values [u]. *)
Definition run5 (u : list Z) (v : Z) : Prop :=
  v ∈ u ∧ v - 1 ∈ u ∧ v - 2 ∈ u ∧ v - 3 ∈ u ∧ v - 4 ∈ u.

Definition wheel (u : list Z) : Prop :=
  14 ∈ u ∧ 2 ∈ u ∧ 3 ∈ u ∧ 4 ∈ u ∧ 5 ∈ u.

(** The straight high card the scan settles on: the top of the lowest run
    of five, else 5 for the wheel, else 0. *)
Definition lowestRun (u : list Z) (sh : Z) : Prop :=
  (run5 u sh ∧ Forall (λ v, run5 u v → sh ≤ v) u)
  ∨ (Forall (λ v, ¬ run5 u v) u ∧ wheel u ∧ sh = 5)
  ∨ (Forall (λ v, ¬ run5 u v) u ∧ ¬ wheel u ∧ sh = 0).

#[global] Instance run5_dec u v : Decision (run5 u v).
Proof. unfold run5. apply _. Defined.

#[global] Instance wheel_dec u : Decision (wheel u).
Proof. unfold wheel. apply _. Defined.

#[global] Instance lowestRun_dec u sh : Decision (lowestRun u sh).
Proof. unfold lowestRun. apply _. Defined.

(** The scan and the wheel test of [checkStraight] on the distinct values
    [u] settle on the lowest run. *)
Definition straightChecked (u : list Z) : Prop :=
  match straightScan u (length u - 1) 0 0 0 with
  | Some sh =>
      lowestRun u
        (if decide (sh = 0 ∧ 14 ∈ u ∧ 2 ∈ u ∧ 3 ∈ u ∧ 4 ∈ u ∧ 5 ∈ u)
         then 5 else sh)
  | None => False
  end.

#[global] Instance straightChecked_dec u : Decision (straightChecked u).
Proof.
  unfold straightChecked. destruct (straightScan _ _ _ _ _); apply _.
Defined.

(** What a bot faces and holds: the chips to call, the starting-hand score
    and the post-flop score. *)
Definition toCallOf (player : Player.t) (gameState : GameState.t) : Z :=
  GameState.currentBet gameState - Player.currentBet player.

Definition preflopScore (player : Player.t) : Z :=
  HandGrade.score (gradeStartingHand (Player.hand player)).

(** The bluff draw came out below the personality's bluff factor: the bot
    takes its hand for stronger than it is. *)
Definition bluffing (rolls : Rolls) (player : Player.t) : bool :=
  (bluffRoll rolls <? bluff (profileOf (Player.name player)))%float.

(** The draws that let a bot raise when it can afford to. *)
Definition raiseDrawn (rolls : Rolls) (player : Player.t) : bool :=
  (raiseRoll rolls <? aggression (profileOf (Player.name player)))%float.

Definition canAffordRaise (player : Player.t) (gameState : GameState.t)
    : Prop :=
  toCallOf player gameState + GameState.minBet gameState < Player.chips player.

#[global] Instance canAffordRaise_dec player gameState :
  Decision (canAffordRaise player gameState).
Proof. unfold canAffordRaise. apply _. Defined.

(** Sample draws. *)
Definition rollsWith (b v f r s : float) : Rolls := mkRolls b v f r s.

(** ** The classes of standard poker, by the patterns held *)

(** The class of the best standard five-card hand: 8 straight flush, 7 four
    of a kind, ..., 0 high card. *)
Definition standardClass (cards : list Card) : Z :=
  default 0 (head (standardBest cards)).

(** The class [standardRank5] gives to five cards with the values [vals],
    of one suit or not. *)
Definition class5 (vals : list Z) (flush : bool) : Z :=
  let vs := sortDescBy id vals in
  let groups :=
    sortDescBy (λ v, Z.of_nat (occ v vs) * 100 + v) (setFromArray vs) in
  let shape := (λ v, occ v vs) <$> groups in
  let wheel := bool_decide (vs = [14; 5; 4; 3; 2]) in
  let straight :=
    wheel || bool_decide (shape = [1; 1; 1; 1; 1]%nat
                          ∧ default 0 (head vs) - default 0 (last vs) = 4) in
  if straight && flush then 8
  else if bool_decide (shape = [4; 1]%nat) then 7
  else if bool_decide (shape = [3; 2]%nat) then 6
  else if flush then 5
  else if straight then 4
  else if bool_decide (shape = [3; 1; 1]%nat) then 3
  else if bool_decide (shape = [2; 2; 1]%nat) then 2
  else if bool_decide (shape = [2; 1; 1; 1]%nat) then 1
  else 0.

(** Rank multiplicities among the values [vals]: some rank held [n] times
    or more; a rank held [n] times or more and another [m] times or more;
    five ranks in a row, or the wheel. *)
Definition heldP (n : nat) (vals : list Z) : Prop :=
  ∃ v, (n ≤ occ v vals)%nat.

Definition heldTwoP (n m : nat) (vals : list Z) : Prop :=
  ∃ v w, w ≠ v ∧ (n ≤ occ v vals)%nat ∧ (m ≤ occ w vals)%nat.

Definition runP (vals : list Z) : Prop :=
  (∃ v, run5 vals v) ∨ wheel vals.

(** The same with the rank ranging over the values held, which makes them
    decidable. *)
Definition held (n : nat) (vals : list Z) : Prop :=
  Exists (λ v, (n ≤ occ v vals)%nat) vals.

Definition heldTwo (n m : nat) (vals : list Z) : Prop :=
  Exists (λ v, (n ≤ occ v vals)%nat
               ∧ Exists (λ w, w ≠ v ∧ (m ≤ occ w vals)%nat) vals) vals.

(** Five ranks in a row, or the wheel. *)
Definition hasRun (vals : list Z) : Prop :=
  Exists (run5 vals) vals ∨ wheel vals.

#[global] Instance held_dec n vals : Decision (held n vals).
Proof. unfold held. apply _. Defined.

#[global] Instance heldTwo_dec n m vals : Decision (heldTwo n m vals).
Proof. unfold heldTwo. apply _. Defined.

#[global] Instance hasRun_dec vals : Decision (hasRun vals).
Proof. unfold hasRun. apply _. Defined.

(** The class of five cards by the patterns they hold, highest first. *)
Definition classOf (vals : list Z) (flush : bool) : Z :=
  if decide (hasRun vals ∧ flush = true) then 8
  else if decide (held 4 vals) then 7
  else if decide (heldTwo 3 2 vals) then 6
  else if flush then 5
  else if decide (hasRun vals) then 4
  else if decide (held 3 vals) then 3
  else if decide (heldTwo 2 2 vals) then 2
  else if decide (held 2 vals) then 1
  else 0.

(** All descending lists of [k] values taken from the descending list
    [l]. *)
Fixpoint descLists (l : list Z) : nat → list (list Z) :=
  match l with
  | [] => λ k, match k with O => [[]] | S _ => [] end
  | x :: l' =>
      fix go (k : nat) : list (list Z) :=
        match k with
        | O => [[]]
        | S k' => ((x ::.) <$> go k') ++ descLists l' k
        end
  end.

(** On five values without a rank held five times, [standardRank5]'s class
    is the class by patterns, and a run leaves no rank held twice. *)
Definition class5Checked (vals : list Z) : Prop :=
  ¬ held 5 vals →
  class5 vals true = classOf vals true
  ∧ class5 vals false = classOf vals false
  ∧ (hasRun vals → ¬ held 2 vals).

#[global] Instance class5Checked_dec vals : Decision (class5Checked vals).
Proof. unfold class5Checked. apply _. Defined.

(** * Properties *)

(** ** Properties of the array helpers *)

Section SortFacts.
Context {A : Type} (key : A → Z).

Lemma insertDescBy_perm x l : insertDescBy key x l ≡ₚ x :: l.
Proof.
  induction l as [|y l IH]; simpl; [done|].
  case_decide; [|done]. rewrite IH. apply Permutation_swap.
Qed.

Lemma sortDescBy_perm l : sortDescBy key l ≡ₚ l.
Proof.
  induction l as [|x l IH]; simpl; [done|].
  by rewrite insertDescBy_perm, IH.
Qed.

Lemma sortDescBy_length l : length (sortDescBy key l) = length l.
Proof. by rewrite sortDescBy_perm. Qed.

Lemma insertDescBy_fmap x l :
  key <$> insertDescBy key x l = insertDescBy id (key x) (key <$> l).
Proof.
  induction l as [|y l IH]; simpl; [done|].
  unfold id. case_decide; simpl; f_equal; done.
Qed.

Lemma sortDescBy_fmap l :
  key <$> sortDescBy key l = sortDescBy id (key <$> l).
Proof.
  induction l as [|x l IH]; simpl; [done|].
  by rewrite insertDescBy_fmap, IH.
Qed.

Lemma insertDescBy_head x l :
  Forall (λ z, key z ≤ key x) l → insertDescBy key x l = x :: l.
Proof.
  destruct 1 as [|y l Hy _]; simpl; [done|].
  case_decide; [lia|done].
Qed.

Lemma insertDescBy_desc x l : descBy key l → descBy key (insertDescBy key x l).
Proof.
  induction 1 as [|y l Hl IH Hy]; simpl.
  - repeat constructor.
  - case_decide.
    + constructor; [done|]. rewrite insertDescBy_perm.
      constructor; [lia|done].
    + constructor; [by constructor|].
      constructor; [lia|]. eapply Forall_impl; [done|]. simpl. intros; lia.
Qed.

Lemma sortDescBy_desc l : descBy key (sortDescBy key l).
Proof.
  induction l as [|x l IH]; simpl; [constructor|].
  by apply insertDescBy_desc.
Qed.

Lemma insertDescBy_filter (P : A → Prop) `{!∀ x, Decision (P x)} x l :
  descBy key l →
  filter P (insertDescBy key x l)
  = if decide (P x) then insertDescBy key x (filter P l) else filter P l.
Proof.
  induction 1 as [|y l Hl IH Hy]; simpl.
  - rewrite filter_cons, filter_nil. by case_decide.
  - destruct (decide (key x < key y)) as [Hlt|Hge].
    + rewrite !filter_cons, IH.
      destruct (decide (P y)), (decide (P x)); simpl; try done.
      by rewrite decide_True.
    + rewrite filter_cons. destruct (decide (P x)); [|done].
      rewrite insertDescBy_head; [done|].
      apply Forall_forall. intros z Hz.
      apply list_elem_of_filter in Hz as [_ Hz].
      apply elem_of_cons in Hz as [->|Hz]; [lia|].
      rewrite Forall_forall in Hy. specialize (Hy _ Hz). simpl in Hy. lia.
Qed.

Lemma sortDescBy_filter (P : A → Prop) `{!∀ x, Decision (P x)} l :
  filter P (sortDescBy key l) = sortDescBy key (filter P l).
Proof.
  induction l as [|x l IH]; simpl; [done|].
  rewrite insertDescBy_filter by apply sortDescBy_desc.
  rewrite filter_cons, IH. by case_decide.
Qed.
End SortFacts.

Lemma insertDescBy_id_comm (x y : Z) l :
  insertDescBy id x (insertDescBy id y l)
  = insertDescBy id y (insertDescBy id x l).
Proof.
  induction l as [|z l IH]; simpl; unfold id.
  - repeat (case_decide; simpl; unfold id); try lia; try done.
    by replace y with x by lia.
  - repeat (case_decide; simpl; unfold id); try lia; try done;
      first [f_equal; exact IH | by replace y with x by lia].
Qed.

Lemma sortDescBy_id_perm (l l' : list Z) :
l ≡ₚ l' → sortDescBy id l = sortDescBy id l'.
Proof.
induction 1 as [|x l l' _ IH|x y l|l l' l'' _ IH1 _ IH2]; simpl.
- done.
- by rewrite IH.
- apply insertDescBy_id_comm.
- by rewrite IH1.
Qed.

(** ** Facts about the tallies *)

Lemma occ_cons {A} `{EqDecision A} (x y : A) l :
  occ x (y :: l) = ((if decide (y = x) then 1 else 0) + occ x l)%nat.
Proof. unfold occ. rewrite filter_cons. by case_decide. Qed.

Lemma occ_perm {A} `{EqDecision A} (x : A) l l' :
  l ≡ₚ l' → occ x l = occ x l'.
Proof. unfold occ. by intros ->. Qed.

Lemma occ_pos {A} `{EqDecision A} (x : A) l : (0 < occ x l)%nat ↔ x ∈ l.
Proof.
  induction l as [|y l IH].
  - unfold occ. simpl. split; [lia|inversion 1].
  - rewrite occ_cons, elem_of_cons. destruct (decide (y = x)) as [->|Hne].
    + split; [by left|simpl; lia].
    + rewrite <- IH. simpl. split; [by right|]. by intros [?|?].
Qed.

Lemma occ_le_length {A} `{EqDecision A} (x : A) l : (occ x l ≤ length l)%nat.
Proof. apply length_filter. Qed.

Lemma occ_two_le_length {A} `{EqDecision A} (x y : A) l :
  x ≠ y → (occ x l + occ y l ≤ length l)%nat.
Proof.
  intros Hne. induction l as [|z l IH]; [done|].
  rewrite !occ_cons. simpl. repeat case_decide; subst; try done; lia.
Qed.

Lemma tallyValues_foldl_lookup (l : list Z) (m : gmap Z nat) v :
  foldl (λ counts v, <[v := (default 0%nat (counts !! v) + 1)%nat]> counts)
        m l !! v
  = if decide (v ∈ l) then Some (countOf m v + occ v l)%nat else m !! v.
Proof.
  revert m. induction l as [|x l IH]; intros m.
  - by destruct (decide (v ∈ [])) as [Hin|]; [inversion Hin|].
  - simpl. rewrite IH, occ_cons. unfold countOf.
    destruct (decide (x = v)) as [->|Hne].
    + rewrite lookup_insert_eq.
      destruct (decide (v ∈ v :: l)) as [_|Hn]; [|exfalso; apply Hn; left].
      destruct (decide (v ∈ l)) as [Hin|Hin]; simpl; f_equal; [lia|].
      assert (occ v l = 0%nat) as ->; [|lia].
      destruct (occ v l) eqn:E; [done|]. exfalso. apply Hin, occ_pos. lia.
    + rewrite lookup_insert_ne by done.
      destruct (decide (v ∈ l)) as [Hin|Hin].
      * rewrite decide_True by by right. done.
      * rewrite decide_False; [done|]. by intros [?|?]%elem_of_cons.
Qed.

Lemma tallyValues_lookup (l : list Z) v :
  tallyValues l !! v = if decide (v ∈ l) then Some (occ v l) else None.
Proof.
  unfold tallyValues. rewrite tallyValues_foldl_lookup. unfold countOf.
  by rewrite lookup_empty.
Qed.

Lemma countOf_tallyValues (l : list Z) v : countOf (tallyValues l) v = occ v l.
Proof.
  unfold countOf. rewrite tallyValues_lookup. case_decide as Hin; [done|].
  simpl. destruct (occ v l) eqn:E; [done|]. exfalso. apply Hin, occ_pos. lia.
Qed.

Lemma elem_of_objectKeys (m : gmap Z nat) v :
  v ∈ objectKeys m ↔ is_Some (m !! v).
Proof.
  unfold objectKeys. rewrite list_elem_of_fmap. split.
  - intros [[k n] [-> Hkn]]. apply elem_of_map_to_list in Hkn. by eexists.
  - intros [n Hn]. exists (v, n). split; [done|]. by apply elem_of_map_to_list.
Qed.

Lemma NoDup_objectKeys (m : gmap Z nat) : NoDup (objectKeys m).
Proof. apply NoDup_fst_map_to_list. Qed.

(** [distinctValues] holds exactly the values present, each once. *)
Lemma elem_of_distinctValues (l : list Z) v :
  v ∈ sortDescBy id (objectKeys (tallyValues l)) ↔ v ∈ l.
Proof.
  rewrite sortDescBy_perm, elem_of_objectKeys, tallyValues_lookup.
  destruct (decide (v ∈ l)); split; try done; by intros [? ?].
Qed.

Lemma NoDup_distinctValues (l : list Z) :
  NoDup (sortDescBy id (objectKeys (tallyValues l))).
Proof. rewrite sortDescBy_perm. apply NoDup_objectKeys. Qed.

Lemma getCardValue_bounds card : 2 ≤ getCardValue card ≤ 14.
Proof. destruct card as [[] ?]; unfold getCardValue; simpl; lia. Qed.

Lemma setFromArray_foldl_elem (l acc : list Z) v :
  v ∈ foldl (λ acc v, if decide (v ∈ acc) then acc else acc ++ [v]) acc l
  ↔ v ∈ acc ∨ v ∈ l.
Proof.
  revert acc. induction l as [|x l IH]; intros acc; simpl.
  - split; [by left|]. intros [?|H]; [done|inversion H].
  - rewrite IH. destruct (decide (x ∈ acc)) as [Hx|Hx]; set_solver.
Qed.

Lemma elem_of_setFromArray (l : list Z) v : v ∈ setFromArray l ↔ v ∈ l.
Proof.
  unfold setFromArray. rewrite setFromArray_foldl_elem.
  split; [|by right]. intros [H|?]; [inversion H|done].
Qed.

Lemma setFromArray_foldl_length (l acc : list Z) :
  (length (foldl (λ acc v, if decide (v ∈ acc) then acc else acc ++ [v]) acc l)
   ≤ length acc + length l)%nat.
Proof.
  revert acc. induction l as [|x l IH]; intros acc; simpl; [lia|].
  etrans; [apply IH|]. case_decide; rewrite ?length_app; simpl; lia.
Qed.

Lemma setFromArray_length (l : list Z) :
  (length (setFromArray l) ≤ length l)%nat.
Proof. apply (setFromArray_foldl_length l []). Qed.

(** The straight scan reads inside the array only, and its result is the
    initial [straightHigh] or an element of an array of five or more. *)
Lemma straightScan_total (u : list Z) n i sh cons :
  (i + n = length u - 1)%nat → (cons ≤ i)%nat →
  ∃ r, straightScan u n i sh cons = Some r
       ∧ (r = sh ∨ (r ∈ u ∧ (5 ≤ length u)%nat)).
Proof.
  revert i sh cons. induction n as [|n IH]; intros i sh cons Hlen Hcons; simpl.
  - eauto.
  - destruct (lookup_lt_is_Some_2 u i) as [a Ha]; [lia|].
    destruct (lookup_lt_is_Some_2 u (i + 1)) as [b Hb]; [lia|].
    rewrite Ha, Hb. simpl.
    destruct (decide (a - b = 1)).
    + destruct (decide (4 ≤ S cons)%nat).
      * rewrite decide_True by lia.
        destruct (lookup_lt_is_Some_2 u (i - 3)) as [h Hh]; [lia|].
        rewrite Hh. simpl.
        destruct (IH (S i) h (S cons)) as (r & -> & Hr); [lia..|].
        eexists; split; [done|]. right.
        destruct Hr as [->|?]; [|done].
        split; [by eapply list_elem_of_lookup_2|lia].
      * apply IH; lia.
    + apply IH; lia.
Qed.

Lemma five_distinct_length (u : list Z) :
  14 ∈ u → 2 ∈ u → 3 ∈ u → 4 ∈ u → 5 ∈ u → (5 ≤ length u)%nat.
Proof.
  intros. change 5%nat with (length [14; 2; 3; 4; 5]).
  apply submseteq_length, NoDup_submseteq.
  - repeat (constructor; [set_solver by lia|]). constructor.
  - intros x Hx. set_unfold. naive_solver.
Qed.

(** [checkStraight] never reads outside the array; a non-zero result is the
    value of one of at least five distinct ranks present. *)
Lemma checkStraight_total (values : list Z) :
  ∃ sh, checkStraight values = Some sh
        ∧ (sh = 0 ∨ ((sh ∈ values ∨ sh = 5)
                     ∧ (5 ≤ length (setFromArray values))%nat)).
Proof.
  unfold checkStraight.
  destruct (straightScan_total (setFromArray values)
              (length (setFromArray values) - 1) 0 0 0) as (r & -> & Hr);
    [lia..|].
  simpl. eexists; split; [done|].
  case_decide as Hw.
  - right. split; [by right|]. apply five_distinct_length; naive_solver.
  - destruct Hr as [->|[Hr ?]]; [by left|]. right.
    split; [|done]. left. by apply elem_of_setFromArray.
Qed.

(** ** Facts about the flush check *)

Lemma suitCountOf_bumpSuit s m s' :
  suitCountOf (bumpSuit s m) s'
  = (suitCountOf m s' + if decide (s = s') then 1 else 0)%nat.
Proof.
  induction m as [|[k n] m IH]; simpl.
  - destruct (decide (s' = s)), (decide (s = s')); congruence || lia.
  - destruct (decide (s = k)) as [->|Hne]; simpl.
    + destruct (decide (s' = k)), (decide (k = s')); congruence || lia.
    + destruct (decide (s' = k)) as [->|]; [|done].
      rewrite decide_False by done. lia.
Qed.

Lemma suitCountOf_foldl (l : list Suit) m s :
  suitCountOf (foldl (λ m s, bumpSuit s m) m l) s
  = (suitCountOf m s + occ s l)%nat.
Proof.
  revert m. induction l as [|x l IH]; intros m; simpl.
  - unfold occ. simpl. lia.
  - rewrite IH, suitCountOf_bumpSuit, occ_cons. lia.
Qed.

Lemma suitCountOf_tallySuits (l : list Suit) s :
  suitCountOf (tallySuits l) s = occ s l.
Proof. unfold tallySuits. by rewrite suitCountOf_foldl. Qed.

Lemma bumpSuit_keys s m :
  (bumpSuit s m).*1 = if decide (s ∈ m.*1) then m.*1 else m.*1 ++ [s].
Proof.
  induction m as [|[k n] m IH].
  - by destruct (decide (s ∈ [])) as [H|]; [inversion H|].
  - cbn [bumpSuit]. destruct (decide (s = k)) as [->|Hne]; csimpl.
    + by rewrite decide_True by left.
    + rewrite IH. destruct (decide (s ∈ m.*1)) as [Hin|Hin].
      * by rewrite decide_True by by right.
      * rewrite decide_False; [done|]. by intros [?|?]%elem_of_cons.
Qed.

(** The first hit of a search is the same in a list and in the list of its
    first occurrences. *)
Lemma list_find_head {A} (P : A → Prop) `{!∀ x, Decision (P x)} (l : list A) :
  snd <$> list_find P l = head (filter P l).
Proof.
  induction l as [|x l IH]; [done|].
  rewrite filter_cons. simpl. destruct (decide (P x)); [done|].
  rewrite <- IH. by destruct (list_find P l) as [[? ?]|].
Qed.

Lemma head_filter_app_elem {A} (P : A → Prop) `{!∀ x, Decision (P x)}
    (acc l : list A) x :
  x ∈ acc → head (filter P (acc ++ x :: l)) = head (filter P (acc ++ l)).
Proof.
  intros Hx. rewrite !filter_app, filter_cons.
  destruct (decide (P x)) as [HP|]; [|done].
  assert (x ∈ filter P acc) as Hf by by apply list_elem_of_filter.
  destruct (filter P acc); [inversion Hf|done].
Qed.

Lemma tallySuits_foldl_find (P : Suit → Prop) `{!∀ x, Decision (P x)}
    (l : list Suit) (m : list (Suit * nat)) :
  head (filter P (foldl (λ m s, bumpSuit s m) m l).*1)
  = head (filter P (m.*1 ++ l)).
Proof.
  revert m. induction l as [|x l IH]; intros m; simpl.
  - by rewrite app_nil_r.
  - rewrite IH, bumpSuit_keys. destruct (decide (x ∈ m.*1)).
    + by rewrite head_filter_app_elem.
    + by rewrite <- app_assoc.
Qed.

(** [flushSuit] is the suit of the first card, in sorted order, whose suit
    occurs five times or more. *)
Lemma flushSuit_first (suits : list Suit) :
  snd <$> list_find (λ s, (5 ≤ suitCountOf (tallySuits suits) s)%nat)
            (tallySuits suits).*1
  = head (filter (λ s, (5 ≤ occ s suits)%nat) suits).
Proof.
  rewrite list_find_head.
  rewrite (list_filter_iff _ (λ s, (5 ≤ occ s suits)%nat))
    by (intros s; by rewrite suitCountOf_tallySuits).
  unfold tallySuits. by rewrite tallySuits_foldl_find.
Qed.

Lemma filter_fmap_comm {A B} (f : A → B) (P : B → Prop)
    `{!∀ x, Decision (P x)} (l : list A) :
  filter P (f <$> l) = f <$> filter (λ x, P (f x)) l.
Proof.
  induction l as [|x l IH]; [done|].
  csimpl. rewrite !filter_cons, IH. by case_decide.
Qed.

Lemma head_fmap_comm {A B} (f : A → B) (l : list A) :
  head (f <$> l) = f <$> head l.
Proof. by destruct l. Qed.

(** The first card whose suit satisfies a condition is also the first card
    of its own suit. *)
Lemma head_filter_own_suit (R : Suit → Prop) `{!∀ s, Decision (R s)}
    (l : list Card) c0 :
  head (filter (λ c, R (suit c)) l) = Some c0 →
  head (filter (λ c, suit c = suit c0) l) = Some c0.
Proof.
  intros Hhd.
  assert (R (suit c0)) as HR.
  { apply head_Some_elem_of, list_elem_of_filter in Hhd. tauto. }
  induction l as [|x l IH]; [done|].
  rewrite filter_cons in Hhd. rewrite filter_cons.
  destruct (decide (R (suit x))) as [Hx|Hx].
  - simpl in Hhd. injection Hhd as ->. by rewrite decide_True.
  - rewrite decide_False by congruence. by apply IH.
Qed.

Lemma flushTop_perm cards cards' :
  cards ≡ₚ cards' → flushTop cards = flushTop cards'.
Proof.
  intros Hp. unfold flushTop. f_equal. apply sortDescBy_id_perm.
  rewrite (list_filter_iff _ (λ c, (5 ≤ occ (suit c) (suit <$> cards'))%nat)).
  - by rewrite Hp.
  - intros c. by rewrite (occ_perm _ _ (suit <$> cards')) by by rewrite Hp.
Qed.

Lemma checkFlush_spec cards :
  ∃ flushCards,
    checkFlush (sortDescBy getCardValue cards)
    = (bool_decide (is_Some (flushTop cards)), flushCards)
    ∧ flushCards !! 0%nat = flushTop cards.
Proof.
  unfold checkFlush. rewrite flushSuit_first.
  set (sorted := sortDescBy getCardValue cards).
  set (Q := λ c : Card, (5 ≤ occ (suit c) (suit <$> cards))%nat).
  assert (flushTop cards = getCardValue <$> head (filter Q sorted)) as Htop.
  { unfold flushTop, sorted. fold Q.
    by rewrite <- sortDescBy_fmap, <- sortDescBy_filter, head_fmap_comm. }
  rewrite filter_fmap_comm, head_fmap_comm.
  rewrite (list_filter_iff _ Q).
  2:{ intros c. unfold Q, sorted.
      by rewrite (occ_perm _ (suit <$> sortDescBy getCardValue cards)
                    (suit <$> cards)) by by rewrite sortDescBy_perm. }
  rewrite Htop.
  destruct (head (filter Q sorted)) as [c0|] eqn:Hhd; simpl.
  - eexists; split; [done|].
    rewrite <- head_lookup, head_fmap_comm.
    by rewrite (head_filter_own_suit (λ s, (5 ≤ occ s (suit <$> cards))%nat)
                 sorted c0 Hhd).
  - by eexists.
Qed.

Lemma flushTop_Some cards top :
  flushTop cards = Some top →
  2 ≤ top ≤ 14 ∧ (5 ≤ length cards)%nat.
Proof.
  unfold flushTop. intros Hhd.
  apply head_Some_elem_of in Hhd. rewrite sortDescBy_perm in Hhd.
  apply list_elem_of_fmap in Hhd as (c0 & -> & Hc).
  apply list_elem_of_filter in Hc as [Hocc _].
  split; [apply getCardValue_bounds|].
  etrans; [done|]. etrans; [apply occ_le_length|]. by rewrite length_fmap.
Qed.

(** ** Facts about the detection chain *)

Section Detect.
Variable values : list Z.
Let counts := tallyValues values.

Lemma fullHouseStep_inv seen acc v :
  v ∉ seen → fullHouseInv values seen acc →
  fullHouseInv values (seen ++ [v]) (fullHouseStep counts acc v).
Proof.
  destruct acc as [three two]. unfold fullHouseInv, fullHouseStep, counts.
  rewrite countOf_tallyValues.
  intros Hv (H3 & H2 & Hne & Hn3 & Hn2).
  repeat case_decide; setoid_rewrite elem_of_app;
    setoid_rewrite list_elem_of_singleton;
    destruct_and?; subst; split_and!; intros; subst; naive_solver lia.
Qed.

Lemma fullHouseScan_foldl_inv seen l acc :
  NoDup (seen ++ l) → fullHouseInv values seen acc →
  fullHouseInv values (seen ++ l) (foldl (fullHouseStep counts) acc l).
Proof.
  revert seen acc. induction l as [|v l IH]; intros seen acc Hnd Hinv; simpl.
  - by rewrite app_nil_r.
  - change (v :: l) with ([v] ++ l) in Hnd |- *.
    rewrite (assoc_L (++) seen [v] l) in Hnd |- *.
    apply IH; [done|]. apply fullHouseStep_inv; [|done].
    apply NoDup_app in Hnd as [Hnd _]. apply NoDup_app in Hnd as (_ & Hnd & _).
    intros Hin. apply (Hnd _ Hin). by left.
Qed.

Lemma fullHouseScan_inv :
  fullHouseInv values (sortDescBy id (objectKeys counts))
    (fullHouseScan counts (sortDescBy id (objectKeys counts))).
Proof.
  apply (fullHouseScan_foldl_inv []); [apply NoDup_distinctValues|].
  unfold fullHouseInv. split_and!; try by left.
  - done.
  - intros _ v Hv. inversion Hv.
  - intros _ v Hv. inversion Hv.
Qed.
End Detect.

Lemma detectHands_shape values isFlush flushCards flush sh :
  values ≠ [] → (∀ v, v ∈ values → 2 ≤ v ≤ 14) →
  isFlush = bool_decide (is_Some flush) → flushCards !! 0%nat = flush →
  ∃ r, detectHands values isFlush flushCards sh = Some r
       ∧ HandShape values flush sh r.
Proof.
  intros Hne Hbnd -> Hfc. unfold detectHands.
  set (counts := tallyValues values).
  set (dv := sortDescBy id (objectKeys counts)).
  assert (∀ v, v ∈ dv ↔ v ∈ values) as Hdv
    by (intros; apply elem_of_distinctValues).
  assert (∀ v, countOf counts v = occ v values) as Hco
    by (intros; apply countOf_tallyValues).
  destruct (list_find _ dv) as [[i v]|] eqn:Hquad.
  { apply list_find_Some in Hquad as (Hi & Hc & _).
    eexists; split; [done|]. constructor.
    - by eapply Hdv, list_elem_of_lookup_2.
    - by rewrite <- Hco. }
  apply list_find_None in Hquad. rewrite Forall_forall in Hquad.
  pose proof (fullHouseScan_inv values) as Hinv. fold counts dv in Hinv.
  destruct (fullHouseScan counts dv) as [three two].
  destruct Hinv as (H3 & H2 & Hdiff & Hn3 & Hn2).
  destruct (decide (three ≠ 0 ∧ two ≠ 0)) as [[Ht Hw]|Hnf].
  { eexists; split; [done|].
    destruct H3 as [?|[? ?]]; [done|]. destruct H2 as [?|[? ?]]; [done|].
    constructor; try done; by apply Hdv || auto. }
  destruct flush as [top|]; simpl.
  { rewrite Hfc. simpl. eexists; split; [done|]. by constructor. }
  destruct (decide (sh ≠ 0)) as [Hsh|Hsh].
  { eexists; split; [done|]. by constructor. }
  apply dec_stable in Hsh.
  destruct (decide (three ≠ 0)) as [Ht|Ht].
  { eexists; split; [done|]. destruct H3 as [?|[? ?]]; [done|].
    constructor; try done. by apply Hdv. }
  apply dec_stable in Ht.
  set (pairs := filter (λ v, countOf counts v = 2%nat) dv).
  assert (NoDup pairs) as Hnd by apply NoDup_filter, NoDup_distinctValues.
  assert (∀ q, q ∈ pairs ↔ q ∈ values ∧ occ q values = 2%nat) as Hpairs.
  { intros q. unfold pairs. rewrite list_elem_of_filter, Hco, Hdv. tauto. }
  destruct pairs as [|p0 [|p1 rest]] eqn:Hp; simpl.
  - destruct values as [|v0 vs] eqn:Hv; [done|]. simpl.
    eexists; split; [done|]. constructor; try done.
    intros v Hin.
    assert (occ v (v0 :: vs) ≠ 4%nat).
    { rewrite <- Hco. apply Hquad. by apply Hdv. }
    assert (occ v (v0 :: vs) ≠ 3%nat).
    { apply Hn3; [done|by apply Hdv|]. specialize (Hbnd _ Hin). lia. }
    assert (occ v (v0 :: vs) ≠ 2%nat).
    { intros Ho. assert (v ∈ []) as Hn by (by apply Hpairs). inversion Hn. }
    apply occ_pos in Hin. lia.
  - eexists; split; [done|].
    assert (p0 ∈ [p0]) as [? ?]%Hpairs by left.
    constructor; try done.
    intros q Hq. assert (q ∈ [p0]) as Hin.
    { apply Hpairs. split; [|done]. apply occ_pos. lia. }
    by apply list_elem_of_singleton in Hin.
  - idtac.
    eexists; split; [done|].
    assert (p0 ∈ p0 :: p1 :: rest) as [? ?]%Hpairs by left.
    assert (p1 ∈ p0 :: p1 :: rest) as [? ?]%Hpairs by (right; left).
    constructor; try done.
    apply NoDup_cons in Hnd as [Hnd _]. intros ->. apply Hnd. left.
Qed.

(** ** [evaluateHand] as a function of the sorted values and the flush top *)

Lemma detectHands_flush_ext values isFlush flushCards flushCards' sh :
  flushCards !! 0%nat = flushCards' !! 0%nat →
  detectHands values isFlush flushCards sh
  = detectHands values isFlush flushCards' sh.
Proof. intros Heq. unfold detectHands. by rewrite Heq. Qed.

Lemma evaluateHand_canonical holeCards communityCards :
  evaluateHand holeCards communityCards
  = let allCards := holeCards ++ communityCards in
    if decide (length allCards = 0%nat) then Some (mkEval 0 "Waiting") else
    let values := sortDescBy id (getCardValue <$> allCards) in
    straightHigh ← checkStraight values;
    detectHands values (bool_decide (is_Some (flushTop allCards)))
      (option_list (flushTop allCards)) straightHigh.
Proof.
  unfold evaluateHand. cbv zeta. case_decide; [done|].
  destruct (checkFlush_spec (holeCards ++ communityCards))
    as (flushCards & -> & Hfc).
  rewrite sortDescBy_fmap.
  destruct (checkStraight _) as [sh|]; [simpl|done].
  apply detectHands_flush_ext. rewrite Hfc.
  by destruct (flushTop _).
Qed.

Lemma sorted_values_bounds (cards : list Card) v :
  v ∈ sortDescBy id (getCardValue <$> cards) → 2 ≤ v ≤ 14.
Proof.
  rewrite sortDescBy_perm. intros (card & -> & _)%list_elem_of_fmap.
  apply getCardValue_bounds.
Qed.

(** The evaluator returns on every non-empty input, and its result has the
    shape established by the detection chain. *)
Lemma evaluateHand_shape holeCards communityCards :
  holeCards ++ communityCards ≠ [] →
  let allCards := holeCards ++ communityCards in
  let values := sortDescBy id (getCardValue <$> allCards) in
  ∃ sh r,
    checkStraight values = Some sh
    ∧ evaluateHand holeCards communityCards = Some r
    ∧ HandShape values (flushTop allCards) sh r.
Proof.
  intros Hne allCards values. rewrite evaluateHand_canonical. cbv zeta.
  fold allCards values.
  assert (length allCards ≠ 0%nat) as Hlen.
  { intros Hl. apply Hne. by apply nil_length_inv. }
  rewrite decide_False by done.
  destruct (checkStraight_total values) as (sh & Hsh & _).
  rewrite Hsh. simpl.
  destruct (detectHands_shape values
              (bool_decide (is_Some (flushTop allCards)))
              (option_list (flushTop allCards)) (flushTop allCards) sh)
    as (r & Hr & Hshape).
  - unfold values. intros Hnil.
    apply (f_equal length) in Hnil.
    by rewrite sortDescBy_length, length_fmap in Hnil.
  - apply sorted_values_bounds.
  - done.
  - by destruct (flushTop allCards).
  - eauto.
Qed.

Lemma evaluateHand_empty holeCards communityCards :
  holeCards ++ communityCards = [] →
  evaluateHand holeCards communityCards = Some (mkEval 0 "Waiting").
Proof. intros Hnil. unfold evaluateHand. by rewrite Hnil. Qed.

Lemma evaluateHand_band holeCards communityCards :
  ∃ r, evaluateHand holeCards communityCards = Some r ∧ inBand r.
Proof.
  destruct (decide (holeCards ++ communityCards = [])) as [Hnil|Hne].
  { eexists; split; [by apply evaluateHand_empty|]. by left. }
  destruct (evaluateHand_shape _ _ Hne) as (sh & r & Hsh & Hr & Hshape).
  exists r; split; [done|].
  pose proof (sorted_values_bounds (holeCards ++ communityCards)) as Hb.
  destruct (checkStraight_total
              (sortDescBy id (getCardValue <$> holeCards ++ communityCards)))
    as (sh' & Hsh' & Hshb).
  rewrite Hsh in Hsh'. injection Hsh' as <-.
  unfold inBand.
  destruct Hshape as [v Hv _|three two H3 H2 _ _ _|top Htop| Hnz _
                     |three H3 _ _ _|p0 p1 H0 H1 _ _ _ _ _|p Hp _ _ _ _
                     |v0 Hv0 _ _ _]; simpl.
  - apply Hb in Hv. right; left. split; [done|lia].
  - apply Hb in H3, H2. do 2 right; left. split; [done|lia].
  - apply flushTop_Some in Htop as [? _]. do 3 right; left. split; [done|lia].
  - do 4 right; left. split; [done|].
    destruct Hshb as [?|[[Hin| ->] _]]; [done| |lia]. apply Hb in Hin. lia.
  - apply Hb in H3. do 5 right; left. split; [done|lia].
  - apply Hb in H0, H1. do 6 right; left. split; [done|lia].
  - apply Hb in Hp. do 7 right; left. split; [done|lia].
  - apply list_elem_of_lookup_2, Hb in Hv0. do 8 right. split; [done|lia].
Qed.

(** ** Properties of the evaluator *)

(** C10: [evaluateHand] is total.  With no card at all it returns score 0
    and the description "Waiting"; on every pair of input lists, of any
    length, it returns a result, that is, no array read of the evaluation
    falls outside its array. *)
Theorem evaluateHand_total :
  evaluateHand [] [] = Some (mkEval 0 "Waiting")
  ∧ ∀ holeCards communityCards,
      ∃ r, evaluateHand holeCards communityCards = Some r.
Proof.
  split; [done|]. intros holeCards communityCards.
  destruct (evaluateHand_band holeCards communityCards) as (r & Hr & _).
  by exists r.
Qed.

(** C4: strict class ordering.  For any two inputs, both evaluations return,
    and a Four of a Kind scores above a Full House, a Full House above a
    Flush, a Flush above a Straight, a Straight above a Three of a Kind, a
    Three of a Kind above a Two Pair, a Two Pair above a Pair, and a Pair
    above a High Card. *)
Theorem evaluateHand_class_ordering h1 c1 h2 c2 :
  ∃ r1 r2,
    evaluateHand h1 c1 = Some r1 ∧ evaluateHand h2 c2 = Some r2
    ∧ (description r1 = "Four of a Kind" → description r2 = "Full House" →
       score r2 < score r1)
    ∧ (description r1 = "Full House" → description r2 = "Flush" →
       score r2 < score r1)
    ∧ (description r1 = "Flush" → description r2 = "Straight" →
       score r2 < score r1)
    ∧ (description r1 = "Straight" → description r2 = "Three of a Kind" →
       score r2 < score r1)
    ∧ (description r1 = "Three of a Kind" → description r2 = "Two Pair" →
       score r2 < score r1)
    ∧ (description r1 = "Two Pair" → description r2 = "Pair" →
       score r2 < score r1)
    ∧ (description r1 = "Pair" → description r2 = "High Card" →
       score r2 < score r1).
Proof.
  destruct (evaluateHand_band h1 c1) as (r1 & Hr1 & Hb1).
  destruct (evaluateHand_band h2 c2) as (r2 & Hr2 & Hb2).
  exists r1, r2. split; [done|]. split; [done|].
  unfold inBand in Hb1, Hb2.
  destruct Hb1 as [[D1 S1]|[[D1 S1]|[[D1 S1]|[[D1 S1]|[[D1 S1]|[[D1 S1]|
                  [[D1 S1]|[[D1 S1]|[D1 S1]]]]]]]]];
    rewrite D1; split_and!; intros E1 E2; try discriminate E1;
    destruct Hb2 as [[D2 S2]|[[D2 S2]|[[D2 S2]|[[D2 S2]|[[D2 S2]|[[D2 S2]|
                    [[D2 S2]|[[D2 S2]|[D2 S2]]]]]]]]];
    rewrite D2 in E2; try discriminate E2; lia.
Qed.

Lemma evaluateHand_class_ordering_witness :
  ∃ r1 r2,
    evaluateHand [card FIVE HEARTS; card FIVE CLUBS]
      [card FIVE SPADES; card FIVE DIAMONDS; card KING CLUBS] = Some r1
    ∧ evaluateHand [card KING HEARTS; card KING CLUBS]
        [card FIVE HEARTS; card FIVE CLUBS; card FIVE SPADES;
         card TWO SPADES; card THREE CLUBS] = Some r2
    ∧ score r2 < score r1.
Proof.
  destruct (evaluateHand_class_ordering
              [card FIVE HEARTS; card FIVE CLUBS]
              [card FIVE SPADES; card FIVE DIAMONDS; card KING CLUBS]
              [card KING HEARTS; card KING CLUBS]
              [card FIVE HEARTS; card FIVE CLUBS; card FIVE SPADES;
               card TWO SPADES; card THREE CLUBS])
    as (r1 & r2 & H1 & H2 & Hq & _).
  exists r1, r2. split; [exact H1|]. split; [exact H2|].
  apply Hq.
  - vm_compute in H1. injection H1 as <-. reflexivity.
  - vm_compute in H2. injection H2 as <-. reflexivity.
Defined.

Lemma evaluateHand_perm h c h' c' :
  h ++ c ≡ₚ h' ++ c' → evaluateHand h c = evaluateHand h' c'.
Proof.
  intros Hp. rewrite !evaluateHand_canonical. cbv zeta.
  rewrite (Permutation_length Hp), (flushTop_perm _ _ Hp).
  by rewrite (sortDescBy_id_perm (getCardValue <$> h ++ c)
                (getCardValue <$> h' ++ c')) by by rewrite Hp.
Qed.

(** C5: order independence.  Permuting the hole cards and the community
    cards changes neither the score nor the description: both orders
    evaluate to the same result. *)
Theorem evaluateHand_order_independent holeCards holeCards'
    communityCards communityCards' :
  holeCards ≡ₚ holeCards' → communityCards ≡ₚ communityCards' →
  ∃ r, evaluateHand holeCards communityCards = Some r
       ∧ evaluateHand holeCards' communityCards' = Some r.
Proof.
  intros Hh Hc.
  destruct (evaluateHand_band holeCards communityCards) as (r & Hr & _).
  exists r. split; [done|]. rewrite <- Hr. symmetry.
  apply evaluateHand_perm. by rewrite Hh, Hc.
Qed.

Lemma evaluateHand_order_independent_witness :
  ∃ r, evaluateHand [card TWO HEARTS; card THREE HEARTS]
         [card FIVE HEARTS; card NINE HEARTS; card KING HEARTS;
          card ACE SPADES; card FOUR CLUBS] = Some r
       ∧ evaluateHand [card THREE HEARTS; card TWO HEARTS]
           [card NINE HEARTS; card FIVE HEARTS; card KING HEARTS;
            card ACE SPADES; card FOUR CLUBS] = Some r.
Proof.
  apply evaluateHand_order_independent; apply Permutation_swap.
Defined.

Lemma NoDup_occ_le {A} `{EqDecision A} (l : list A) x :
  NoDup l → (occ x l ≤ 1)%nat.
Proof.
  induction 1 as [|y l Hy _ IH]; [unfold occ; simpl; lia|].
  rewrite occ_cons. destruct (decide (y = x)) as [->|]; [|done].
  assert (occ x l = 0%nat) as ->; [|done].
  destruct (occ x l) eqn:E; [done|]. exfalso. apply Hy, occ_pos. lia.
Qed.

Lemma occ_one_NoDup {A} `{EqDecision A} (l : list A) :
  (∀ x, x ∈ l → occ x l = 1%nat) → NoDup l.
Proof.
  induction l as [|y l IH]; intros Hocc; constructor.
  - intros Hy. specialize (Hocc y (list_elem_of_here _ _)).
    rewrite occ_cons, decide_True in Hocc by done.
    apply occ_pos in Hy. lia.
  - apply IH. intros x Hx.
    pose proof (Hocc x (list_elem_of_further _ _ _ Hx)) as Ho.
    rewrite occ_cons in Ho. apply occ_pos in Hx.
    destruct (decide (y = x)); lia.
Qed.

#[global] Instance RANK_VALUE_inj : Inj (=) (=) RANK_VALUE.
Proof. intros [] []; simpl; intros; done || lia. Qed.

Lemma NoDup_ranks_values (cards : list Card) :
  NoDup (rank <$> cards)
  ↔ NoDup (sortDescBy id (getCardValue <$> cards)).
Proof.
  rewrite sortDescBy_perm.
  change (getCardValue <$> cards) with ((RANK_VALUE ∘ rank) <$> cards).
  rewrite list_fmap_compose. symmetry. apply (NoDup_fmap RANK_VALUE).
Qed.

(** C8, as stated, fails: a pocket pair before the flop is two cards and is
    classified "Pair". *)
Lemma evaluateHand_short_not_high_card :
  ¬ (∀ holeCards communityCards r,
       (length (holeCards ++ communityCards) < 5)%nat →
       evaluateHand holeCards communityCards = Some r →
       description r = "High Card").
Proof.
  intros Hclaim.
  specialize (Hclaim [card ACE SPADES; card ACE HEARTS] []
                (mkEval 1014 "Pair")).
  simpl in Hclaim. discriminate Hclaim; [lia|reflexivity].
Qed.

(** C8, amended: with one to four cards in total the evaluation returns a
    category decided by rank multiplicities alone.  It is never Full House,
    Flush or Straight; it is High Card exactly when all ranks are distinct,
    and then the score is the highest rank value held. *)
Theorem evaluateHand_short holeCards communityCards :
  (1 ≤ length (holeCards ++ communityCards) < 5)%nat →
  ∃ r, evaluateHand holeCards communityCards = Some r
       ∧ description r ∈ ["High Card"; "Pair"; "Two Pair"; "Three of a Kind";
                           "Four of a Kind"]
       ∧ (description r = "High Card"
          ↔ NoDup (rank <$> holeCards ++ communityCards))
       ∧ (description r = "High Card" →
          score r ∈ getCardValue <$> holeCards ++ communityCards
          ∧ ∀ card, card ∈ holeCards ++ communityCards →
                    getCardValue card ≤ score r).
Proof.
  intros Hlen.
  assert (holeCards ++ communityCards ≠ []) as Hne.
  { intros Hnil. rewrite Hnil in Hlen. simpl in Hlen. lia. }
  destruct (evaluateHand_shape _ _ Hne) as (sh & r & Hsh & Hr & Hshape).
  cbv zeta in *. exists r. split; [done|].
  rewrite NoDup_ranks_values.
  set (cards := holeCards ++ communityCards) in *.
  set (values := sortDescBy id (getCardValue <$> cards)) in *.
  assert (length values = length cards) as Hlv
    by (unfold values; by rewrite sortDescBy_length, length_fmap).
  destruct (checkStraight_total values) as (sh' & Hsh' & Hshb).
  rewrite Hsh in Hsh'. injection Hsh' as <-.
  pose proof (setFromArray_length values) as Hu.
  destruct Hshape as [v Hv Ho|three two _ _ Hd H3 H2|top Htop|Hnz _
                     |three _ H3 _ _|p0 p1 _ _ _ H0 _ _ _|p _ Hp _ _ _
                     |v0 Hv0 Hall _ _]; simpl.
  - split; [set_solver|]. split; [|done]. split; [done|].
    intros Hnd. pose proof (NoDup_occ_le values v Hnd). lia.
  - pose proof (occ_two_le_length three two values Hd). lia.
  - apply flushTop_Some in Htop. fold cards in Htop. lia.
  - destruct Hshb as [?|[_ ?]]; [done|lia].
  - split; [set_solver|]. split; [|done]. split; [done|].
    intros Hnd. pose proof (NoDup_occ_le values three Hnd). lia.
  - split; [set_solver|]. split; [|done]. split; [done|].
    intros Hnd. pose proof (NoDup_occ_le values p0 Hnd). lia.
  - split; [set_solver|]. split; [|done]. split; [done|].
    intros Hnd. pose proof (NoDup_occ_le values p Hnd). lia.
  - split; [set_solver|]. split.
    + split; [|done]. intros _. apply occ_one_NoDup. intros x Hx.
      destruct (Hall x Hx) as [?|?]; [done|].
      pose proof (occ_le_length x values). lia.
    + intros _. split.
      * apply list_elem_of_lookup_2 in Hv0. unfold values in Hv0.
        by rewrite sortDescBy_perm in Hv0.
      * intros card Hc.
        assert (getCardValue card ∈ values) as Hin.
        { unfold values. rewrite sortDescBy_perm.
          apply list_elem_of_fmap. eauto. }
        pose proof (sortDescBy_desc id (getCardValue <$> cards)) as Hdesc.
        fold values in Hdesc.
        destruct values as [|w ws]; [done|]. injection Hv0 as ->.
        apply elem_of_cons in Hin as [->|Hin]; [lia|].
        apply StronglySorted_inv in Hdesc as [_ Hdesc].
        rewrite Forall_forall in Hdesc. apply (Hdesc _ Hin).
Qed.

Lemma evaluateHand_short_witness :
  ∃ r, evaluateHand [card ACE SPADES; card KING HEARTS] [] = Some r
       ∧ description r = "High Card" ∧ score r = 14.
Proof.
  destruct (evaluateHand_short [card ACE SPADES; card KING HEARTS] [])
    as (r & Hr & _ & [_ Hhigh] & _); [simpl; lia|].
  exists r. split; [exact Hr|].
  assert (description r = "High Card") as Hd.
  { apply Hhigh. vm_compute. repeat constructor; set_solver. }
  split; [exact Hd|].
  vm_compute in Hr. injection Hr as <-. reflexivity.
Defined.

(** ** The evaluator against standard poker *)

Example standardBest_full_house :
  standardBest [card ACE SPADES; card TWO HEARTS; card ACE DIAMONDS;
                card ACE CLUBS; card KING DIAMONDS; card TWO SPADES;
                card SEVEN HEARTS] = [6; 14; 2].
Proof. vm_compute. reflexivity. Qed.

Example standardBest_straight_flush :
  standardBest [card NINE HEARTS; card EIGHT HEARTS; card SEVEN HEARTS;
                card SIX HEARTS; card FIVE HEARTS; card ACE CLUBS;
                card ACE DIAMONDS] = [8; 9].
Proof. vm_compute. reflexivity. Qed.

Example standardBest_pair_kickers :
  standardBest [card ACE SPADES; card KING SPADES; card ACE DIAMONDS;
                card NINE CLUBS; card SEVEN HEARTS; card FOUR SPADES;
                card TWO DIAMONDS] = [1; 14; 13; 9; 7].
Proof. vm_compute. reflexivity. Qed.

Example standardBest_wheel :
  standardBest [card ACE SPADES; card TWO SPADES; card THREE DIAMONDS;
                card FOUR CLUBS; card FIVE HEARTS; card KING SPADES;
                card KING DIAMONDS] = [4; 5].
Proof. vm_compute. reflexivity. Qed.

(** Kings full of aces is scored above aces full of deuces on the same
    board, although the latter is the stronger full house: the full-house
    term [three * 10 + two] lets the pair rank outweigh the trip rank. *)
Example evaluateHand_full_house_inversion :
  let board := [card ACE DIAMONDS; card ACE CLUBS; card KING DIAMONDS;
                card TWO SPADES; card SEVEN HEARTS] in
  evaluateHand [card KING SPADES; card KING HEARTS] board
  = Some (mkEval 6144 "Full House")
  ∧ evaluateHand [card ACE SPADES; card TWO HEARTS] board
    = Some (mkEval 6142 "Full House")
  ∧ standardStronger ([card ACE SPADES; card TWO HEARTS] ++ board)
                     ([card KING SPADES; card KING HEARTS] ++ board).
Proof. vm_compute. done. Qed.

(** A run of six ranks is scored by its second-highest rank: the scan keeps
    overwriting [straightHigh] while the run goes on. *)
Example evaluateHand_long_straight :
  evaluateHand [card NINE HEARTS; card EIGHT CLUBS]
    [card SEVEN HEARTS; card SIX CLUBS; card FIVE SPADES; card FOUR SPADES;
     card KING CLUBS]
  = Some (mkEval 4008 "Straight").
Proof. vm_compute. done. Qed.

(** C1, as stated, fails: ace-king and ace-queen on an ace-high board both
    score 1014 (a pair of aces), while under standard rules the king kicker
    wins, so equal scores are not always true ties. *)
Lemma evaluateHand_not_standard_order :
  ¬ (∀ h1 c1 h2 c2 r1 r2,
       evaluateHand h1 c1 = Some r1 → evaluateHand h2 c2 = Some r2 →
       (standardStronger (h1 ++ c1) (h2 ++ c2) → score r2 < score r1)
       ∧ (score r1 = score r2 ↔ standardTie (h1 ++ c1) (h2 ++ c2))).
Proof.
  intros Hclaim.
  pose (board := [card ACE DIAMONDS; card NINE CLUBS; card SEVEN HEARTS;
                  card FOUR SPADES; card TWO DIAMONDS]).
  destruct (Hclaim [card ACE SPADES; card KING SPADES] board
              [card ACE HEARTS; card QUEEN HEARTS] board
              (mkEval 1014 "Pair") (mkEval 1014 "Pair"))
    as [Hstrict _]; [by vm_compute..|].
  assert (1014 < 1014); [|lia]. apply Hstrict. by vm_compute.
Qed.

Lemma classRank_band r :
  inBand r → 1000 * classRank (description r) ≤ score r
             < 1000 * classRank (description r) + 1000.
Proof.
  unfold inBand.
  intros [[D S]|[[D S]|[[D S]|[[D S]|[[D S]|[[D S]|[[D S]|[[D S]|[D S]]]]]]]]];
    rewrite D; vm_compute classRank; lia.
Qed.

Lemma occ_sorted_values (cards : list Card) v :
  occ v (sortDescBy id (getCardValue <$> cards))
  = occ v (getCardValue <$> cards).
Proof. apply occ_perm, sortDescBy_perm. Qed.

Lemma evaluateHand_primaryRank holeCards communityCards r :
  evaluateHand holeCards communityCards = Some r →
  primaryRank (holeCards ++ communityCards) r.
Proof.
  intros Hr.
  destruct (decide (holeCards ++ communityCards = [])) as [Hnil|Hne].
  { rewrite (evaluateHand_empty _ _ Hnil) in Hr. injection Hr as <-.
    unfold primaryRank. simpl. split_and!; discriminate. }
  destruct (evaluateHand_shape _ _ Hne) as (sh & r' & _ & Hr' & Hshape).
  rewrite Hr in Hr'. injection Hr' as <-. cbv zeta in Hshape.
  set (cards := holeCards ++ communityCards) in *.
  pose proof (occ_sorted_values cards) as Hocc.
  pose proof (sortDescBy_desc id (getCardValue <$> cards)) as Hdesc.
  pose proof (sortDescBy_perm id (getCardValue <$> cards)) as Hperm.
  unfold primaryRank.
  destruct Hshape as [v _ Ho|? ? _ _ _ _ _|?|? _|v _ Ho _ _|? ? _ _ _ _ _ _ _
                     |v _ Ho Hu _ _|v0 Hv0 _ _ _]; simpl;
    split_and!; try discriminate; intros _.
  - exists v. by rewrite <- Hocc.
  - exists v. by rewrite <- Hocc.
  - exists v. rewrite <- Hocc. split_and!; [done..|].
    intros q Hq. apply Hu. by rewrite Hocc.
  - split.
    + rewrite <- Hperm. by eapply list_elem_of_lookup_2.
    + intros v Hv. rewrite <- Hperm in Hv.
      destruct (sortDescBy id (getCardValue <$> cards)) as [|w ws]; [done|].
      injection Hv0 as ->.
      apply elem_of_cons in Hv as [->|Hv]; [lia|].
      apply StronglySorted_inv in Hdesc as [_ Hdesc].
      rewrite Forall_forall in Hdesc. apply (Hdesc _ Hv).
Qed.

(** ** Starting-hand grading *)

(** C9: on every two-card input the returned score is the heuristic score
    rounded up to the nearest integer (the least integer not below it), the
    grade follows the thresholds 20 / 15 / 10 / 7 / 5, and the tip is the
    fixed advisory line of the grade; pocket aces grade S and seven-deuce
    offsuit grades F. *)
Theorem gradeStartingHand_spec :
  (∀ h0 h1,
     let g := gradeStartingHand [h0; h1] in
     let raw := chenScore (highLow h0 h1).1 (highLow h0 h1).2 in
     (raw <= inject_Z (HandGrade.score g))%Q
     ∧ (inject_Z (HandGrade.score g - 1) < raw)%Q
     ∧ HandGrade.grade g = gradeForScore (HandGrade.score g)
     ∧ HandGrade.tip g = adviceForGrade (HandGrade.grade g))
  ∧ HandGrade.grade (gradeStartingHand [card ACE SPADES; card ACE HEARTS])
    = "S"
  ∧ HandGrade.grade (gradeStartingHand [card SEVEN CLUBS; card TWO HEARTS])
    = "F".
Proof.
  split; [|by vm_compute].
  intros h0 h1 g raw.
  assert (HandGrade.score g = Qceiling raw) as Hs.
  { unfold g, raw, gradeStartingHand, highLow.
    destruct (decide (getCardValue h1 ≤ getCardValue h0)); simpl;
      by repeat case_decide. }
  split_and!.
  - rewrite Hs. apply Qle_ceiling.
  - rewrite Hs. apply Qceiling_lt.
  - unfold g, gradeStartingHand, gradeForScore. cbv zeta.
    repeat case_decide; simpl; repeat case_decide; done || lia.
  - unfold g, gradeStartingHand. cbv zeta.
    repeat case_decide; by vm_compute.
Qed.

(** ** Chip accounting *)

Lemma sumChips_insert players i p p' :
  players !! i = Some p →
  sumChips (<[i := p']> players)
  = sumChips players - Player.chips p + Player.chips p'.
Proof.
  revert i. induction players as [|q players IH]; intros [|i] Hi;
    simplify_eq/=; [lia|].
  rewrite (IH _ Hi). lia.
Qed.

Lemma processPlayerAction_found state player amount actionVerb displayTotal
    i p :
  list_find (λ p, Player.id p = Player.id player) (GameState.players state)
  = Some (i, p) →
  ∃ bubble state',
    processPlayerAction state player amount actionVerb displayTotal
    = Some state'
    ∧ GameState.players state'
      = <[i := Player.commit (Z.min amount (Player.chips player)) bubble p]>
          (GameState.players state)
    ∧ GameState.pot state'
      = GameState.pot state + Z.min amount (Player.chips player).
Proof.
  intros Hfind. unfold processPlayerAction. rewrite Hfind. simpl.
  by eexists _, _.
Qed.

(** C7: capping at the stack.  When the seat passed in is the seat of the
    state that carries its id, its stack is not negative and the requested
    amount is not negative, the action returns a state (no error): the
    committed amount is [min amount chips], the seat's chips decrease by it
    and stay non-negative, its [currentBet] and the pot increase by it, and
    the seat is all-in if its chips reach 0. *)
Theorem processPlayerAction_caps state player amount actionVerb displayTotal
    i :
  list_find (λ p, Player.id p = Player.id player) (GameState.players state)
  = Some (i, player) →
  0 ≤ Player.chips player → 0 ≤ amount →
  let committed := Z.min amount (Player.chips player) in
  ∃ state' seat,
    processPlayerAction state player amount actionVerb displayTotal
    = Some state'
    ∧ GameState.players state' !! i = Some seat
    ∧ committed ≤ Player.chips player
    ∧ Player.chips seat = Player.chips player - committed
    ∧ 0 ≤ Player.chips seat
    ∧ Player.currentBet seat = Player.currentBet player + committed
    ∧ GameState.pot state' = GameState.pot state + committed
    ∧ (Player.chips seat = 0 → Player.isAllIn seat = true)
    ∧ (∀ j, j ≠ i →
         GameState.players state' !! j = GameState.players state !! j).
Proof.
  intros Hfind Hchips Hamount committed.
  destruct (processPlayerAction_found _ _ amount actionVerb displayTotal _ _
              Hfind) as (bubble & state' & Hrun & Hplayers & Hpot).
  apply list_find_Some in Hfind as (Hi & _ & _).
  exists state', (Player.commit committed bubble player).
  split_and!; try done.
  - rewrite Hplayers. apply list_lookup_insert_eq.
    by eapply lookup_lt_Some.
  - unfold committed. lia.
  - simpl. unfold committed. lia.
  - simpl. intros Hz. by rewrite decide_True.
  - intros j Hj. rewrite Hplayers. by apply list_lookup_insert_ne.
Qed.

Lemma processPlayerAction_caps_witness :
  ∃ state' seat,
    processPlayerAction
      (tableWith FLOP 40 [] [seatWith "p1" 980 0 [] true false;
                             seatWith "bot_0" 30 0 [] true false] 1 0 0
         (Some 0))
      (seatWith "bot_0" 30 0 [] true false) 100 "Raises to" None
    = Some state'
    ∧ GameState.players state' !! 1%nat = Some seat
    ∧ Player.chips seat = 0 ∧ Player.currentBet seat = 30
    ∧ GameState.pot state' = 70 ∧ Player.isAllIn seat = true.
Proof.
  destruct (processPlayerAction_caps
              (tableWith FLOP 40 [] [seatWith "p1" 980 0 [] true false;
                                     seatWith "bot_0" 30 0 [] true false]
                 1 0 0 (Some 0))
              (seatWith "bot_0" 30 0 [] true false) 100 "Raises to" None
              1%nat)
    as (state' & seat & Hrun & Hseat & _ & Hchips & _ & Hbet & Hpot & Hall
        & _); [reflexivity|simpl; lia|lia|].
  exists state', seat. simpl in *.
  split_and!; try done. by apply Hall.
Defined.

(** ** Showdown *)

Lemma evaluateHand_score_nonneg holeCards communityCards :
  ∃ r, evaluateHand holeCards communityCards = Some r ∧ 0 ≤ score r.
Proof.
  destruct (evaluateHand_band holeCards communityCards) as (r & Hr & Hb).
  exists r. split; [done|]. unfold inBand in Hb.
  repeat (destruct Hb as [[_ ?]|Hb]; [lia|]). destruct Hb. lia.
Qed.

(** The scan returns; its winners are seats of the scanned list, in seat
    order, and there is at least one as soon as one seat was scanned. *)
Lemma showdownScan_winners communityCards rest seen bestScore winners desc :
  winners `sublist_of` seen →
  winners ≠ [] ∨ (bestScore < 0 ∧ rest ≠ []) ∨ (bestScore < 0 ∧ rest = []) →
  ∃ bestScore' winners' desc',
    showdownScan communityCards rest bestScore winners desc
    = Some (bestScore', winners', desc')
    ∧ winners' `sublist_of` seen ++ rest
    ∧ (rest ≠ [] ∨ winners ≠ [] → winners' ≠ []).
Proof.
  revert seen bestScore winners desc.
  induction rest as [|p rest IH]; intros seen bestScore winners desc Hsub Hinv;
    simpl.
  - eexists _, _, _. split; [done|]. rewrite app_nil_r. split; [done|].
    by intros [?|?].
  - destruct (evaluateHand_score_nonneg (Player.hand p) communityCards)
      as (r & -> & Hr). simpl.
    change (p :: rest) with ([p] ++ rest). rewrite (assoc_L (++)).
    destruct (decide (bestScore < score r)).
    { destruct (IH (seen ++ [p]) (score r) [p] (description r))
        as (b' & w' & d' & -> & Hsub' & Hne').
      - by apply sublist_inserts_l.
      - by left.
      - eexists _, _, _. split; [done|]. split; [done|].
        intros _. apply Hne'. by right. }
    destruct (decide (score r = bestScore)).
    { destruct (IH (seen ++ [p]) bestScore (winners ++ [p]) desc)
        as (b' & w' & d' & -> & Hsub' & Hne').
      - by apply sublist_app.
      - left. by destruct winners.
      - eexists _, _, _. split; [done|]. split; [done|].
        intros _. apply Hne'. right. by destruct winners. }
    assert (winners ≠ []) as Hw.
    { destruct Hinv as [?|[[? _]|[? ?]]]; [done|lia|lia]. }
    destruct (IH (seen ++ [p]) bestScore winners desc)
      as (b' & w' & d' & -> & Hsub' & Hne').
    + by apply sublist_inserts_r.
    + by left.
    + eexists _, _, _. split; [done|]. split; [done|].
      intros _. apply Hne'. by right.
Qed.

(** With distinct seat ids, the seats credited are the winners themselves. *)
Lemma sumChips_creditWinners winners players winAmount :
  winners `sublist_of` players → NoDup (Player.id <$> players) →
  sumChips (creditWinners winners winAmount <$> players)
  = sumChips players + Z.of_nat (length winners) * winAmount.
Proof.
  induction 1 as [|x ws ps Hsub IH|x ws ps Hsub IH]; intros Hnd.
  - simpl. lia.
  - rewrite fmap_cons in Hnd. apply NoDup_cons in Hnd as [Hx Hnd].
    assert (creditWinners (x :: ws) winAmount <$> ps
            = creditWinners ws winAmount <$> ps) as Hext.
    { apply Forall_fmap_ext, Forall_forall. intros p Hp.
      unfold creditWinners.
      destruct (decide (Exists _ ws)) as [He|He].
      - rewrite decide_True; [done|]. by right.
      - rewrite decide_False; [done|].
        intros [Hid|?]%Exists_cons; [|done].
        apply Hx. rewrite Hid. by apply list_elem_of_fmap_2. }
    rewrite fmap_cons, Hext. cbn [sumChips foldr]. fold (sumChips ps).
    fold (sumChips (creditWinners ws winAmount <$> ps)).
    rewrite (IH Hnd). unfold creditWinners at 1.
    rewrite decide_True by by left. simpl. lia.
  - rewrite fmap_cons in Hnd. apply NoDup_cons in Hnd as [Hx Hnd].
    rewrite fmap_cons. cbn [sumChips foldr]. fold (sumChips ps).
    fold (sumChips (creditWinners ws winAmount <$> ps)).
    rewrite (IH Hnd). unfold creditWinners at 1.
    rewrite decide_False; [lia|].
    intros (w & Hw & Hid)%Exists_exists. apply Hx. rewrite <- Hid.
    apply list_elem_of_fmap_2. by eapply elem_of_sublist.
Qed.

(** C2, as stated, fails at showdown: three seats tied on the board split a
    pot of 50 into three credits of 16, and two chips leave the table. *)
Lemma handleShowdown_drops_remainder :
  ¬ (∀ now state state',
       handleShowdown now state = Some state' →
       GameState.pot state' = 0
       ∧ sumChips (GameState.players state')
         = sumChips (GameState.players state) + GameState.pot state).
Proof.
  intros Hclaim.
  pose (board := [card ACE SPADES; card KING HEARTS; card QUEEN DIAMONDS;
                  card JACK CLUBS; card TEN SPADES]).
  pose (state :=
    tableWith RIVER 50 board
      [seatWith "p1" 100 0 [card TWO HEARTS; card THREE CLUBS] true false;
       seatWith "bot_0" 100 0 [card FOUR HEARTS; card FIVE CLUBS] true false;
       seatWith "bot_1" 100 0 [card SIX HEARTS; card SEVEN CLUBS] true false]
      0 0 0 (Some 0)).
  destruct (handleShowdown "12:00:00" state) as [state'|] eqn:Hrun;
    [|by vm_compute in Hrun].
  destruct (Hclaim _ _ _ Hrun) as [_ Hsum].
  vm_compute in Hrun. injection Hrun as <-. by vm_compute in Hsum.
Qed.

Lemma handleShowdown_pays now state :
  NoDup (Player.id <$> GameState.players state) →
  (∃ p, p ∈ GameState.players state ∧ Player.isActive p = true) →
  ∃ state',
    handleShowdown now state = Some state'
    ∧ GameState.pot state' = 0
    ∧ GameState.lastPotSize state' = GameState.pot state
    ∧ GameState.winners state' ≠ []
    ∧ GameState.winners state'
        `sublist_of` filter (λ p, Player.isActive p = true)
                       (GameState.players state)
    ∧ GameState.players state'
      = creditWinners (GameState.winners state')
          (GameState.pot state
           / Z.of_nat (length (GameState.winners state')))
        <$> GameState.players state.
Proof.
  intros Hnd (p & Hp & Hact). unfold handleShowdown.
  set (active := filter _ (GameState.players state)).
  assert (p ∈ active) as Hin by by apply list_elem_of_filter.
  assert (active ≠ []) as Hne by (intros Hnil; rewrite Hnil in Hin; inversion Hin).
  rewrite decide_False by (by destruct active).
  destruct (showdownScan_winners (GameState.communityCards state) active []
              (-1) [] "") as (b & w & d & -> & Hsub & Hw).
  - done.
  - right; left. split; [lia|done].
  - simpl. eexists. split; [done|]. simpl. split_and!; try done.
    apply Hw. by left.
Qed.

(** C2, amended: every action on a seat of the state returns and preserves
    the sum of all seats' chips plus the pot, the acting seat's chip
    decrease being the pot increase and every other seat unchanged.  At a
    showdown with distinct seat ids and at least one active seat the pot
    becomes 0 and every winner is credited [pot / n] rounded down, [n]
    being the number of winners, so the credits sum to [pot - pot mod n]:
    the whole pre-payout pot exactly when [n] divides it. *)
Theorem chips_conserved_until_showdown :
  (∀ state player amount actionVerb displayTotal i p,
     list_find (λ p, Player.id p = Player.id player)
       (GameState.players state) = Some (i, p) →
     ∃ state' seat,
       processPlayerAction state player amount actionVerb displayTotal
       = Some state'
       ∧ chipsInPlay state' = chipsInPlay state
       ∧ GameState.players state' !! i = Some seat
       ∧ Player.chips p - Player.chips seat
         = GameState.pot state' - GameState.pot state
       ∧ (∀ j, j ≠ i →
            GameState.players state' !! j = GameState.players state !! j))
  ∧ (∀ now state,
       NoDup (Player.id <$> GameState.players state) →
       (∃ p, p ∈ GameState.players state ∧ Player.isActive p = true) →
       ∃ state',
         handleShowdown now state = Some state'
         ∧ GameState.pot state' = 0
         ∧ let n := Z.of_nat (length (GameState.winners state')) in
           0 < n
           ∧ GameState.players state'
             = creditWinners (GameState.winners state')
                 (GameState.pot state / n) <$> GameState.players state
           ∧ sumChips (GameState.players state')
             = sumChips (GameState.players state)
               + n * (GameState.pot state / n)
           ∧ n * (GameState.pot state / n)
             = GameState.pot state - GameState.pot state `mod` n
           ∧ (GameState.pot state `mod` n = 0 →
              chipsInPlay state' = chipsInPlay state)).
Proof.
  split.
  - intros state player amount actionVerb displayTotal i p Hfind.
    destruct (processPlayerAction_found _ _ amount actionVerb displayTotal
                _ _ Hfind) as (bubble & state' & Hrun & Hplayers & Hpot).
    apply list_find_Some in Hfind as (Hi & _ & _).
    exists state', (Player.commit (Z.min amount (Player.chips player))
                      bubble p).
    split_and!; try done.
    + unfold chipsInPlay. rewrite Hplayers, Hpot.
      rewrite (sumChips_insert _ _ _ _ Hi). simpl. lia.
    + rewrite Hplayers. apply list_lookup_insert_eq.
      by eapply lookup_lt_Some.
    + rewrite Hpot. simpl. lia.
    + intros j Hj. rewrite Hplayers. by apply list_lookup_insert_ne.
  - intros now state Hnd Hact.
    destruct (handleShowdown_pays now state Hnd Hact)
      as (state' & Hrun & Hpot & _ & Hne & Hsub & Hplayers).
    exists state'. split; [done|]. split; [done|]. intros n.
    assert (0 < n) as Hn.
    { unfold n. destruct (GameState.winners state'); [done|]. simpl. lia. }
    assert (sumChips (GameState.players state')
            = sumChips (GameState.players state)
              + n * (GameState.pot state / n)) as Hsum.
    { rewrite Hplayers. apply sumChips_creditWinners; [|done].
      etrans; [done|]. apply sublist_filter. }
    pose proof (Z.div_mod (GameState.pot state) n) as Hdiv.
    split_and!; try done; [lia|].
    intros Hmod. unfold chipsInPlay. rewrite Hsum, Hpot. lia.
Qed.

Lemma chips_conserved_until_showdown_witness :
  (∃ state',
     processPlayerAction
       (tableWith FLOP 40 [] [seatWith "p1" 980 0 [] true false;
                              seatWith "bot_0" 30 0 [] true false] 1 0 0
          (Some 0))
       (seatWith "bot_0" 30 0 [] true false) 100 "Raises to" None
     = Some state'
     ∧ chipsInPlay state' = 1050)
  ∧ (∃ state',
       handleShowdown "12:00:00"
         (tableWith RIVER 50
            [card ACE SPADES; card KING HEARTS; card QUEEN DIAMONDS;
             card JACK CLUBS; card TEN SPADES]
            [seatWith "p1" 100 0 [card TWO HEARTS; card THREE CLUBS]
               true false;
             seatWith "bot_0" 100 0 [card FOUR HEARTS; card FIVE CLUBS]
               true false;
             seatWith "bot_1" 100 0 [card SIX HEARTS; card SEVEN CLUBS]
               true false]
            0 0 0 (Some 0))
       = Some state'
       ∧ GameState.pot state' = 0
       ∧ sumChips (GameState.players state') = 348).
Proof.
  split.
  - destruct (proj1 chips_conserved_until_showdown
                (tableWith FLOP 40 [] [seatWith "p1" 980 0 [] true false;
                                       seatWith "bot_0" 30 0 [] true false]
                   1 0 0 (Some 0))
                (seatWith "bot_0" 30 0 [] true false) 100 "Raises to" None
                1%nat (seatWith "bot_0" 30 0 [] true false))
      as (state' & seat & Hrun & Hsum & _); [reflexivity|].
    exists state'. split; [exact Hrun|]. rewrite Hsum. reflexivity.
  - destruct (proj2 chips_conserved_until_showdown "12:00:00"
                (tableWith RIVER 50
                   [card ACE SPADES; card KING HEARTS; card QUEEN DIAMONDS;
                    card JACK CLUBS; card TEN SPADES]
                   [seatWith "p1" 100 0 [card TWO HEARTS; card THREE CLUBS]
                      true false;
                    seatWith "bot_0" 100 0 [card FOUR HEARTS; card FIVE CLUBS]
                      true false;
                    seatWith "bot_1" 100 0 [card SIX HEARTS; card SEVEN CLUBS]
                      true false]
                   0 0 0 (Some 0)))
      as (state' & Hrun & Hpot & _ & _ & Hsum & _).
    + vm_compute. repeat constructor; set_solver.
    + eexists. split; [by left|reflexivity].
    + exists state'. split; [exact Hrun|]. split; [exact Hpot|].
      rewrite Hsum. vm_compute in Hrun. injection Hrun as <-. reflexivity.
Defined.

(** ** Turn rotation *)

Lemma scanSeats_unfold players remaining idx :
  scanSeats players remaining idx
  = p ← arrayGet players idx;
    if Player.cannotAct p then
      match remaining with
      | O => Some (idx, O)
      | S remaining' =>
          scanSeats players remaining'
            (Z.rem (idx + 1) (Z.of_nat (length players)))
      end
    else Some (idx, remaining).
Proof. by destruct remaining. Qed.

Section Scan.
Variable players : list Player.t.
Let n := Z.of_nat (length players).
Hypothesis players_nonempty : players ≠ [].

Lemma seat_count_pos : 0 < n.
Proof using players_nonempty. unfold n. destruct players; [done|]. simpl. lia. Qed.

Lemma next_seat_mod idx : 0 ≤ idx → Z.rem (idx + 1) n = (idx + 1) `mod` n.
Proof using players_nonempty.
  intros. apply Z.rem_mod_nonneg; [lia|apply seat_count_pos].
Qed.

(** The scan stops at the first seat that can act, [k] seats further on. *)
Lemma scanSeats_found remaining idx k p :
  0 ≤ idx < n →
  (∀ k', (k' < k)%nat →
     ∃ q, arrayGet players ((idx + Z.of_nat k') `mod` n) = Some q
          ∧ Player.cannotAct q = true) →
  arrayGet players ((idx + Z.of_nat k) `mod` n) = Some p →
  Player.cannotAct p = false →
  (k ≤ remaining)%nat →
  scanSeats players remaining idx
  = Some ((idx + Z.of_nat k) `mod` n, (remaining - k)%nat).
Proof using players_nonempty.
  pose proof seat_count_pos as Hn.
  revert remaining idx. induction k as [|k IH];
    intros remaining idx Hidx Hblocked Hp Hact Hle;
    rewrite scanSeats_unfold.
  - rewrite Z.add_0_r, Z.mod_small in Hp |- * by lia.
    rewrite Hp. simpl. rewrite Hact. by rewrite Nat.sub_0_r.
  - destruct (Hblocked 0%nat) as (q & Hq & Hqb); [lia|].
    rewrite Z.add_0_r, Z.mod_small in Hq by lia.
    rewrite Hq. simpl. rewrite Hqb.
    destruct remaining as [|remaining]; [lia|].
    fold n. rewrite next_seat_mod by lia.
    assert (∀ j : nat, ((idx + 1) `mod` n + Z.of_nat j) `mod` n
                       = (idx + Z.of_nat (S j)) `mod` n) as Hshift.
    { intros j. rewrite Zplus_mod_idemp_l. f_equal. lia. }
    rewrite (IH remaining ((idx + 1) `mod` n)).
    + by rewrite Hshift.
    + by apply Z.mod_pos_bound.
    + intros k' Hk'. rewrite Hshift. apply Hblocked. lia.
    + by rewrite Hshift.
    + done.
    + lia.
Qed.

(** With no seat able to act the scan uses up its bound. *)
Lemma scanSeats_blocked remaining idx :
  Forall (λ q, Player.cannotAct q = true) players → 0 ≤ idx < n →
  ∃ idx', scanSeats players remaining idx = Some (idx', O).
Proof using players_nonempty.
  pose proof seat_count_pos as Hn. intros Hall.
  revert idx. induction remaining as [|remaining IH]; intros idx Hidx;
    rewrite scanSeats_unfold; unfold arrayGet;
    rewrite decide_True by lia;
    (destruct (lookup_lt_is_Some_2 players (Z.to_nat idx)) as [q Hq];
      [unfold n in Hidx; lia|]);
    rewrite Hq; simpl;
    rewrite Forall_forall in Hall;
    rewrite (Hall q) by (by eapply list_elem_of_lookup_2).
  - by eexists.
  - fold n. rewrite next_seat_mod by lia. apply IH.
    by apply Z.mod_pos_bound.
Qed.
End Scan.

(** C6, as stated, fails: on the river seat 1 has just folded and the
    action returns to seat 2, the last raiser, whose bet is matched.  A seat
    that can act exists, yet [nextTurn] closes the round and hands over to
    the showdown, whose state still points at the folded seat 1. *)
Lemma nextTurn_may_point_at_folded_seat :
  ¬ (∀ now state state' p,
       (∃ q, q ∈ GameState.players state ∧ Player.cannotAct q = false) →
       nextTurn now state = Some state' →
       arrayGet (GameState.players state')
         (GameState.currentPlayerIndex state') = Some p →
       Player.isActive p = true ∧ Player.isAllIn p = false).
Proof.
  intros Hclaim.
  pose (board := [card ACE DIAMONDS; card NINE CLUBS; card SEVEN HEARTS;
                  card FOUR SPADES; card TWO DIAMONDS]).
  pose (folded :=
    seatWith "bot_0" 960 0 [card THREE HEARTS; card EIGHT CLUBS] false false).
  pose (state :=
    tableWith RIVER 120 board
      [seatWith "p1" 960 0 [card ACE SPADES; card KING SPADES] true false;
       folded;
       seatWith "bot_1" 960 0 [card QUEEN HEARTS; card JACK HEARTS]
         true false]
      1 0 0 (Some 2)).
  destruct (nextTurn "12:00:00" state) as [state'|] eqn:Hrun;
    [|by vm_compute in Hrun].
  destruct (Hclaim "12:00:00" state state' folded) as [Hactive _].
  - eexists. split; [by left|reflexivity].
  - exact Hrun.
  - vm_compute in Hrun. injection Hrun as <-. reflexivity.
  - discriminate Hactive.
Qed.

(** C6, amended: from a valid turn pointer, [nextTurn] looks at the seats
    after [currentPlayerIndex] in order, wrapping, for one lap.  If no seat
    is active and not all-in it returns what street advancement returns.
    Otherwise, for the first such seat: if that seat is the last raiser and
    its bet equals the table bet, the round is closed and [nextTurn] again
    returns what street advancement returns; if not, it returns the state
    with [currentPlayerIndex] set to that seat, which is active and not
    all-in, and every other field unchanged. *)
Theorem nextTurn_selects now state :
  let players := GameState.players state in
  let n := Z.of_nat (length players) in
  let seatAfter (k : nat) :=
    (GameState.currentPlayerIndex state + 1 + Z.of_nat k) `mod` n in
  0 ≤ GameState.currentPlayerIndex state → players ≠ [] →
  (Forall (λ q, Player.cannotAct q = true) players →
   nextTurn now state = nextPhase now state)
  ∧ (∀ k p,
       (k < length players)%nat →
       (∀ k', (k' < k)%nat →
          ∃ q, arrayGet players (seatAfter k') = Some q
               ∧ Player.cannotAct q = true) →
       arrayGet players (seatAfter k) = Some p →
       Player.cannotAct p = false →
       if bool_decide (GameState.lastRaiserIndex state = Some (seatAfter k)
                       ∧ Player.currentBet p = GameState.currentBet state)
       then nextTurn now state = nextPhase now state
       else nextTurn now state
            = Some (GameState.withCurrentPlayerIndex (seatAfter k) state)
            ∧ Player.isActive p = true ∧ Player.isAllIn p = false).
Proof.
  intros players n seatAfter Hcur Hne.
  pose proof (seat_count_pos players Hne) as Hn. fold n in Hn.
  assert (0 ≤ (GameState.currentPlayerIndex state + 1) `mod` n < n) as Hstart
    by by apply Z.mod_pos_bound.
  assert (∀ k, ((GameState.currentPlayerIndex state + 1) `mod` n
                + Z.of_nat k) `mod` n = seatAfter k) as Hseat.
  { intros k. unfold seatAfter. by rewrite Zplus_mod_idemp_l. }
  split.
  - intros Hall. unfold nextTurn. fold players n.
    rewrite (next_seat_mod players Hne) by done. fold n.
    destruct (scanSeats_blocked players Hne (length players) _ Hall Hstart)
      as (idx' & ->).
    done.
  - intros k p Hk Hblocked Hp Hact. unfold nextTurn. fold players n.
    rewrite (next_seat_mod players Hne) by done. fold n.
    rewrite (scanSeats_found players Hne (length players) _ k p);
      try done; try lia.
    + rewrite Hseat. simpl.
      rewrite decide_False by lia. rewrite Hp. simpl.
      assert (Player.isActive p = true ∧ Player.isAllIn p = false) as Hcan.
      { unfold Player.cannotAct in Hact.
        by destruct (Player.isActive p), (Player.isAllIn p). }
      rewrite <- bool_decide_and.
      by case_bool_decide.
    + intros k' Hk'. rewrite Hseat. by apply Hblocked.
    + by rewrite Hseat.
Qed.

Lemma nextTurn_selects_witness :
  nextTurn "12:00:00"
    (tableWith FLOP 60 []
       [seatWith "p1" 980 20 [] true false;
        seatWith "bot_0" 1000 0 [] false false;
        seatWith "bot_1" 980 0 [] true false] 0 0 20 (Some 0))
  = Some (GameState.withCurrentPlayerIndex 2
            (tableWith FLOP 60 []
               [seatWith "p1" 980 20 [] true false;
                seatWith "bot_0" 1000 0 [] false false;
                seatWith "bot_1" 980 0 [] true false] 0 0 20 (Some 0))).
Proof.
  refine (proj1
    (proj2 (nextTurn_selects "12:00:00"
              (tableWith FLOP 60 []
                 [seatWith "p1" 980 20 [] true false;
                  seatWith "bot_0" 1000 0 [] false false;
                  seatWith "bot_1" 980 0 [] true false] 0 0 20 (Some 0))
              _ _)
       1%nat (seatWith "bot_1" 980 0 [] true false) _ _ _ _)).
  - simpl. lia.
  - done.
  - simpl. lia.
  - intros k' Hk'. assert (k' = 0%nat) as -> by lia.
    eexists. split; reflexivity.
  - reflexivity.
  - reflexivity.
Defined.

(** ** Street advancement: the recursion bound *)

Lemma nextPhaseFrom_unfold fuel now state :
  nextPhaseFrom (S fuel) now state
  = let players := GameState.players state in
    let nextPlayers := Player.clearBet <$> players in
    if decide (GameState.phase state = RIVER) then
      handleShowdown now (GameState.withPlayers nextPlayers state)
    else
      '(nextGamePhase, newCommunityCards, newDeck) ←
        dealStreet (GameState.phase state) (GameState.communityCards state)
          (GameState.deck state);
      '(firstActor, _) ←
        scanSeats nextPlayers 10
          (Z.rem (GameState.dealerIndex state + 1)
             (Z.of_nat (length players)));
      let auto :=
        bool_decide
          (length (filter (λ p, Player.isActive p = true
                                ∧ Player.isAllIn p = false) nextPlayers)
           = 0%nat
           ∧ nextGamePhase ≠ SHOWDOWN) in
      let next :=
        GameState.mk nextGamePhase (GameState.pot state) newCommunityCards
          newDeck nextPlayers firstActor (GameState.dealerIndex state)
          BIG_BLIND 0 (Some firstActor)
          (GameState.roundLog state ++ [LogStreet nextGamePhase auto])
          (GameState.deckColor state) (GameState.winners state)
          (GameState.winningHandDesc state) (GameState.lastPotSize state)
          (GameState.handHistory state) (GameState.handCount state) in
      if auto then nextPhaseFrom fuel now next else Some next.
Proof. reflexivity. Qed.

Lemma dealStreet_streetsLeft phase communityCards deck phase' board' deck' :
  streetsLeft phase ≠ 0%nat → phase ≠ RIVER →
  dealStreet phase communityCards deck = Some (phase', board', deck') →
  phase' = SHOWDOWN
  ∨ (S (streetsLeft phase') = streetsLeft phase ∧ streetsLeft phase' ≠ 0%nat).
Proof.
  intros Hleft Hriver Hdeal.
  destruct phase; simpl in *; try done;
    repeat (destruct (arrayPop _) as [[? ?]|]; simpl in *; [|done]);
    injection Hdeal as <- <- <-; simpl; auto.
Qed.

(** From a street phase the depth bound of 4 is never reached: any larger
    bound gives the same result. *)
Lemma nextPhaseFrom_fuel now fuel fuel' state :
  streetsLeft (GameState.phase state) ≠ 0%nat →
  (streetsLeft (GameState.phase state) ≤ fuel)%nat →
  (streetsLeft (GameState.phase state) ≤ fuel')%nat →
  nextPhaseFrom fuel now state = nextPhaseFrom fuel' now state.
Proof.
  revert fuel' state. induction fuel as [|fuel IH];
    intros fuel' state Hleft Hfuel Hfuel'; [lia|].
  destruct fuel' as [|fuel']; [lia|].
  rewrite !nextPhaseFrom_unfold. cbv zeta.
  destruct (decide (GameState.phase state = RIVER)) as [|Hriver]; [done|].
  destruct (dealStreet _ _ _) as [[[phase' board'] deck']|] eqn:Hdeal;
    [|reflexivity].
  cbn [mbind option_bind].
  destruct (scanSeats _ _ _) as [[firstActor ?]|]; [|reflexivity].
  cbn [mbind option_bind].
  destruct (dealStreet_streetsLeft _ _ _ _ _ _ Hleft Hriver Hdeal)
    as [->|[Hnext Hpos]].
  - rewrite bool_decide_eq_false_2; [done|]. by intros [_ ?].
  - case_bool_decide; [|done]. apply IH; cbn [GameState.phase]; lia.
Qed.

Lemma nextPhase_fuel now fuel state :
  streetsLeft (GameState.phase state) ≠ 0%nat → (4 ≤ fuel)%nat →
  nextPhaseFrom fuel now state = nextPhase now state.
Proof.
  intros Hleft Hfuel. apply nextPhaseFrom_fuel; [done| |];
    destruct (GameState.phase state); simpl in *; lia.
Qed.

(** Outside a hand ([MENU], [SHOP], [GAME_OVER]) with no seat able to act,
    the source recurses without end; no bound yields a result. *)
Lemma nextPhaseFrom_no_result now fuel state :
  streetsLeft (GameState.phase state) = 0%nat →
  Forall (λ q, Player.cannotAct q = true) (GameState.players state) →
  nextPhaseFrom fuel now state = None.
Proof.
  revert state. induction fuel as [|fuel IH]; intros state Hleft Hall;
    [done|].
  rewrite nextPhaseFrom_unfold. cbv zeta.
  rewrite decide_False by (intros Hr; by rewrite Hr in Hleft).
  assert (dealStreet (GameState.phase state) (GameState.communityCards state)
            (GameState.deck state)
          = Some (GameState.phase state, GameState.communityCards state,
                  GameState.deck state)) as ->
    by (by destruct (GameState.phase state)).
  cbn [mbind option_bind].
  destruct (scanSeats _ _ _) as [[firstActor ?]|]; [|reflexivity].
  cbn [mbind option_bind].
  assert (Forall (λ q, Player.cannotAct q = true)
            (Player.clearBet <$> GameState.players state)) as Hall'.
  { apply Forall_fmap. by eapply Forall_impl. }
  rewrite bool_decide_eq_true_2.
  - by apply IH.
  - split; [|intros Hs; by rewrite Hs in Hleft].
    apply length_zero_iff_nil.
    induction Hall' as [|q l Hq _ IHl]; [done|].
    rewrite filter_cons, decide_False; [done|].
    intros [Ha Hb]. unfold Player.cannotAct in Hq. by rewrite Ha, Hb in Hq.
Qed.
(** ** Hand setup *)

Example createDeck_size : length createDeck = 52%nat ∧ NoDup createDeck.
Proof. split; [done|]. vm_compute. repeat (constructor; [set_solver|]). constructor. Qed.

(** Three seats at the table all holding chips: the seat after the new
    dealer posts the small blind, the next one the big blind. *)
Example setupNewHand_three_handed :
  ∃ state,
    setupNewHand createDeck
      [seatWith "p1" 1000 0 [] true false;
       seatWith "bot_0" 1000 0 [] true false;
       seatWith "bot_1" 1000 0 [] true false] (-1) 0 [] = Some state
    ∧ GameState.dealerIndex state = 0
    ∧ Player.currentBet <$> GameState.players state = [0; 10; 20]
    ∧ GameState.pot state = 30
    ∧ GameState.currentPlayerIndex state = 0.
Proof. eexists. split; [by vm_compute|]. done. Qed.

(** Two seats at the table: the new dealer posts the small blind, the other
    seat the big blind. *)
Example setupNewHand_heads_up :
  ∃ state,
    setupNewHand createDeck
      [seatWith "p1" 1000 0 [] true false;
       seatWith "bot_0" 1000 0 [] true false] (-1) 0 [] = Some state
    ∧ GameState.dealerIndex state = 0
    ∧ Player.currentBet <$> GameState.players state = [10; 20]
    ∧ GameState.pot state = 30.
Proof. eexists. split; [by vm_compute|]. done. Qed.

(** C3 fails on the code when a busted seat is still at the table: with
    stacks 1000 / 0 / 1000 and the button moving to seat 0, exactly two
    seats hold chips, seat 0 posts the small blind, and the big blind falls
    on the busted seat 1, which posts nothing and is marked all-in and last
    raiser; seat 2, the other seat with chips, posts no blind and the pot
    holds the small blind only. *)
Theorem setupNewHand_big_blind_on_busted_seat :
  ∃ state,
    setupNewHand createDeck
      [seatWith "p1" 1000 0 [] true false;
       seatWith "bot_0" 0 0 [] false false;
       seatWith "bot_1" 1000 0 [] true false] 2 1 [] = Some state
    ∧ GameState.dealerIndex state = 0
    ∧ GameState.lastRaiserIndex state = Some 1
    ∧ Player.currentBet <$> GameState.players state = [10; 0; 0]
    ∧ Player.chips <$> GameState.players state = [990; 0; 1000]
    ∧ Player.isAllIn <$> GameState.players state = [false; true; false]
    ∧ Player.isActive <$> GameState.players state = [true; false; true]
    ∧ GameState.pot state = 10
    ∧ GameState.currentBet state = 20.
Proof. eexists. split; [by vm_compute|]. done. Qed.

(** ** The deck *)

Lemma createDeck_NoDup : NoDup createDeck.
Proof. apply (bool_decide_unpack _). by vm_compute. Qed.

(** X1: [createDeck] holds every card of the 52-card domain exactly once. *)
Theorem createDeck_complete :
  length createDeck = 52%nat ∧ NoDup createDeck ∧ ∀ c : Card, c ∈ createDeck.
Proof.
  split; [done|]. split.
  - apply createDeck_NoDup.
  - intros [r s]. unfold createDeck, SUITS, RANKS.
    destruct s, r; set_solver.
Qed.

Lemma insert_Permutation_delete {A} (l : list A) i x y :
  l !! i = Some x → <[i := y]> l ≡ₚ y :: delete i l.
Proof.
  revert i. induction l as [|a l IH]; intros [|i] Hi; simplify_eq/=; [done|].
  rewrite (IH _ Hi). apply Permutation_swap.
Qed.

Lemma swap_Permutation {A} (l : list A) i j x y :
  l !! i = Some x → l !! j = Some y → <[j := x]> (<[i := y]> l) ≡ₚ l.
Proof.
  revert i j. induction l as [|a l IH]; intros [|i] [|j] Hi Hj;
    simplify_eq/=.
  - done.
  - rewrite (insert_Permutation_delete l j y x Hj).
    rewrite (delete_Permutation l j y Hj) at 2. apply Permutation_swap.
  - rewrite (insert_Permutation_delete l i x y Hi).
    rewrite (delete_Permutation l i x Hi) at 2. apply Permutation_swap.
  - by rewrite (IH i j).
Qed.

Lemma arraySwap_Permutation {A} (l l' : list A) i j :
  arraySwap l i j = Some l' → l' ≡ₚ l.
Proof.
  unfold arraySwap. intros Hswap.
  destruct (l !! i) as [x|] eqn:Hi; [|done].
  destruct (l !! j) as [y|] eqn:Hj; [|done].
  simpl in Hswap. injection Hswap as <-. by apply swap_Permutation.
Qed.

Lemma shuffleFrom_Permutation {A} rand i (l : list A) :
  (i < length l)%nat → (∀ k, rand k ≤ k)%nat →
  ∃ l', shuffleFrom rand i l = Some l' ∧ l' ≡ₚ l.
Proof.
  intros Hi Hrand. revert l Hi. induction i as [|i IH]; intros l Hi; simpl.
  - by exists l.
  - destruct (lookup_lt_is_Some_2 l (S i)) as [x Hx]; [done|].
    destruct (lookup_lt_is_Some_2 l (rand (S i))) as [y Hy].
    { specialize (Hrand (S i)). lia. }
    assert (arraySwap l (S i) (rand (S i))
            = Some (<[rand (S i) := x]> (<[S i := y]> l))) as Hswap
      by (unfold arraySwap; by rewrite Hx, Hy).
    rewrite Hswap. simpl.
    destruct (IH (<[rand (S i) := x]> (<[S i := y]> l))) as (l' & -> & Hl').
    { rewrite !length_insert. lia. }
    exists l'. split; [done|]. rewrite Hl'.
    by apply (arraySwap_Permutation _ _ (S i) (rand (S i))).
Qed.

(** X2: whatever the random draws (each [j] within [0..i], as
    [Math.floor(Math.random() * (i + 1))] is), [shuffleDeck] returns a
    permutation of its input: no card is lost, added or duplicated. *)
Theorem shuffleDeck_Permutation {A} rand (deck : list A) :
  (∀ i, rand i ≤ i)%nat →
  ∃ newDeck, shuffleDeck rand deck = Some newDeck ∧ newDeck ≡ₚ deck.
Proof.
  intros Hrand. unfold shuffleDeck.
  destruct deck as [|c deck]; [by exists []|].
  apply shuffleFrom_Permutation; [simpl; lia|done].
Qed.

Lemma shuffleDeck_Permutation_witness :
  ∃ newDeck,
    shuffleDeck (λ i, i `div` 2)%nat createDeck = Some newDeck
    ∧ newDeck ≡ₚ createDeck.
Proof.
  apply shuffleDeck_Permutation.
  intros i. apply Nat.Div0.div_le_upper_bound. lia.
Defined.

(** ** Who wins *)

(** The scan keeps the running maximum and the seats that reach it. *)
Lemma showdownScan_spec communityCards rest bestScore winners desc :
  ∃ bestScore' winners' desc',
    showdownScan communityCards rest bestScore winners desc
    = Some (bestScore', winners', desc')
    ∧ bestScore ≤ bestScore'
    ∧ (∀ p, p ∈ rest → handScore communityCards p ≤ bestScore')
    ∧ (bestScore' = bestScore
       ∨ ∃ p, p ∈ rest ∧ handScore communityCards p = bestScore')
    ∧ winners'
      = (if decide (bestScore = bestScore') then winners else [])
        ++ filter (λ p, handScore communityCards p = bestScore') rest
    ∧ desc'
      = if decide (bestScore = bestScore') then desc
        else from_option (handDesc communityCards) ""
               (head (filter (λ p, handScore communityCards p = bestScore')
                        rest)).
Proof.
  revert bestScore winners desc.
  induction rest as [|p rest IH]; intros bestScore winners desc.
  - eexists _, _, _. split; [done|]. rewrite decide_True by done.
    split_and!; try done.
    + intros p Hp. inversion Hp.
    + by left.
    + by rewrite app_nil_r.
    + by rewrite decide_True.
  - destruct (evaluateHand_score_nonneg (Player.hand p) communityCards)
      as (r & Hr & Hpos).
    assert (handScore communityCards p = score r) as Hs
      by (unfold handScore; by rewrite Hr).
    assert (handDesc communityCards p = description r) as Hd
      by (unfold handDesc; by rewrite Hr).
    cbn [showdownScan]. rewrite Hr. cbn [mbind option_bind].
    setoid_rewrite filter_cons. rewrite Hs.
    destruct (decide (bestScore < score r)) as [Hlt|Hge].
    { destruct (IH (score r) [p] (description r))
        as (b' & w' & d' & -> & Hle & Hmax & Hsrc & -> & ->).
      eexists _, _, _. split; [done|].
      rewrite !(decide_False (P := bestScore = b')) by lia.
      split_and!.
      - lia.
      - intros q [->|Hq]%elem_of_cons; [by rewrite Hs|by apply Hmax].
      - right. destruct Hsrc as [->|(q & Hq & Hqs)].
        + exists p. split; [by left|done].
        + exists q. split; [by right|done].
      - by destruct (decide (score r = b')).
      - rewrite filter_cons, Hs.
        destruct (decide (score r = b')); [|done].
        cbn [head from_option]. by rewrite Hd. }
    destruct (decide (score r = bestScore)) as [Heq|Hne].
    { destruct (IH bestScore (winners ++ [p]) desc)
        as (b' & w' & d' & -> & Hle & Hmax & Hsrc & -> & ->).
      eexists _, _, _. split; [done|].
      split_and!.
      - done.
      - intros q [->|Hq]%elem_of_cons; [lia|by apply Hmax].
      - destruct Hsrc as [->|(q & Hq & Hqs)]; [by left|right].
        exists q. split; [by right|done].
      - destruct (decide (bestScore = b')) as [<-|Hb].
        + rewrite decide_True by done. by rewrite <- app_assoc.
        + by rewrite decide_False by lia.
      - destruct (decide (bestScore = b')) as [<-|Hb]; [done|].
        rewrite filter_cons, Hs.
        by rewrite (decide_False (P := score r = b')) by lia. }
    destruct (IH bestScore winners desc)
      as (b' & w' & d' & -> & Hle & Hmax & Hsrc & -> & ->).
    eexists _, _, _. split; [done|].
    rewrite !(decide_False (P := score r = b')) by lia.
    split_and!; try done.
    + intros q [->|Hq]%elem_of_cons; [lia|by apply Hmax].
    + destruct Hsrc as [->|(q & Hq & Hqs)]; [by left|right].
      exists q. split; [by right|done].
    + rewrite filter_cons, Hs.
      by rewrite (decide_False (P := score r = b')) by lia.
Qed.

Lemma winnerScan_showdownScan communityCards rest bestScore winners desc :
  winnerScan communityCards rest bestScore winners
  = (λ '(b, w, _), (b, w))
      <$> showdownScan communityCards rest bestScore winners desc.
Proof.
  revert bestScore winners desc.
  induction rest as [|p rest IH]; intros bestScore winners desc; simpl;
    [done|].
  destruct (evaluateHand _ _) as [r|]; [simpl|done].
  repeat case_decide; apply IH.
Qed.

Lemma handScore_nonneg communityCards p : 0 ≤ handScore communityCards p.
Proof.
  unfold handScore.
  destruct (evaluateHand_score_nonneg (Player.hand p) communityCards)
    as (r & -> & Hr).
  done.
Qed.

(** From the initial accumulators of a showdown, the winners are the seats
    of maximal score, in seat order, and the description is that of the
    first of them. *)
Lemma showdownScan_initial communityCards active :
  active ≠ [] →
  ∃ best winners,
    showdownScan communityCards active (-1) [] ""
    = Some (best, winners,
            from_option (handDesc communityCards) "" (head winners))
    ∧ (∀ p, p ∈ active → handScore communityCards p ≤ best)
    ∧ (∃ p, p ∈ active ∧ handScore communityCards p = best)
    ∧ winners = filter (λ p, handScore communityCards p = best) active.
Proof.
  intros Hne.
  destruct (showdownScan_spec communityCards active (-1) [] "")
    as (b & w & d & Hrun & Hle & Hmax & Hsrc & Hw & Hd).
  assert (0 ≤ b) as Hb.
  { destruct active as [|p ?]; [done|].
    pose proof (Hmax p (list_elem_of_here _ _)).
    pose proof (handScore_nonneg communityCards p). lia. }
  rewrite decide_False in Hw by lia. rewrite decide_False in Hd by lia.
  simpl in Hw. subst w d.
  exists b, (filter (λ p, handScore communityCards p = b) active).
  split; [done|]. split; [done|]. split; [|done].
  destruct Hsrc as [?|?]; [lia|done].
Qed.

(** The state [handleShowdown] returns when a seat is still in the hand. *)
Lemma handleShowdown_result now state :
  activeSeats (GameState.players state) ≠ [] →
  ∃ best winners,
    (∀ p, p ∈ activeSeats (GameState.players state) →
          handScore (GameState.communityCards state) p ≤ best)
    ∧ (∃ p, p ∈ activeSeats (GameState.players state)
            ∧ handScore (GameState.communityCards state) p = best)
    ∧ winners
      = filter (λ p, handScore (GameState.communityCards state) p = best)
          (activeSeats (GameState.players state))
    ∧ handleShowdown now state
      = Some
          (let desc :=
             from_option (handDesc (GameState.communityCards state)) ""
               (head winners) in
           GameState.mk SHOWDOWN 0 (GameState.communityCards state)
             (GameState.deck state)
             (creditWinners winners
                (GameState.pot state / Z.of_nat (length winners))
              <$> GameState.players state)
             (GameState.currentPlayerIndex state)
             (GameState.dealerIndex state) (GameState.minBet state)
             (GameState.currentBet state) (GameState.lastRaiserIndex state)
             (GameState.roundLog state
                ++ [LogShowdown (Player.name <$> winners) desc])
             (GameState.deckColor state) winners desc (GameState.pot state)
             (GameState.handHistory state
                ++ [mkHistory (GameState.handCount state)
                      (Player.name <$> winners) (GameState.pot state) desc
                      now])
             (GameState.handCount state)).
Proof.
  intros Hne. unfold activeSeats in *.
  destruct (showdownScan_initial (GameState.communityCards state) _ Hne)
    as (best & winners & Hrun & Hmax & Hsrc & Hw).
  exists best, winners. split; [done|]. split; [done|]. split; [done|].
  unfold handleShowdown.
  rewrite decide_False by (intros Hl; by apply nil_length_inv in Hl).
  rewrite Hrun. done.
Qed.

(** X3: [determineWinner] returns on every input.  With no active seat it
    returns no winner; otherwise it returns, in seat order, exactly the
    active seats whose hand scores highest among the active seats (a lone
    active seat wins without comparison). *)
Theorem determineWinner_best players communityCards :
  ∃ winners,
    determineWinner players communityCards = Some winners
    ∧ (activeSeats players = [] → winners = [])
    ∧ (activeSeats players ≠ [] →
       ∃ best,
         (∀ p, p ∈ activeSeats players → handScore communityCards p ≤ best)
         ∧ (∃ p, p ∈ activeSeats players ∧ handScore communityCards p = best)
         ∧ winners
           = filter (λ p, handScore communityCards p = best)
               (activeSeats players)).
Proof.
  unfold determineWinner. fold (activeSeats players).
  destruct (activeSeats players) as [|p [|q rest]] eqn:Hact.
  - exists []. by split.
  - exists [p]. split; [done|]. split; [done|]. intros _.
    exists (handScore communityCards p). split_and!.
    + by intros ? ->%list_elem_of_singleton.
    + exists p. split; [by left|done].
    + by rewrite filter_cons, decide_True.
  - destruct (showdownScan_initial communityCards (p :: q :: rest))
      as (best & winners & Hrun & Hmax & Hsrc & Hw); [done|].
    exists winners. rewrite decide_False by done. rewrite decide_False by done.
    rewrite (winnerScan_showdownScan _ _ _ _ ""), Hrun.
    split; [done|]. split; [done|]. intros _. by exists best.
Qed.

(** X4: at a showdown with a seat still in the hand, the winners recorded
    are those [determineWinner] returns: the active seats of highest score,
    in seat order; the winning description is that of the first winner's
    hand. *)
Theorem handleShowdown_winners now state :
  activeSeats (GameState.players state) ≠ [] →
  ∃ state' best,
    handleShowdown now state = Some state'
    ∧ determineWinner (GameState.players state)
        (GameState.communityCards state)
      = Some (GameState.winners state')
    ∧ (∀ p, p ∈ activeSeats (GameState.players state) →
            handScore (GameState.communityCards state) p ≤ best)
    ∧ GameState.winners state' ≠ []
    ∧ GameState.winners state'
      = filter (λ p, handScore (GameState.communityCards state) p = best)
          (activeSeats (GameState.players state))
    ∧ GameState.winningHandDesc state'
      = from_option (handDesc (GameState.communityCards state)) ""
          (head (GameState.winners state')).
Proof.
  intros Hne.
  destruct (handleShowdown_result now state Hne)
    as (best & winners & Hmax & (q & Hq & Hqs) & Hw & Hrun).
  eexists _, best. split; [exact Hrun|]. cbn [GameState.winners
    GameState.winningHandDesc].
  split_and!; try done.
  - unfold determineWinner. fold (activeSeats (GameState.players state)).
    destruct (activeSeats (GameState.players state)) as [|p [|p' rest]] eqn:Ha.
    + done.
    + rewrite decide_False by done. rewrite decide_True by done. simpl.
      apply list_elem_of_singleton in Hq as ->.
      by rewrite Hw, filter_cons, decide_True.
    + rewrite decide_False by done. rewrite decide_False by done.
      destruct (showdownScan_initial (GameState.communityCards state)
                  (p :: p' :: rest))
        as (best' & winners' & Hrun' & Hmax' & (q' & Hq' & Hqs') & Hw');
        [done|].
      rewrite (winnerScan_showdownScan _ _ _ _ ""), Hrun'. simpl.
      assert (best' = best) as ->.
      { pose proof (Hmax _ Hq'). pose proof (Hmax' _ Hq). lia. }
      by rewrite Hw, Hw'.
  - rewrite Hw. intros Hnil.
    assert (q ∈ filter (λ p, handScore (GameState.communityCards state) p
                             = best)
                  (activeSeats (GameState.players state))) as Hin
      by by apply list_elem_of_filter.
    rewrite Hnil in Hin. inversion Hin.
Qed.

Lemma handleShowdown_winners_witness :
  ∃ state',
    handleShowdown "12:00:00"
      (tableWith RIVER 120
         [card ACE DIAMONDS; card NINE CLUBS; card SEVEN HEARTS;
          card FOUR SPADES; card TWO DIAMONDS]
         [seatWith "p1" 960 0 [card ACE SPADES; card KING SPADES] true false;
          seatWith "bot_0" 960 0 [card NINE HEARTS; card NINE SPADES]
            false false;
          seatWith "bot_1" 960 0 [card QUEEN HEARTS; card JACK HEARTS]
            true false]
         0 0 0 (Some 0))
    = Some state'
    ∧ Player.id <$> GameState.winners state' = ["p1"]
    ∧ GameState.winningHandDesc state' = "Pair".
Proof.
  destruct (handleShowdown_winners "12:00:00"
              (tableWith RIVER 120
                 [card ACE DIAMONDS; card NINE CLUBS; card SEVEN HEARTS;
                  card FOUR SPADES; card TWO DIAMONDS]
                 [seatWith "p1" 960 0 [card ACE SPADES; card KING SPADES]
                    true false;
                  seatWith "bot_0" 960 0 [card NINE HEARTS; card NINE SPADES]
                    false false;
                  seatWith "bot_1" 960 0 [card QUEEN HEARTS; card JACK HEARTS]
                    true false]
                 0 0 0 (Some 0)))
    as (state' & best & Hrun & _); [by vm_compute|].
  exists state'. split; [exact Hrun|].
  vm_compute in Hrun. injection Hrun as <-. by vm_compute.
Defined.

Lemma NoDup_fmap_eq {A B} (f : A → B) (l : list A) x y :
  NoDup (f <$> l) → x ∈ l → y ∈ l → f x = f y → x = y.
Proof.
  induction l as [|a l IH]; intros Hnd Hx Hy Hf; [inversion Hx|].
  rewrite fmap_cons in Hnd. apply NoDup_cons in Hnd as [Ha Hnd].
  apply elem_of_cons in Hx as [->|Hx]; apply elem_of_cons in Hy as [->|Hy].
  - done.
  - exfalso. apply Ha. rewrite Hf. by apply list_elem_of_fmap_2.
  - exfalso. apply Ha. rewrite <- Hf. by apply list_elem_of_fmap_2.
  - by apply IH.
Qed.

(** With distinct ids, a seat is credited exactly when it is a winner. *)
Lemma creditWinners_seat winners players winAmount p :
  NoDup (Player.id <$> players) → winners ⊆ players → p ∈ players →
  creditWinners winners winAmount p
  = if decide (p ∈ winners) then Player.credit winAmount p else p.
Proof.
  intros Hnd Hsub Hp. unfold creditWinners.
  destruct (decide (p ∈ winners)) as [Hin|Hin].
  - rewrite decide_True; [done|]. apply Exists_exists. by exists p.
  - rewrite decide_False; [done|].
    intros (w & Hw & Hid)%Exists_exists. apply Hin.
    by rewrite <- (NoDup_fmap_eq Player.id players w p Hnd (Hsub _ Hw) Hp Hid).
Qed.

(** X5: with distinct seat ids, a showdown pays the winners and nobody
    else: every winner's record changes only by the credit of
    [pot / n] rounded down, and every other seat, in particular every
    folded seat, is left exactly as it was. *)
Theorem handleShowdown_pays_winners_only now state :
  NoDup (Player.id <$> GameState.players state) →
  activeSeats (GameState.players state) ≠ [] →
  ∃ state',
    handleShowdown now state = Some state'
    ∧ length (GameState.players state') = length (GameState.players state)
    ∧ ∀ i p,
        GameState.players state !! i = Some p →
        ∃ p',
          GameState.players state' !! i = Some p'
          ∧ (Player.isActive p = false → p' = p)
          ∧ (p ∉ GameState.winners state' → p' = p)
          ∧ (p ∈ GameState.winners state' →
             p' = Player.credit
                    (GameState.pot state
                     / Z.of_nat (length (GameState.winners state'))) p).
Proof.
  intros Hnd Hne.
  destruct (handleShowdown_result now state Hne)
    as (best & winners & _ & _ & Hw & Hrun).
  eexists. split; [exact Hrun|]. cbn [GameState.players GameState.winners].
  split; [by rewrite length_fmap|].
  intros i p Hi. rewrite list_lookup_fmap, Hi. simpl.
  eexists. split; [done|].
  assert (winners ⊆ GameState.players state) as Hsub.
  { intros w Hin. rewrite Hw in Hin.
    apply list_elem_of_filter in Hin as [_ Hin]. unfold activeSeats in Hin.
    by apply list_elem_of_filter in Hin as [_ Hin]. }
  rewrite (creditWinners_seat winners (GameState.players state)) ; try done;
    [|by eapply list_elem_of_lookup_2].
  split_and!.
  - intros Hfold. rewrite decide_False; [done|]. intros Hin.
    rewrite Hw in Hin. apply list_elem_of_filter in Hin as [_ Hin].
    unfold activeSeats in Hin. apply list_elem_of_filter in Hin as [Hact _].
    congruence.
  - intros Hout. by rewrite decide_False.
  - intros Hin. by rewrite decide_True.
Qed.

Lemma handleShowdown_pays_winners_only_witness :
  ∃ state',
    handleShowdown "12:00:00"
      (tableWith RIVER 120
         [card ACE DIAMONDS; card NINE CLUBS; card SEVEN HEARTS;
          card FOUR SPADES; card TWO DIAMONDS]
         [seatWith "p1" 960 0 [card ACE SPADES; card KING SPADES] true false;
          seatWith "bot_0" 960 0 [card NINE HEARTS; card NINE SPADES]
            false false;
          seatWith "bot_1" 960 0 [card QUEEN HEARTS; card JACK HEARTS]
            true false]
         0 0 0 (Some 0))
    = Some state'
    ∧ Player.chips <$> GameState.players state' = [1080; 960; 960].
Proof.
  destruct (handleShowdown_pays_winners_only "12:00:00"
              (tableWith RIVER 120
                 [card ACE DIAMONDS; card NINE CLUBS; card SEVEN HEARTS;
                  card FOUR SPADES; card TWO DIAMONDS]
                 [seatWith "p1" 960 0 [card ACE SPADES; card KING SPADES]
                    true false;
                  seatWith "bot_0" 960 0 [card NINE HEARTS; card NINE SPADES]
                    false false;
                  seatWith "bot_1" 960 0 [card QUEEN HEARTS; card JACK HEARTS]
                    true false]
                 0 0 0 (Some 0)))
    as (state' & Hrun & _).
  - vm_compute. repeat constructor; set_solver.
  - by vm_compute.
  - exists state'. split; [exact Hrun|].
    vm_compute in Hrun. injection Hrun as <-. by vm_compute.
Defined.

(** ** Hand setup: dealing and blinds *)

Lemma arrayPop_Some {A} (arr : list A) x rest :
  arrayPop arr = Some (x, rest) ↔ arr = rest ++ [x].
Proof.
  unfold arrayPop. split.
  - destruct (reverse arr) as [|y r] eqn:Hrev; [done|].
    intros [= -> <-]. rewrite <- (reverse_involutive arr), Hrev.
    by rewrite reverse_cons.
  - intros ->. rewrite reverse_app, reverse_singleton. simpl.
    by rewrite reverse_involutive.
Qed.

Lemma arrayPop_is_Some {A} (arr : list A) :
  arr ≠ [] → ∃ x rest, arrayPop arr = Some (x, rest) ∧ arr = rest ++ [x].
Proof.
  intros Hne. destruct (arrayPop arr) as [[x rest]|] eqn:Hpop.
  - exists x, rest. split; [done|]. by apply arrayPop_Some.
  - unfold arrayPop in Hpop. destruct (reverse arr) eqn:Hrev; [|done].
    exfalso. apply Hne. by rewrite <- (reverse_involutive arr), Hrev.
Qed.

(** Dealing gives every active seat the two cards on top of the deck and
    leaves every other seat alone. *)
Lemma dealHoleCards_Some players deck players' deck' :
  dealHoleCards players deck = Some (players', deck') →
  Forall2 (λ p p',
             if Player.isActive p
             then ∃ a b, p' = Player.withHand [a; b] p
             else p' = p) players players'
  ∧ ∃ dealt,
      deck = deck' ++ dealt
      ∧ dealt ≡ₚ holeCards (filter (λ p, Player.isActive p = true) players')
      ∧ length dealt
        = (2 * length (filter (λ p, Player.isActive p = true) players))%nat.
Proof.
  revert deck players' deck'.
  induction players as [|p players IH]; intros deck players' deck' Hdeal;
    simpl in Hdeal.
  - injection Hdeal as <- <-. split; [constructor|].
    exists []. by rewrite app_nil_r.
  - destruct (Player.isActive p) eqn:Hact.
    + destruct (arrayPop deck) as [[a d1]|] eqn:Ha; [|done].
      simpl in Hdeal.
      destruct (arrayPop d1) as [[b d2]|] eqn:Hb; [|done].
      simpl in Hdeal.
      destruct (dealHoleCards players d2) as [[rest d3]|] eqn:Hrest;
        [|done].
      simpl in Hdeal. injection Hdeal as <- <-.
      apply arrayPop_Some in Ha, Hb. subst deck d1.
      destruct (IH _ _ _ Hrest) as (Hall & dealt & -> & Hperm & Hlen).
      split.
      * constructor; [|done]. rewrite Hact. by exists a, b.
      * exists (dealt ++ [b; a]). split; [by rewrite <- !app_assoc|].
        rewrite !filter_cons. simpl. rewrite Hact.
        rewrite !decide_True by done.
        unfold holeCards in *. rewrite fmap_cons. simpl.
        rewrite length_app. simpl. split; [|lia].
        rewrite <- Hperm.
        rewrite (Permutation_app_comm dealt). simpl.
        apply Permutation_swap.
    + destruct (dealHoleCards players deck) as [[rest d3]|] eqn:Hrest;
        [|done].
      simpl in Hdeal. injection Hdeal as <- <-.
      destruct (IH _ _ _ Hrest) as (Hall & dealt & -> & Hperm & Hlen).
      split.
      * constructor; [|done]. by rewrite Hact.
      * exists dealt. split; [done|].
        rewrite !filter_cons. rewrite !decide_False by congruence. done.
Qed.

Lemma dealHoleCards_is_Some players deck :
  (2 * length (filter (λ p, Player.isActive p = true) players)
   ≤ length deck)%nat →
  is_Some (dealHoleCards players deck).
Proof.
  revert deck. induction players as [|p players IH]; intros deck Hlen; simpl.
  - by eexists.
  - rewrite filter_cons in Hlen. destruct (Player.isActive p) eqn:Hact.
    + rewrite decide_True in Hlen by done. simpl in Hlen.
      destruct (arrayPop_is_Some deck) as (a & d1 & -> & ->).
      { intros ->. simpl in Hlen. lia. }
      simpl. rewrite length_app in Hlen. simpl in Hlen.
      destruct (arrayPop_is_Some d1) as (b & d2 & -> & ->).
      { intros ->. simpl in Hlen. lia. }
      simpl. rewrite length_app in Hlen. simpl in Hlen.
      destruct (IH d2) as [[rest d3] ->]; [lia|]. by eexists.
    + rewrite decide_False in Hlen by congruence.
      destruct (IH deck Hlen) as [[rest d3] ->]. by eexists.
Qed.

Lemma arrayGet_Some {A} (arr : list A) i x :
  arrayGet arr i = Some x ↔ 0 ≤ i ∧ arr !! Z.to_nat i = Some x.
Proof. unfold arrayGet. case_decide; naive_solver. Qed.

Lemma arrayGet_in_range {A} (arr : list A) i :
  0 ≤ i < Z.of_nat (length arr) → is_Some (arrayGet arr i).
Proof.
  intros Hi. unfold arrayGet. rewrite decide_True by lia.
  apply lookup_lt_is_Some_2. lia.
Qed.

Lemma rem_seat n a : 0 < n → 0 ≤ a → 0 ≤ Z.rem a n < n.
Proof. intros. by apply Z.rem_bound_pos. Qed.

Lemma rem_succ_ne n a : 2 ≤ n → 0 ≤ a → Z.rem a n ≠ Z.rem (a + 1) n.
Proof.
  intros Hn Ha. rewrite !Z.rem_mod_nonneg by lia. intros Heq.
  assert ((a + 1 - a) `mod` n = 0) as Hz.
  { rewrite Zminus_mod, <- Heq, Z.sub_diag. by apply Z.mod_0_l; lia. }
  replace (a + 1 - a) with 1 in Hz by lia.
  rewrite Z.mod_1_l in Hz by lia. done.
Qed.

(** What [setupNewHand] did when it returned: the two blind seats, the
    table after the blinds, and the deal. *)
Lemma setupNewHand_Some deck players dealerIdx handCount history state :
  setupNewHand deck players dealerIdx handCount history = Some state →
  let reset := Player.resetForHand <$> players in
  let len := Z.of_nat (length players) in
  let nextDealer := Z.rem (dealerIdx + 1) len in
  let headsUp :=
    bool_decide (length (filter (λ p, 0 < Player.chips p) reset) = 2%nat) in
  let sbIndex := if headsUp then nextDealer else Z.rem (nextDealer + 1) len in
  let bbIndex :=
    if headsUp then Z.rem (nextDealer + 1) len
    else Z.rem (nextDealer + 2) len in
  ∃ sbPlayer bbPlayer,
    players ≠ []
    ∧ arrayGet reset sbIndex = Some sbPlayer
    ∧ let sbAmt := Z.min SMALL_BLIND (Player.chips sbPlayer) in
      let posted1 :=
        <[Z.to_nat sbIndex := Player.postBlind sbAmt sbPlayer]> reset in
      arrayGet posted1 bbIndex = Some bbPlayer
      ∧ let bbAmt := Z.min BIG_BLIND (Player.chips bbPlayer) in
        let posted :=
          <[Z.to_nat bbIndex := Player.postBlind bbAmt bbPlayer]> posted1 in
        dealHoleCards posted deck
        = Some (GameState.players state, GameState.deck state)
        ∧ state
          = GameState.mk PRE_FLOP (sbAmt + bbAmt) [] (GameState.deck state)
              (GameState.players state) (Z.rem (bbIndex + 1) len) nextDealer
              BIG_BLIND BIG_BLIND (Some bbIndex)
              [LogHandStarted (handCount + 1)] "blue" [] "" 0 history
              (handCount + 1).
Proof.
  unfold setupNewHand. cbv zeta. rewrite length_fmap.
  intros Hrun. case_decide as Hlen; [done|].
  destruct (arrayGet _ _) as [sbPlayer|] eqn:Hsb; [|done].
  cbn [mbind option_bind] in Hrun.
  destruct (arrayGet (<[_ := _]> _) _) as [bbPlayer|] eqn:Hbb; [|done].
  cbn [mbind option_bind] in Hrun.
  destruct (dealHoleCards _ _) as [[players' deck']|] eqn:Hdeal; [|done].
  cbn [mbind option_bind] in Hrun. injection Hrun as <-.
  exists sbPlayer, bbPlayer.
  split; [by intros ->|]. split; [done|]. split; [done|]. by split.
Qed.

Lemma active_count_insert (l : list Player.t) i p p' :
  l !! i = Some p → Player.isActive p' = Player.isActive p →
  length (filter (λ q, Player.isActive q = true) (<[i := p']> l))
  = length (filter (λ q, Player.isActive q = true) l).
Proof.
  revert i. induction l as [|a l IH]; intros [|i] Hi Hact; simplify_eq/=.
  - rewrite !filter_cons, Hact. by destruct (Player.isActive p).
  - rewrite !filter_cons. case_decide; simpl; by rewrite (IH i).
Qed.

Lemma active_count_reset (players : list Player.t) :
  length (filter (λ q, Player.isActive q = true)
            (Player.resetForHand <$> players))
  = length (fundedSeats players).
Proof.
  unfold fundedSeats. induction players as [|p players IH]; [done|].
  rewrite fmap_cons, !filter_cons. simpl.
  destruct (decide (0 < Player.chips p)).
  - rewrite bool_decide_eq_true_2 by done. simpl. by rewrite IH.
  - rewrite bool_decide_eq_false_2 by done. simpl. by rewrite IH.
Qed.

(** It returns whenever the table has a seat, the dealer index is a seat
    index or the initial -1, and the deck has two cards for every seat
    holding chips. *)
Lemma setupNewHand_is_Some deck players dealerIdx handCount history :
  players ≠ [] → -1 ≤ dealerIdx →
  (2 * length (fundedSeats players) ≤ length deck)%nat →
  is_Some (setupNewHand deck players dealerIdx handCount history).
Proof.
  intros Hne Hdealer Hdeck. unfold setupNewHand. cbv zeta.
  rewrite length_fmap.
  assert (0 < Z.of_nat (length players)) as Hlen
    by (destruct players; [done|simpl; lia]).
  rewrite decide_False by lia.
  set (len := Z.of_nat (length players)) in *.
  set (reset := Player.resetForHand <$> players).
  assert (length reset = length players) as Hreset
    by (unfold reset; by rewrite length_fmap).
  pose proof (rem_seat len (dealerIdx + 1) Hlen) as Hd.
  pose proof (rem_seat len (Z.rem (dealerIdx + 1) len + 1) Hlen) as Hd1.
  pose proof (rem_seat len (Z.rem (dealerIdx + 1) len + 2) Hlen) as Hd2.
  destruct (arrayGet_in_range reset
              (if bool_decide
                    (length (filter (λ p, 0 < Player.chips p) reset) = 2%nat)
               then Z.rem (dealerIdx + 1) len
               else Z.rem (Z.rem (dealerIdx + 1) len + 1) len))
    as [sbPlayer Hsb].
  { rewrite Hreset. fold len. case_bool_decide; lia. }
  rewrite Hsb. cbn [mbind option_bind].
  match goal with
  | |- is_Some (mbind _ (arrayGet ?l ?i)) =>
      destruct (arrayGet_in_range l i) as [bbPlayer Hbb]
  end.
  { rewrite length_insert, Hreset. fold len. case_bool_decide; lia. }
  rewrite Hbb. cbn [mbind option_bind].
  match goal with
  | |- is_Some (mbind _ (dealHoleCards ?l ?d)) =>
      destruct (dealHoleCards_is_Some l d) as [[players' deck'] Hdeal]
  end.
  { apply arrayGet_Some in Hsb as [_ Hsb].
    apply arrayGet_Some in Hbb as [_ Hbb].
    rewrite (active_count_insert _ _ bbPlayer) by done.
    rewrite (active_count_insert _ _ sbPlayer) by done.
    unfold reset. by rewrite active_count_reset. }
  rewrite Hdeal. by eexists.
Qed.

(** X6: for a dealer index that is a seat index or the initial -1 and a
    deck that holds two cards for every seat with chips (the 52 cards of
    the source's deck serve up to 26 such seats), [setupNewHand] returns a
    state exactly when the table has at least one seat; on an empty table
    it fails, on the read of the small blind's seat. *)
Theorem setupNewHand_returns_iff deck players dealerIdx handCount history :
  -1 ≤ dealerIdx →
  (2 * length (fundedSeats players) ≤ length deck)%nat →
  is_Some (setupNewHand deck players dealerIdx handCount history)
  ↔ players ≠ [].
Proof.
  intros Hdealer Hdeck. split.
  - intros [state Hrun].
    by destruct (setupNewHand_Some _ _ _ _ _ _ Hrun)
      as (sbPlayer & bbPlayer & Hne & _).
  - intros Hne. by apply setupNewHand_is_Some.
Qed.

Lemma setupNewHand_returns_iff_witness :
  is_Some (setupNewHand createDeck
             [seatWith "p1" 1000 0 [] true false;
              seatWith "bot_0" 1000 0 [] true false] (-1) 0 [])
  ∧ ¬ is_Some (setupNewHand createDeck [] (-1) 0 []).
Proof.
  split.
  - apply setupNewHand_returns_iff; [lia|vm_compute; lia|done].
  - intros Hsome.
    apply setupNewHand_returns_iff in Hsome; [done|lia|simpl; lia].
Defined.

Lemma sumChips_Forall2 (l l' : list Player.t) :
  Forall2 (λ p p', Player.chips p' = Player.chips p) l l' →
  sumChips l' = sumChips l.
Proof. induction 1 as [|p p' l l' Hp _ IH]; simpl; [done|]. by rewrite Hp, IH. Qed.

Lemma sumChips_reset (players : list Player.t) :
  sumChips (Player.resetForHand <$> players) = sumChips players.
Proof.
  unfold sumChips. induction players as [|p l IH]; [done|].
  csimpl. by rewrite IH.
Qed.

(** X7: hand setup creates and destroys no chips.  Whenever it has a seat,
    a valid dealer index and enough cards, it returns a pre-flop state
    whose seats' chips plus pot equal the chips the seats held before, with
    as many seats as before, an empty board and the hand count increased by
    one. *)
Theorem setupNewHand_conserves_chips deck players dealerIdx handCount
    history :
  players ≠ [] → -1 ≤ dealerIdx →
  (2 * length (fundedSeats players) ≤ length deck)%nat →
  ∃ state,
    setupNewHand deck players dealerIdx handCount history = Some state
    ∧ GameState.phase state = PRE_FLOP
    ∧ chipsInPlay state = sumChips players
    ∧ length (GameState.players state) = length players
    ∧ GameState.handCount state = handCount + 1
    ∧ GameState.communityCards state = [].
Proof.
  intros Hne Hdealer Hdeck.
  destruct (setupNewHand_is_Some deck players dealerIdx handCount history)
    as [state Hrun]; [done..|].
  exists state. split; [done|].
  destruct (setupNewHand_Some _ _ _ _ _ _ Hrun)
    as (sbPlayer & bbPlayer & _ & Hsb & Hbb & Hdeal & Hstate).
  apply arrayGet_Some in Hsb as [_ Hsb].
  apply arrayGet_Some in Hbb as [_ Hbb].
  apply dealHoleCards_Some in Hdeal as (Hall & _).
  pose proof (f_equal GameState.phase Hstate) as Hphase.
  pose proof (f_equal GameState.pot Hstate) as Hpot.
  pose proof (f_equal GameState.handCount Hstate) as Hcount.
  pose proof (f_equal GameState.communityCards Hstate) as Hboard.
  cbn [GameState.phase GameState.pot GameState.handCount
       GameState.communityCards] in Hphase, Hpot, Hcount, Hboard.
  split_and!; try done.
  - unfold chipsInPlay. rewrite Hpot.
    assert (∀ p p' : Player.t,
              (if Player.isActive p
               then ∃ a b, p' = Player.withHand [a; b] p else p' = p) →
              Player.chips p' = Player.chips p) as Himp.
    { intros p p' Hp.
      destruct (Player.isActive p); [by destruct Hp as (? & ? & ->)|].
      by subst. }
    rewrite (sumChips_Forall2 _ _ (Forall2_impl _ _ _ _ Hall Himp)).
    rewrite (sumChips_insert _ _ _ _ Hbb), (sumChips_insert _ _ _ _ Hsb).
    rewrite sumChips_reset. simpl. lia.
  - apply Forall2_length in Hall. rewrite <- Hall.
    by rewrite !length_insert, length_fmap.
Qed.

Lemma setupNewHand_conserves_chips_witness :
  ∃ state,
    setupNewHand createDeck
      [seatWith "p1" 1000 0 [] true false;
       seatWith "bot_0" 15 0 [] true false;
       seatWith "bot_1" 0 0 [] true false] 1 3 [] = Some state
    ∧ chipsInPlay state = 1015.
Proof.
  destruct (setupNewHand_conserves_chips createDeck
              [seatWith "p1" 1000 0 [] true false;
               seatWith "bot_0" 15 0 [] true false;
               seatWith "bot_1" 0 0 [] true false] 1 3 [])
    as (state & Hrun & _ & Hsum & _); [done|lia|vm_compute; lia|].
  exists state. split; [exact Hrun|]. rewrite Hsum. reflexivity.
Defined.

Lemma seatBeforeDeal_reset p : seatBeforeDeal p (Player.resetForHand p).
Proof.
  unfold seatBeforeDeal, BIG_BLIND. simpl. split_and!; try done; lia.
Qed.

Lemma seatBeforeDeal_postBlind p q blind :
  0 ≤ blind ≤ BIG_BLIND → seatBeforeDeal p q →
  seatBeforeDeal p (Player.postBlind (Z.min blind (Player.chips q)) q).
Proof.
  unfold seatBeforeDeal, BIG_BLIND.
  intros Hblind (Hid & Hname & Hact & Hall & Hpos & Hhand).
  cbn [Player.postBlind Player.id Player.name Player.chips Player.hand
       Player.isActive Player.isAllIn Player.currentBet].
  split_and!; try done.
  - destruct (decide _) as [Hz|Hz]; [by intros _|].
    intros Ha. specialize (Hall Ha). lia.
  - intros Hp. specialize (Hpos Hp). lia.
Qed.

Lemma seatAfterSetup_dealt p q q' :
  seatBeforeDeal p q →
  (if Player.isActive q then ∃ a b, q' = Player.withHand [a; b] q
   else q' = q) →
  seatAfterSetup p q'.
Proof.
  unfold seatBeforeDeal, seatAfterSetup.
  intros (Hid & Hname & Hact & Hall & Hpos & Hhand) Hq.
  destruct (Player.isActive q) eqn:Ha.
  - destruct Hq as (a & b & ->). simpl. rewrite Ha. by split_and!.
  - subst q'. rewrite Ha, Hhand. by split_and!.
Qed.

Lemma Forall2_insert_r {A B} (R : A → B → Prop) l k i x y :
  Forall2 R l k → l !! i = Some x → R x y → Forall2 R l (<[i := y]> k).
Proof.
  intros Hall Hi Hxy. rewrite <- (list_insert_id l i x Hi).
  by apply Forall2_insert.
Qed.

Lemma setupNewHand_Forall2 deck players dealerIdx handCount history state :
  setupNewHand deck players dealerIdx handCount history = Some state →
  Forall2 seatAfterSetup players (GameState.players state).
Proof.
  intros Hrun.
  destruct (setupNewHand_Some _ _ _ _ _ _ Hrun)
    as (sbPlayer & bbPlayer & _ & Hsb & Hbb & Hdeal & _).
  apply arrayGet_Some in Hsb as [_ Hsb].
  apply arrayGet_Some in Hbb as [_ Hbb].
  apply dealHoleCards_Some in Hdeal as (Hall & _).
  set (reset := Player.resetForHand <$> players) in *.
  assert (Forall2 seatBeforeDeal players reset) as Hreset.
  { unfold reset. apply Forall2_fmap_r, Forall_Forall2_diag, Forall_forall.
    intros p _. apply seatBeforeDeal_reset. }
  assert (∀ (l : list Player.t) i q blind,
            0 ≤ blind ≤ BIG_BLIND →
            Forall2 seatBeforeDeal players l →
            l !! i = Some q →
            Forall2 seatBeforeDeal players
              (<[i := Player.postBlind (Z.min blind (Player.chips q)) q]> l))
    as Hpost.
  { intros l i q blind Hblind Hl Hi.
    destruct (Forall2_lookup_r _ _ _ _ _ Hl Hi) as (p & Hp & Hpq).
    eapply Forall2_insert_r; [done..|].
    by apply seatBeforeDeal_postBlind. }
  pose proof (Hpost _ _ _ SMALL_BLIND ltac:(unfold SMALL_BLIND, BIG_BLIND; lia)
                Hreset Hsb) as Hposted1.
  pose proof (Hpost _ _ _ BIG_BLIND ltac:(unfold BIG_BLIND; lia)
                Hposted1 Hbb) as Hposted.
  clear Hpost.
  eapply Forall2_trans; [|exact Hposted|exact Hall].
  simpl. intros p q q'. apply seatAfterSetup_dealt.
Qed.

(** X8: after hand setup every seat keeps its id and name, is active
    exactly when it held chips, is all-in only with an empty stack, and
    holds two hole cards if active and none otherwise; a seat that came in
    with a non-negative stack keeps a non-negative stack and has posted
    between 0 and the big blind. *)
Theorem setupNewHand_seats deck players dealerIdx handCount history :
  players ≠ [] → -1 ≤ dealerIdx →
  (2 * length (fundedSeats players) ≤ length deck)%nat →
  ∃ state,
    setupNewHand deck players dealerIdx handCount history = Some state
    ∧ Forall2 seatAfterSetup players (GameState.players state).
Proof.
  intros Hne Hdealer Hdeck.
  destruct (setupNewHand_is_Some deck players dealerIdx handCount history)
    as [state Hrun]; [done..|].
  exists state. split; [done|]. by eapply setupNewHand_Forall2.
Qed.

Lemma setupNewHand_seats_witness :
  ∃ state,
    setupNewHand createDeck
      [seatWith "p1" 1000 0 [] true false;
       seatWith "bot_0" 15 0 [] true false;
       seatWith "bot_1" 0 0 [] true false] 2 3 [] = Some state
    ∧ Player.isAllIn <$> GameState.players state = [false; true; false]
    ∧ Player.chips <$> GameState.players state = [990; 0; 0].
Proof.
  destruct (setupNewHand_seats createDeck
              [seatWith "p1" 1000 0 [] true false;
               seatWith "bot_0" 15 0 [] true false;
               seatWith "bot_1" 0 0 [] true false] 2 3 [])
    as (state & Hrun & _); [done|lia|vm_compute; lia|].
  exists state. split; [exact Hrun|].
  vm_compute in Hrun. injection Hrun as <-. by vm_compute.
Defined.

Lemma holeCards_active (l : list Player.t) :
  Forall (λ p, Player.isActive p = false → Player.hand p = []) l →
  holeCards (filter (λ p, Player.isActive p = true) l) = holeCards l.
Proof.
  unfold holeCards. induction 1 as [|p l Hp _ IH]; [done|].
  rewrite filter_cons. destruct (Player.isActive p) eqn:Ha.
  - rewrite decide_True by done. csimpl. by rewrite IH.
  - rewrite decide_False by done. csimpl. by rewrite IH, Hp.
Qed.

(** X9: hand setup deals from the deck it is given and nowhere else: the
    hole cards around the table together with the remaining deck are a
    rearrangement of the input deck, the deck shrinks by two cards per seat
    with chips, and a deck without duplicates deals no card twice. *)
Theorem setupNewHand_deals deck players dealerIdx handCount history :
  players ≠ [] → -1 ≤ dealerIdx →
  (2 * length (fundedSeats players) ≤ length deck)%nat →
  ∃ state,
    setupNewHand deck players dealerIdx handCount history = Some state
    ∧ holeCards (GameState.players state) ++ GameState.deck state ≡ₚ deck
    ∧ (length (GameState.deck state) + 2 * length (fundedSeats players)
       = length deck)%nat
    ∧ (NoDup deck →
       NoDup (holeCards (GameState.players state) ++ GameState.deck state)).
Proof.
  intros Hne Hdealer Hdeck.
  destruct (setupNewHand_is_Some deck players dealerIdx handCount history)
    as [state Hrun]; [done..|].
  exists state. split; [done|].
  pose proof (setupNewHand_Forall2 _ _ _ _ _ _ Hrun) as Hseats.
  destruct (setupNewHand_Some _ _ _ _ _ _ Hrun)
    as (sbPlayer & bbPlayer & _ & Hsb & Hbb & Hdeal & _).
  apply arrayGet_Some in Hsb as [_ Hsb].
  apply arrayGet_Some in Hbb as [_ Hbb].
  apply dealHoleCards_Some in Hdeal as (_ & dealt & Hd & Hperm & Hlen).
  rewrite (active_count_insert _ _ bbPlayer) in Hlen by done.
  rewrite (active_count_insert _ _ sbPlayer) in Hlen by done.
  rewrite active_count_reset in Hlen.
  rewrite holeCards_active in Hperm.
  2:{ apply Forall2_Forall_r with (Q := λ p', Player.isActive p' = false →
                                            Player.hand p' = [])
        in Hseats; [done|].
      apply Forall_forall. intros p _ p' (_ & _ & _ & _ & _ & Hhand) Ha.
      rewrite Ha in Hhand. by apply nil_length_inv. }
  assert (holeCards (GameState.players state) ++ GameState.deck state
          ≡ₚ deck) as Hall.
  { rewrite Hd, <- Hperm. apply Permutation_app_comm. }
  split_and!; [done| |by intros Hnd; rewrite Hall].
  by rewrite Hd, length_app, Hlen.
Qed.

Lemma setupNewHand_deals_witness :
  ∃ state,
    setupNewHand createDeck
      [seatWith "p1" 1000 0 [] true false;
       seatWith "bot_0" 1000 0 [] true false] (-1) 0 [] = Some state
    ∧ length (GameState.deck state) = 48%nat
    ∧ NoDup (holeCards (GameState.players state) ++ GameState.deck state).
Proof.
  destruct (setupNewHand_deals createDeck
              [seatWith "p1" 1000 0 [] true false;
               seatWith "bot_0" 1000 0 [] true false] (-1) 0 [])
    as (state & Hrun & _ & Hlen & Hnd); [done|lia|vm_compute; lia|].
  exists state. split; [exact Hrun|]. split.
  - change (length createDeck) with 52%nat in Hlen.
    change (length (fundedSeats _)) with 2%nat in Hlen. lia.
  - apply Hnd, createDeck_NoDup.
Defined.

(** ** Actions: failure, bet bookkeeping, calls *)

(** X10: [processPlayerAction] fails exactly when no seat of the state
    carries the id of the player passed in; the amount, the verb and the
    display total never make it fail. *)
Theorem processPlayerAction_fails_iff state player amount actionVerb
    displayTotal :
  processPlayerAction state player amount actionVerb displayTotal = None
  ↔ ∀ p, p ∈ GameState.players state → Player.id p ≠ Player.id player.
Proof.
  split.
  - intros Hnone p Hp Hid.
    destruct (list_find_elem_of (λ q, Player.id q = Player.id player)
                (GameState.players state) p Hp Hid) as [[i q] Hfind].
    destruct (processPlayerAction_found state player amount actionVerb
                displayTotal i q Hfind) as (? & ? & Hrun & _).
    congruence.
  - intros Hall. unfold processPlayerAction.
    destruct (list_find _ _) as [[i q]|] eqn:Hfind; [|done].
    apply list_find_Some in Hfind as (Hi & Hid & _).
    exfalso. eapply Hall; [|exact Hid]. by eapply list_elem_of_lookup_2.
Qed.

(** The fields of the state an action returns. *)
Lemma processPlayerAction_fields state player amount actionVerb displayTotal
    i p :
  list_find (λ p, Player.id p = Player.id player) (GameState.players state)
  = Some (i, p) →
  ∃ bubble logMsg,
    let actualAmount := Z.min amount (Player.chips player) in
    let seat := Player.commit actualAmount bubble p in
    let raised :=
      bool_decide (GameState.currentBet state < Player.currentBet seat) in
    processPlayerAction state player amount actionVerb displayTotal
    = Some
        (GameState.mk (GameState.phase state)
           (GameState.pot state + actualAmount)
           (GameState.communityCards state) (GameState.deck state)
           (<[i := seat]> (GameState.players state))
           (GameState.currentPlayerIndex state) (GameState.dealerIndex state)
           (if raised
            then Z.max (GameState.minBet state)
                   (Player.currentBet seat - GameState.currentBet state)
            else GameState.minBet state)
           (if raised then Player.currentBet seat
            else GameState.currentBet state)
           (if raised then Some (Z.of_nat i)
            else GameState.lastRaiserIndex state)
           (GameState.roundLog state ++ [logMsg])
           (GameState.deckColor state) (GameState.winners state)
           (GameState.winningHandDesc state) (GameState.lastPotSize state)
           (GameState.handHistory state) (GameState.handCount state)).
Proof.
  intros Hfind. unfold processPlayerAction. rewrite Hfind.
  cbn [mbind option_bind]. by eexists _, _.
Qed.

(** X11: an action never lowers the table's bet to match or the minimum
    raise and never moves the turn.  The new [currentBet] is the larger of
    the old one and the acting seat's bet; when the seat's bet exceeds the
    old [currentBet] (a raise) [minBet] becomes the larger of the old
    [minBet] and the raise size and the seat becomes [lastRaiserIndex];
    otherwise [minBet] and [lastRaiserIndex] stay.  Exactly one log line is
    appended; phase, board, deck, dealer and turn pointer are unchanged. *)
Theorem processPlayerAction_bets state player amount actionVerb displayTotal
    i p :
  list_find (λ p, Player.id p = Player.id player) (GameState.players state)
  = Some (i, p) →
  ∃ state' seat,
    processPlayerAction state player amount actionVerb displayTotal
    = Some state'
    ∧ GameState.players state' !! i = Some seat
    ∧ GameState.currentBet state'
      = Z.max (GameState.currentBet state) (Player.currentBet seat)
    ∧ GameState.minBet state ≤ GameState.minBet state'
    ∧ (GameState.currentBet state < Player.currentBet seat →
       GameState.minBet state'
       = Z.max (GameState.minBet state)
           (Player.currentBet seat - GameState.currentBet state)
       ∧ GameState.lastRaiserIndex state' = Some (Z.of_nat i))
    ∧ (Player.currentBet seat ≤ GameState.currentBet state →
       GameState.minBet state' = GameState.minBet state
       ∧ GameState.lastRaiserIndex state' = GameState.lastRaiserIndex state)
    ∧ length (GameState.roundLog state')
      = S (length (GameState.roundLog state))
    ∧ GameState.phase state' = GameState.phase state
    ∧ GameState.communityCards state' = GameState.communityCards state
    ∧ GameState.deck state' = GameState.deck state
    ∧ GameState.dealerIndex state' = GameState.dealerIndex state
    ∧ GameState.currentPlayerIndex state'
      = GameState.currentPlayerIndex state.
Proof.
  intros Hfind.
  destruct (processPlayerAction_fields state player amount actionVerb
              displayTotal i p Hfind) as (bubble & logMsg & Hrun).
  cbv zeta in Hrun.
  apply list_find_Some in Hfind as (Hi & _ & _).
  eexists _, _. split; [exact Hrun|].
  cbn [GameState.players GameState.currentBet GameState.minBet
       GameState.lastRaiserIndex GameState.roundLog GameState.phase
       GameState.communityCards GameState.deck GameState.dealerIndex
       GameState.currentPlayerIndex].
  split; [apply list_lookup_insert_eq; by eapply lookup_lt_Some|].
  split_and!; try done.
  - case_bool_decide; lia.
  - case_bool_decide; lia.
  - intros Hraise. by rewrite bool_decide_eq_true_2.
  - intros Hcall. by rewrite bool_decide_eq_false_2 by lia.
  - rewrite length_app. simpl. lia.
Qed.

Lemma processPlayerAction_bets_witness :
  ∃ state',
    processPlayerAction
      (tableWith FLOP 40 [] [seatWith "p1" 980 0 [] true false;
                             seatWith "bot_0" 500 0 [] true false] 1 0 0
         (Some 0))
      (seatWith "bot_0" 500 0 [] true false) 60 "Raises to" (Some 60)
    = Some state'
    ∧ GameState.currentBet state' = 60
    ∧ GameState.minBet state' = 60
    ∧ GameState.lastRaiserIndex state' = Some 1.
Proof.
  destruct (processPlayerAction_bets
              (tableWith FLOP 40 [] [seatWith "p1" 980 0 [] true false;
                                     seatWith "bot_0" 500 0 [] true false]
                 1 0 0 (Some 0))
              (seatWith "bot_0" 500 0 [] true false) 60 "Raises to"
              (Some 60) 1%nat (seatWith "bot_0" 500 0 [] true false))
    as (state' & seat & Hrun & _); [reflexivity|].
  exists state'. split; [exact Hrun|].
  vm_compute in Hrun. injection Hrun as <-. by vm_compute.
Defined.

(** X12: calling.  When the seat passed in is the seat of the state and it
    commits the difference between the table's bet and its own (not
    negative), capped at its stack, the action is never a raise: the
    table's [currentBet], [minBet] and [lastRaiserIndex] are unchanged.  If
    the stack covers the call the seat's bet then equals the table's bet;
    if not, the seat is all-in with its whole stack added to its bet. *)
Theorem processPlayerAction_call state player actionVerb displayTotal i :
  list_find (λ p, Player.id p = Player.id player) (GameState.players state)
  = Some (i, player) →
  let toCall := GameState.currentBet state - Player.currentBet player in
  0 ≤ toCall → 0 ≤ Player.chips player →
  ∃ state' seat,
    processPlayerAction state player toCall actionVerb displayTotal
    = Some state'
    ∧ GameState.players state' !! i = Some seat
    ∧ GameState.currentBet state' = GameState.currentBet state
    ∧ GameState.minBet state' = GameState.minBet state
    ∧ GameState.lastRaiserIndex state' = GameState.lastRaiserIndex state
    ∧ (toCall ≤ Player.chips player →
       Player.currentBet seat = GameState.currentBet state')
    ∧ (Player.chips player < toCall →
       Player.chips seat = 0 ∧ Player.isAllIn seat = true
       ∧ Player.currentBet seat
         = Player.currentBet player + Player.chips player).
Proof.
  intros Hfind toCall Hcall Hchips. subst toCall.
  destruct (processPlayerAction_fields state player
              (GameState.currentBet state - Player.currentBet player)
              actionVerb
              displayTotal i player Hfind) as (bubble & logMsg & Hrun).
  cbv zeta in Hrun.
  apply list_find_Some in Hfind as (Hi & _ & _).
  eexists _, _. split; [exact Hrun|].
  cbn [GameState.players GameState.currentBet GameState.minBet
       GameState.lastRaiserIndex Player.commit Player.currentBet
       Player.chips Player.isAllIn].
  split; [apply list_lookup_insert_eq; by eapply lookup_lt_Some|].
  rewrite bool_decide_eq_false_2 by lia.
  split_and!; try done; try lia.
  - intros Hcover. simpl. lia.
  - intros Hshort. simpl. rewrite decide_True by lia.
    split_and!; try done; lia.
Qed.

Lemma processPlayerAction_call_witness :
  ∃ state' seat,
    processPlayerAction
      (tableWith FLOP 100 [] [seatWith "p1" 940 60 [] true false;
                              seatWith "bot_0" 25 0 [] true false] 1 0 60
         (Some 0))
      (seatWith "bot_0" 25 0 [] true false) 60 "Calls" None
    = Some state'
    ∧ GameState.players state' !! 1%nat = Some seat
    ∧ GameState.currentBet state' = 60
    ∧ Player.chips seat = 0 ∧ Player.isAllIn seat = true
    ∧ Player.currentBet seat = 25.
Proof.
  destruct (processPlayerAction_call
              (tableWith FLOP 100 [] [seatWith "p1" 940 60 [] true false;
                                      seatWith "bot_0" 25 0 [] true false]
                 1 0 60 (Some 0))
              (seatWith "bot_0" 25 0 [] true false) "Calls" None 1%nat)
    as (state' & seat & Hrun & Hseat & Hbet & _ & _ & _ & Hshort);
    [reflexivity|simpl; lia|simpl; lia|].
  exists state', seat. split; [exact Hrun|]. split; [exact Hseat|].
  split; [exact Hbet|]. apply Hshort. simpl. lia.
Defined.

(** X13: sound seats stay sound.  If every seat has a non-negative stack
    and is marked all-in only with an empty stack, the same holds after an
    action of a non-negative amount by a seat of the state. *)
Theorem processPlayerAction_sound state player amount actionVerb
    displayTotal i :
  list_find (λ p, Player.id p = Player.id player) (GameState.players state)
  = Some (i, player) →
  0 ≤ amount → Forall soundSeat (GameState.players state) →
  ∃ state',
    processPlayerAction state player amount actionVerb displayTotal
    = Some state'
    ∧ Forall soundSeat (GameState.players state').
Proof.
  intros Hfind Hamount Hall.
  destruct (processPlayerAction_found state player amount actionVerb
              displayTotal i player Hfind)
    as (bubble & state' & Hrun & Hplayers & _).
  exists state'. split; [done|]. rewrite Hplayers.
  apply list_find_Some in Hfind as (Hi & _ & _).
  apply Forall_insert; [done|].
  rewrite Forall_forall in Hall.
  destruct (Hall player) as [Hpos Hallin]; [by eapply list_elem_of_lookup_2|].
  unfold soundSeat. simpl. split; [lia|].
  destruct (decide _) as [Hz|Hz]; [done|].
  intros Ha. specialize (Hallin Ha). lia.
Qed.

Lemma processPlayerAction_sound_witness :
  ∃ state',
    processPlayerAction
      (tableWith FLOP 40 [] [seatWith "p1" 980 0 [] true false;
                             seatWith "bot_0" 30 0 [] true false] 1 0 0
         (Some 0))
      (seatWith "bot_0" 30 0 [] true false) 100 "Raises to" None
    = Some state'
    ∧ Forall soundSeat (GameState.players state').
Proof.
  apply (processPlayerAction_sound _ _ _ _ _ 1%nat); [reflexivity|lia|].
  repeat constructor; simpl; lia || done.
Defined.

(** ** Street advancement: dealing *)

Lemma arrayPop_app {A} (arr : list A) x :
  arrayPop (arr ++ [x]) = Some (x, arr).
Proof. by apply arrayPop_Some. Qed.

(** A dealing phase burns the top card and moves the next ones to the
    board, top card first. *)
Lemma dealStreet_deals phase board deck :
  dealingPhase phase → (S (streetCards phase) ≤ length deck)%nat →
  ∃ burn dealt deck',
    dealStreet phase board deck
    = Some (nextStreet phase, board ++ dealt, deck')
    ∧ deck = deck' ++ reverse dealt ++ [burn]
    ∧ length dealt = streetCards phase.
Proof.
  intros Hphase Hlen.
  assert (∀ (d : list Card), (1 ≤ length d)%nat →
            ∃ x d', d = d' ++ [x] ∧ (length d = S (length d'))%nat) as Hpop.
  { intros d Hd. destruct (arrayPop_is_Some d) as (x & d' & _ & ->).
    - intros ->. simpl in Hd. lia.
    - exists x, d'. split; [done|]. rewrite length_app. simpl. lia. }
  destruct Hphase as [->|[->| ->]]; simpl in *.
  - destruct (Hpop deck) as (burn & d1 & -> & H1); [lia|].
    destruct (Hpop d1) as (c1 & d2 & -> & H2); [lia|].
    destruct (Hpop d2) as (c2 & d3 & -> & H3); [lia|].
    destruct (Hpop d3) as (c3 & d4 & -> & H4); [lia|].
    exists burn, [c1; c2; c3], d4.
    rewrite !arrayPop_app. simpl. rewrite !arrayPop_app. simpl.
    rewrite !arrayPop_app. simpl. rewrite !arrayPop_app. simpl.
    split; [done|]. split; [|done].
    by rewrite <- !app_assoc.
  - destruct (Hpop deck) as (burn & d1 & -> & H1); [lia|].
    destruct (Hpop d1) as (c1 & d2 & -> & H2); [lia|].
    exists burn, [c1], d2.
    rewrite !arrayPop_app. simpl. rewrite !arrayPop_app. simpl.
    split; [done|]. split; [|done]. by rewrite <- !app_assoc.
  - destruct (Hpop deck) as (burn & d1 & -> & H1); [lia|].
    destruct (Hpop d1) as (c1 & d2 & -> & H2); [lia|].
    exists burn, [c1], d2.
    rewrite !arrayPop_app. simpl. rewrite !arrayPop_app. simpl.
    split; [done|]. split; [|done]. by rewrite <- !app_assoc.
Qed.

Lemma cannotAct_clearBet p :
  Player.cannotAct (Player.clearBet p) = Player.cannotAct p.
Proof. done. Qed.

Lemma scanSeats_is_Some players remaining idx :
  0 ≤ idx < Z.of_nat (length players) →
  ∃ found left, scanSeats players remaining idx = Some (found, left)
                ∧ 0 ≤ found < Z.of_nat (length players).
Proof.
  revert idx. induction remaining as [|remaining IH]; intros idx Hidx;
    rewrite scanSeats_unfold;
    (destruct (arrayGet_in_range players idx Hidx) as [p Hp]);
    rewrite Hp; cbn [mbind option_bind];
    destruct (Player.cannotAct p); try by eexists _, _.
  apply IH. apply Z.rem_bound_pos; lia.
Qed.

Lemma arrayGet_fmap {A B} (f : A → B) (arr : list A) i :
  arrayGet (f <$> arr) i = f <$> arrayGet arr i.
Proof. unfold arrayGet. case_decide; [apply list_lookup_fmap|done]. Qed.

Lemma canAct_clearBet p :
  Player.isActive (Player.clearBet p) = true
  ∧ Player.isAllIn (Player.clearBet p) = false
  ↔ Player.cannotAct p = false.
Proof.
  unfold Player.cannotAct. destruct p as [? ? ? ? ? [] [] ? ? ?]; simpl;
    intuition congruence.
Qed.

Lemma activeNonAllIn_nil players :
  length (filter (λ p, Player.isActive p = true ∧ Player.isAllIn p = false)
            (Player.clearBet <$> players)) = 0%nat
  ↔ Forall (λ q, Player.cannotAct q = true) players.
Proof.
  rewrite length_zero_iff_nil.
  induction players as [|p l IH]; [by split|].
  rewrite fmap_cons, filter_cons, Forall_cons.
  pose proof (canAct_clearBet p) as Hp.
  case_decide as Hd.
  - apply Hp in Hd. split; [done|]. intros [Hc _]. congruence.
  - rewrite IH. split; [|tauto]. intros Hl. split; [|done].
    destruct (Player.cannotAct p); [done|]. by destruct Hd; apply Hp.
Qed.

Lemma sumChips_clearBet players :
  sumChips (Player.clearBet <$> players) = sumChips players.
Proof.
  unfold sumChips. induction players as [|p l IH]; [done|].
  csimpl. by rewrite IH.
Qed.

(** The state a dealing phase moves to when a seat can still act. *)
Lemma nextPhaseFrom_deals fuel now state :
  dealingPhase (GameState.phase state) →
  (S (streetCards (GameState.phase state))
   ≤ length (GameState.deck state))%nat →
  GameState.players state ≠ [] → -1 ≤ GameState.dealerIndex state →
  ∃ burn dealt deck' firstActor left,
    GameState.deck state = deck' ++ reverse dealt ++ [burn]
    ∧ length dealt = streetCards (GameState.phase state)
    ∧ scanSeats (Player.clearBet <$> GameState.players state) 10
        (Z.rem (GameState.dealerIndex state + 1)
           (Z.of_nat (length (GameState.players state))))
      = Some (firstActor, left)
    ∧ 0 ≤ firstActor < Z.of_nat (length (GameState.players state))
    ∧ let auto :=
        bool_decide (Forall (λ q, Player.cannotAct q = true)
                       (GameState.players state)) in
      let next :=
        GameState.mk (nextStreet (GameState.phase state))
          (GameState.pot state) (GameState.communityCards state ++ dealt)
          deck' (Player.clearBet <$> GameState.players state) firstActor
          (GameState.dealerIndex state) BIG_BLIND 0 (Some firstActor)
          (GameState.roundLog state
             ++ [LogStreet (nextStreet (GameState.phase state)) auto])
          (GameState.deckColor state) (GameState.winners state)
          (GameState.winningHandDesc state) (GameState.lastPotSize state)
          (GameState.handHistory state) (GameState.handCount state) in
      nextPhaseFrom (S fuel) now state
      = if auto then nextPhaseFrom fuel now next else Some next.
Proof.
  intros Hphase Hdeck Hne Hdealer.
  destruct (dealStreet_deals _ (GameState.communityCards state) _ Hphase
              Hdeck) as (burn & dealt & deck' & Hdeal & Hd & Hlen).
  assert (0 < Z.of_nat (length (GameState.players state))) as Hn
    by (destruct (GameState.players state); [done|simpl; lia]).
  destruct (scanSeats_is_Some (Player.clearBet <$> GameState.players state)
              10 (Z.rem (GameState.dealerIndex state + 1)
                    (Z.of_nat (length (GameState.players state)))))
    as (firstActor & left & Hscan & Hrange).
  { rewrite length_fmap. apply Z.rem_bound_pos; lia. }
  rewrite length_fmap in Hrange.
  exists burn, dealt, deck', firstActor, left.
  split; [done|]. split; [done|]. split; [done|]. split; [done|].
  cbv zeta. rewrite nextPhaseFrom_unfold. cbv zeta.
  rewrite decide_False
    by (destruct Hphase as [Hp|[Hp|Hp]]; rewrite Hp; done).
  rewrite Hdeal. cbn [mbind option_bind]. rewrite Hscan.
  cbn [mbind option_bind].
  assert (nextStreet (GameState.phase state) ≠ SHOWDOWN) as Hns
    by (destruct Hphase as [Hp|[Hp|Hp]]; rewrite Hp; done).
  pose proof (activeNonAllIn_nil (GameState.players state)) as Hauto.
  destruct (decide (Forall (λ q, Player.cannotAct q = true)
                      (GameState.players state))) as [Hall|Hsome].
  - rewrite !bool_decide_eq_true_2; [done|done|]. split; [|done].
    by apply Hauto.
  - rewrite !bool_decide_eq_false_2; [done|done|].
    intros [Hz _]. by apply Hsome, Hauto.
Qed.

(** X14: advancing from pre-flop, flop or turn while some seat can act.
    With a seat at the table, a valid dealer index and enough cards,
    [nextPhase] returns the next street: one card is burnt and three
    (flop) or one (turn, river) cards go from the top of the deck to the
    board, every seat's [currentBet] and the table's [currentBet] are reset
    to 0, [minBet] to the big blind, the pot and the stacks are untouched,
    no card of a duplicate-free board and deck appears twice afterwards,
    and the turn goes to the first seat after the dealer that can act (if
    it is at most ten seats further on), which also becomes
    [lastRaiserIndex]. *)
Theorem nextPhase_deals_street now state :
  dealingPhase (GameState.phase state) →
  (S (streetCards (GameState.phase state))
   ≤ length (GameState.deck state))%nat →
  -1 ≤ GameState.dealerIndex state →
  (∃ q, q ∈ GameState.players state ∧ Player.cannotAct q = false) →
  ∃ state' burn dealt,
    nextPhase now state = Some state'
    ∧ GameState.phase state' = nextStreet (GameState.phase state)
    ∧ GameState.communityCards state'
      = GameState.communityCards state ++ dealt
    ∧ length dealt = streetCards (GameState.phase state)
    ∧ GameState.deck state
      = GameState.deck state' ++ reverse dealt ++ [burn]
    ∧ (NoDup (GameState.communityCards state ++ GameState.deck state) →
       NoDup (GameState.communityCards state' ++ GameState.deck state'))
    ∧ GameState.players state'
      = Player.clearBet <$> GameState.players state
    ∧ sumChips (GameState.players state')
      = sumChips (GameState.players state)
    ∧ GameState.pot state' = GameState.pot state
    ∧ GameState.currentBet state' = 0
    ∧ GameState.minBet state' = BIG_BLIND
    ∧ GameState.lastRaiserIndex state'
      = Some (GameState.currentPlayerIndex state')
    ∧ ∀ k p,
        let n := Z.of_nat (length (GameState.players state)) in
        let seatAfter (j : nat) :=
          (GameState.dealerIndex state + 1 + Z.of_nat j) `mod` n in
        (k ≤ 10)%nat →
        (∀ j, (j < k)%nat →
           ∃ q, arrayGet (GameState.players state) (seatAfter j) = Some q
                ∧ Player.cannotAct q = true) →
        arrayGet (GameState.players state) (seatAfter k) = Some p →
        Player.cannotAct p = false →
        GameState.currentPlayerIndex state' = seatAfter k.
Proof.
  intros Hphase Hdeck Hdealer (q & Hq & Hqa).
  assert (GameState.players state ≠ []) as Hne
    by (intros Hnil; rewrite Hnil in Hq; inversion Hq).
  destruct (nextPhaseFrom_deals 3 now state Hphase Hdeck Hne Hdealer)
    as (burn & dealt & deck' & firstActor & left & Hd & Hlen & Hscan
        & Hrange & Hrun).
  cbv zeta in Hrun.
  rewrite bool_decide_eq_false_2 in Hrun.
  2:{ rewrite Forall_forall. intros Hall. specialize (Hall q Hq). congruence. }
  eexists _, burn, dealt. split; [exact Hrun|].
  cbn [GameState.phase GameState.communityCards GameState.deck
       GameState.players GameState.pot GameState.currentBet GameState.minBet
       GameState.lastRaiserIndex GameState.currentPlayerIndex].
  split_and!; try done.
  - rewrite Hd. intros Hnd.
    assert (((GameState.communityCards state ++ dealt) ++ deck') ++ [burn]
            ≡ₚ GameState.communityCards state
               ++ deck' ++ reverse dealt ++ [burn]) as Hperm.
    { rewrite reverse_Permutation, <- !(assoc_L (++)). f_equiv.
      rewrite !(assoc_L (++)). f_equiv. apply Permutation_app_comm. }
    rewrite <- Hperm in Hnd. by apply NoDup_app in Hnd as [? _].
  - apply sumChips_clearBet.
  - cbv zeta. intros k p.
    set (n := Z.of_nat (length (GameState.players state))).
    intros Hk Hblocked Hp Hact.
    assert (0 < n) as Hn
      by (unfold n; destruct (GameState.players state); [done|simpl; lia]).
    assert (Player.clearBet <$> GameState.players state ≠ []) as Hne'
      by (by destruct (GameState.players state)).
    assert (∀ j : nat,
              ((GameState.dealerIndex state + 1) `mod` n + Z.of_nat j) `mod` n
              = (GameState.dealerIndex state + 1 + Z.of_nat j) `mod` n)
      as Hseat.
    { intros j. by rewrite Zplus_mod_idemp_l. }
    rewrite Z.rem_mod_nonneg in Hscan by lia. fold n in Hscan.
    rewrite (scanSeats_found _ Hne' 10 _ k (Player.clearBet p)) in Hscan.
    + injection Hscan as <- _. rewrite length_fmap. fold n. apply Hseat.
    + rewrite length_fmap. fold n. by apply Z.mod_pos_bound.
    + intros j Hj. rewrite length_fmap. fold n. rewrite Hseat.
      destruct (Hblocked j Hj) as (q' & Hq' & Hqb).
      exists (Player.clearBet q'). by rewrite arrayGet_fmap, Hq'.
    + rewrite length_fmap. fold n. by rewrite Hseat, arrayGet_fmap, Hp.
    + done.
    + done.
Qed.

Lemma nextPhase_deals_street_witness :
  ∃ state',
    nextPhase "12:00:00"
      (dealtTable TURN 60
         [card ACE DIAMONDS; card NINE CLUBS; card SEVEN HEARTS;
          card FOUR SPADES]
         [card TWO CLUBS; card THREE CLUBS; card FIVE CLUBS]
         [seatWith "p1" 980 20 [] true false;
          seatWith "bot_0" 1000 0 [] false false;
          seatWith "bot_1" 980 20 [] true false] 0)
    = Some state'
    ∧ GameState.phase state' = RIVER
    ∧ GameState.currentPlayerIndex state' = 2.
Proof.
  destruct (nextPhase_deals_street "12:00:00"
              (dealtTable TURN 60
                 [card ACE DIAMONDS; card NINE CLUBS; card SEVEN HEARTS;
                  card FOUR SPADES]
                 [card TWO CLUBS; card THREE CLUBS; card FIVE CLUBS]
                 [seatWith "p1" 980 20 [] true false;
                  seatWith "bot_0" 1000 0 [] false false;
                  seatWith "bot_1" 980 20 [] true false] 0))
    as (state' & burn & dealt & Hret & Hphase & _ & _ & _ & _ & _ & _ & _ & _
        & _ & _ & Hfirst).
  - unfold dealingPhase. simpl. auto.
  - simpl. lia.
  - simpl. lia.
  - exists (seatWith "p1" 980 20 [] true false). split; [by left|done].
  - exists state'. split; [done|]. split; [done|].
    apply (Hfirst 1%nat (seatWith "bot_1" 980 20 [] true false)).
    + lia.
    + intros j Hj. assert (j = 0%nat) as -> by lia.
      eexists. split; reflexivity.
    + reflexivity.
    + reflexivity.
Defined.

Lemma clearBet_idemp (players : list Player.t) :
  Player.clearBet <$> (Player.clearBet <$> players)
  = Player.clearBet <$> players.
Proof. rewrite <- list_fmap_compose. by apply list_fmap_ext. Qed.

Lemma activeSeats_clearBet (players : list Player.t) :
  activeSeats (Player.clearBet <$> players) = [] ↔ activeSeats players = [].
Proof.
  unfold activeSeats. induction players as [|p l IH]; [done|].
  rewrite fmap_cons, !filter_cons. cbn [Player.clearBet Player.isActive].
  case_decide; [done|]. exact IH.
Qed.

(** With nobody able to act, [nextPhase] deals the board out and settles
    the hand. *)
Lemma nextPhaseFrom_runs_out now fuel state :
  (streetsLeft (GameState.phase state) ≤ fuel)%nat →
  dealingPhase (GameState.phase state) ∨ GameState.phase state = RIVER →
  -1 ≤ GameState.dealerIndex state →
  Forall (λ q, Player.cannotAct q = true) (GameState.players state) →
  activeSeats (GameState.players state) ≠ [] →
  (deckNeeded (GameState.phase state) ≤ length (GameState.deck state))%nat →
  ∃ state' dealt used best,
    nextPhaseFrom fuel now state = Some state'
    ∧ GameState.phase state' = SHOWDOWN
    ∧ GameState.pot state' = 0
    ∧ GameState.lastPotSize state' = GameState.pot state
    ∧ GameState.communityCards state'
      = GameState.communityCards state ++ dealt
    ∧ length dealt = cardsToCome (GameState.phase state)
    ∧ GameState.deck state = GameState.deck state' ++ used
    ∧ length used = deckNeeded (GameState.phase state)
    ∧ dealt `sublist_of` reverse used
    ∧ GameState.winners state' ≠ []
    ∧ (∀ p, p ∈ activeSeats (Player.clearBet <$> GameState.players state) →
            handScore (GameState.communityCards state') p ≤ best)
    ∧ GameState.winners state'
      = filter (λ p, handScore (GameState.communityCards state') p = best)
          (activeSeats (Player.clearBet <$> GameState.players state))
    ∧ GameState.players state'
      = creditWinners (GameState.winners state')
          (GameState.pot state
           / Z.of_nat (length (GameState.winners state')))
        <$> (Player.clearBet <$> GameState.players state).
Proof.
  revert state. induction fuel as [|fuel IH];
    intros state Hfuel Hphase Hdealer Hall Hact Hdeck.
  { destruct Hphase as [[Hp|[Hp|Hp]]|Hp]; rewrite Hp in Hfuel; simpl in Hfuel;
      lia. }
  destruct Hphase as [Hphase|Hriver].
  - assert (GameState.players state ≠ []) as Hne
      by (intros Hnil; by rewrite Hnil in Hact).
    assert (S (streetCards (GameState.phase state))
            ≤ length (GameState.deck state))%nat as Hdeck'
      by (destruct Hphase as [Hp|[Hp|Hp]]; rewrite Hp in Hdeck |- *;
          simpl in *; lia).
    destruct (nextPhaseFrom_deals fuel now state Hphase Hdeck' Hne Hdealer)
      as (burn & dealt & deck' & firstActor & left & Hd & Hlen & _ & _
          & Hrun).
    cbv zeta in Hrun. rewrite bool_decide_eq_true_2 in Hrun by done.
    rewrite Hrun. clear Hrun.
    match goal with
    | |- context [nextPhaseFrom fuel now ?next] => set (next' := next)
    end.
    destruct (IH next') as (state' & dealt' & used & best & Hret & Hsd & Hpot
                            & Hlast & Hboard & Hlen' & Hdk & Hused & Hsub
                            & Hwin & Hmax & Hwinners & Hplayers).
    + subst next'. cbn [GameState.phase].
      destruct Hphase as [Hp|[Hp|Hp]]; rewrite Hp in Hfuel |- *;
        simpl in *; lia.
    + subst next'. cbn [GameState.phase].
      destruct Hphase as [Hp|[Hp|Hp]]; rewrite Hp; unfold dealingPhase;
        simpl; auto.
    + done.
    + subst next'. cbn [GameState.players]. by apply Forall_fmap.
    + subst next'. cbn [GameState.players]. by rewrite activeSeats_clearBet.
    + subst next'. cbn [GameState.phase GameState.deck].
      rewrite Hd, !length_app, length_reverse, Hlen in Hdeck. simpl in Hdeck.
      destruct Hphase as [Hp|[Hp|Hp]]; rewrite Hp in Hdeck |- *;
        simpl in *; lia.
    + subst next'.
      cbn [GameState.phase GameState.pot GameState.communityCards
           GameState.deck GameState.players] in *.
      rewrite clearBet_idemp in Hmax, Hwinners, Hplayers.
      exists state', (dealt ++ dealt'), (used ++ reverse dealt ++ [burn]),
        best.
      split_and!; try assumption.
      * by rewrite Hboard, (assoc_L (++)).
      * rewrite length_app, Hlen, Hlen'.
        destruct Hphase as [Hp|[Hp|Hp]]; rewrite Hp; simpl; lia.
      * by rewrite Hd, Hdk, <- (assoc_L (++)).
      * rewrite !length_app, length_reverse, Hlen, Hused. simpl.
        destruct Hphase as [Hp|[Hp|Hp]]; rewrite Hp; simpl; lia.
      * rewrite !reverse_app, reverse_involutive. simpl.
        apply sublist_cons, sublist_app; [done|exact Hsub].
  - rewrite nextPhaseFrom_unfold. cbv zeta.
    rewrite decide_True by done.
    destruct (handleShowdown_result now
                (GameState.withPlayers
                   (Player.clearBet <$> GameState.players state) state))
      as (best & winners & Hmax & Hbest & Hw & Hret).
    { cbn [GameState.withPlayers GameState.players].
      by rewrite activeSeats_clearBet. }
    cbn [GameState.withPlayers GameState.players GameState.communityCards
         GameState.deck GameState.pot] in *.
    cbv zeta in Hret.
    eexists _, [], [], best. split; [exact Hret|].
    cbn [GameState.phase GameState.pot GameState.lastPotSize
         GameState.communityCards GameState.deck GameState.winners
         GameState.players].
    rewrite Hriver, !(right_id_L [] (++)).
    split_and!; try done.
    destruct Hbest as (p & Hp & Hpb). intros Hnil.
    assert (p ∈ winners) as Hin
      by (rewrite Hw; apply list_elem_of_filter; by split).
    rewrite Hnil in Hin. inversion Hin.
Qed.

(** X15: running the board out.  From pre-flop, flop, turn or river, when
    no seat can act (each is folded or all-in) but a seat is still in the
    hand, and the deck holds the cards needed (8, 4, 2, 0: one burn per
    street), [nextPhase] returns the settled hand: the phase is [SHOWDOWN],
    the pot is 0 and recorded as [lastPotSize], the board has received the
    5, 2, 1 or 0 missing cards, all taken in order from the top of the
    deck, the winners are the active seats whose hand scores highest on the
    final board, and each winner's seat is credited [floor(pot / n)] on
    top of the stacks held before. *)
Theorem nextPhase_runs_out now state :
  dealingPhase (GameState.phase state) ∨ GameState.phase state = RIVER →
  -1 ≤ GameState.dealerIndex state →
  Forall (λ q, Player.cannotAct q = true) (GameState.players state) →
  activeSeats (GameState.players state) ≠ [] →
  (deckNeeded (GameState.phase state) ≤ length (GameState.deck state))%nat →
  ∃ state' dealt used best,
    nextPhase now state = Some state'
    ∧ GameState.phase state' = SHOWDOWN
    ∧ GameState.pot state' = 0
    ∧ GameState.lastPotSize state' = GameState.pot state
    ∧ GameState.communityCards state'
      = GameState.communityCards state ++ dealt
    ∧ length dealt = cardsToCome (GameState.phase state)
    ∧ GameState.deck state = GameState.deck state' ++ used
    ∧ length used = deckNeeded (GameState.phase state)
    ∧ dealt `sublist_of` reverse used
    ∧ GameState.winners state' ≠ []
    ∧ (∀ p, p ∈ activeSeats (Player.clearBet <$> GameState.players state) →
            handScore (GameState.communityCards state') p ≤ best)
    ∧ GameState.winners state'
      = filter (λ p, handScore (GameState.communityCards state') p = best)
          (activeSeats (Player.clearBet <$> GameState.players state))
    ∧ GameState.players state'
      = creditWinners (GameState.winners state')
          (GameState.pot state
           / Z.of_nat (length (GameState.winners state')))
        <$> (Player.clearBet <$> GameState.players state).
Proof.
  intros Hphase. unfold nextPhase. apply nextPhaseFrom_runs_out; [|done].
  destruct Hphase as [[Hp|[Hp|Hp]]|Hp]; rewrite Hp; simpl; lia.
Qed.

Lemma nextPhase_runs_out_witness :
  ∃ state',
    nextPhase "12:00:00"
      (dealtTable FLOP 400
         [card ACE DIAMONDS; card NINE CLUBS; card SEVEN HEARTS]
         [card TWO CLUBS; card THREE CLUBS; card FIVE CLUBS; card SIX CLUBS;
          card EIGHT DIAMONDS]
         [seatWith "p1" 0 200 [card ACE SPADES; card KING SPADES] true true;
          seatWith "bot_0" 1000 0 [] false false;
          seatWith "bot_1" 0 200 [card QUEEN HEARTS; card JACK HEARTS]
            true true] 0)
    = Some state'
    ∧ GameState.phase state' = SHOWDOWN
    ∧ GameState.pot state' = 0
    ∧ length (GameState.communityCards state') = 5%nat.
Proof.
  destruct (nextPhase_runs_out "12:00:00"
              (dealtTable FLOP 400
                 [card ACE DIAMONDS; card NINE CLUBS; card SEVEN HEARTS]
                 [card TWO CLUBS; card THREE CLUBS; card FIVE CLUBS;
                  card SIX CLUBS; card EIGHT DIAMONDS]
                 [seatWith "p1" 0 200 [card ACE SPADES; card KING SPADES]
                    true true;
                  seatWith "bot_0" 1000 0 [] false false;
                  seatWith "bot_1" 0 200 [card QUEEN HEARTS; card JACK HEARTS]
                    true true] 0))
    as (state' & dealt & used & best & Hret & Hphase & Hpot & _ & Hboard
        & Hlen & _).
  - left. unfold dealingPhase. simpl. auto.
  - simpl. lia.
  - repeat constructor.
  - done.
  - simpl. lia.
  - exists state'. split; [done|]. split; [done|]. split; [done|].
    rewrite Hboard, length_app, Hlen. reflexivity.
Defined.

(** ** Starting-hand grading: what the heuristic does on every hand *)

Lemma elem_of_createDeck (c : Card) : c ∈ createDeck.
Proof.
  destruct c as [r s]. unfold createDeck, SUITS, RANKS.
  destruct s, r; set_solver.
Qed.

(** A property of two cards checked on the whole deck holds of all cards. *)
Lemma two_cards_ind (P : Card → Card → Prop)
    `{!∀ h0 h1, Decision (P h0 h1)} :
  bool_decide (Forall (λ h0, Forall (P h0) createDeck) createDeck) = true →
  ∀ h0 h1, P h0 h1.
Proof.
  intros Hall%bool_decide_eq_true h0 h1.
  rewrite Forall_forall in Hall.
  specialize (Hall h0 (elem_of_createDeck h0)).
  rewrite Forall_forall in Hall. apply Hall, elem_of_createDeck.
Qed.

Lemma chenScore_pair_comm c1 c2 :
  getCardValue c1 = getCardValue c2 → chenScore c1 c2 = chenScore c2 c1.
Proof.
  intros Hv. unfold chenScore. cbv zeta. rewrite Hv.
  rewrite (decide_ext (suit c2 = suit c1) (suit c1 = suit c2)) by done.
  apply decide_ext. naive_solver.
Qed.

Lemma gradeStartingHand_swap h0 h1 :
  gradeStartingHand [h0; h1] = gradeStartingHand [h1; h0].
Proof.
  unfold gradeStartingHand.
  destruct (decide (getCardValue h1 ≤ getCardValue h0)) as [H1|H1],
    (decide (getCardValue h0 ≤ getCardValue h1)) as [H2|H2]; try done;
    [|lia].
  by rewrite (chenScore_pair_comm h0 h1) by lia.
Qed.

(** X16: the grade of a starting hand does not depend on the order in which
    the cards are held. *)
Theorem gradeStartingHand_order_independent hand hand' :
  hand ≡ₚ hand' → gradeStartingHand hand = gradeStartingHand hand'.
Proof.
  intros Hperm.
  destruct hand as [|h0 [|h1 [|h2 hand]]].
  - by apply Permutation_nil_l in Hperm as ->.
  - by apply Permutation_singleton_l in Hperm as ->.
  - pose proof (Permutation_length Hperm) as Hlen.
    destruct hand' as [|k0 [|k1 [|k2 hand']]]; try done.
    assert (k0 = h0 ∧ k1 = h1 ∨ k0 = h1 ∧ k1 = h0) as [[-> ->]|[-> ->]].
    { assert (k0 ∈ [h0; h1]) as Hk0 by (rewrite Hperm; set_solver).
      assert (k1 ∈ [h0; h1]) as Hk1 by (rewrite Hperm; set_solver).
      assert (h0 ∈ [k0; k1]) as Hh0 by (rewrite <- Hperm; set_solver).
      assert (h1 ∈ [k0; k1]) as Hh1 by (rewrite <- Hperm; set_solver).
      set_unfold. naive_solver. }
    + done.
    + apply gradeStartingHand_swap.
  - pose proof (Permutation_length Hperm) as Hlen.
    destruct hand' as [|k0 [|k1 [|k2 hand']]]; done.
Qed.

Lemma gradeStartingHand_order_independent_witness :
  gradeStartingHand [card SEVEN CLUBS; card KING HEARTS]
  = gradeStartingHand [card KING HEARTS; card SEVEN CLUBS].
Proof.
  apply gradeStartingHand_order_independent. apply Permutation_swap.
Defined.

(** X17: the grade ["?"] marks exactly the inputs that are not two cards,
    which all get score 0 and the tip to wait for the deal. *)
Theorem gradeStartingHand_waits hand :
  (HandGrade.grade (gradeStartingHand hand) = "?" ↔ length hand ≠ 2%nat)
  ∧ (gradeStartingHand hand = HandGrade.mk 0 "?" "Wait for deal"
     ↔ length hand ≠ 2%nat).
Proof.
  destruct hand as [|h0 [|h1 [|h2 hand]]]; try (by split; split).
  unfold gradeStartingHand. cbv zeta.
  split; (split; [|done]); repeat case_decide; done.
Qed.

(** X18: the scores and grades of two-card hands.  The score lies between
    -1 and 22; a pocket pair scores at least 5 and is never graded F; with
    two different cards the score is at most 20, grade S is given to pocket
    aces only and grade A to pocket kings only. *)
Theorem gradeStartingHand_range h0 h1 :
  let g := gradeStartingHand [h0; h1] in
  -1 ≤ HandGrade.score g ≤ 22
  ∧ (rank h0 = rank h1 → 5 ≤ HandGrade.score g ∧ HandGrade.grade g ≠ "F")
  ∧ (h0 ≠ h1 →
     HandGrade.score g ≤ 20
     ∧ (HandGrade.grade g = "S" ↔ rank h0 = ACE ∧ rank h1 = ACE)
     ∧ (HandGrade.grade g = "A" ↔ rank h0 = KING ∧ rank h1 = KING)).
Proof.
  cbv zeta. pattern h0, h1.
  match goal with |- ?P h0 h1 => apply (two_cards_ind P) end.
  by vm_compute.
Qed.

(** The heuristic looks at the two ranks and at whether the suits agree. *)
Lemma chenScore_suits c1 c2 d1 d2 :
  rank c1 = rank d1 → rank c2 = rank d2 →
  (suit c1 = suit c2 ↔ suit d1 = suit d2) →
  chenScore c1 c2 = chenScore d1 d2.
Proof.
  intros Hr1 Hr2 Hs. unfold chenScore, getCardValue. cbv zeta.
  rewrite Hr1, Hr2.
  rewrite (decide_ext (suit c1 = suit c2) (suit d1 = suit d2)) by done.
  apply decide_ext. naive_solver.
Qed.

Lemma gradeStartingHand_suits h0 h1 k0 k1 :
  rank h0 = rank k0 → rank h1 = rank k1 →
  (suit h0 = suit h1 ↔ suit k0 = suit k1) →
  gradeStartingHand [h0; h1] = gradeStartingHand [k0; k1].
Proof.
  intros Hr0 Hr1 Hs. unfold gradeStartingHand.
  assert (getCardValue h0 = getCardValue k0) as Hv0
    by (unfold getCardValue; by rewrite Hr0).
  assert (getCardValue h1 = getCardValue k1) as Hv1
    by (unfold getCardValue; by rewrite Hr1).
  rewrite Hv0, Hv1.
  destruct (decide (getCardValue k1 ≤ getCardValue k0)).
  - by rewrite (chenScore_suits h0 h1 k0 k1).
  - rewrite (chenScore_suits h1 h0 k1 k0); [done..|]. naive_solver.
Qed.

(** X19: what being suited is worth.  Two cards of one suit score exactly
    2 more than the same ranks in two different suits, and 3 more when the
    ranks are equal or adjacent and the higher one is below a queen. *)
Theorem gradeStartingHand_suited r0 r1 s s0 s1 :
  s0 ≠ s1 →
  HandGrade.score (gradeStartingHand [mkCard r0 s; mkCard r1 s])
  = HandGrade.score (gradeStartingHand [mkCard r0 s0; mkCard r1 s1])
    + (if decide (Z.abs (RANK_VALUE r0 - RANK_VALUE r1) ≤ 1
                  ∧ Z.max (RANK_VALUE r0) (RANK_VALUE r1) < 12)
       then 3 else 2).
Proof.
  intros Hs.
  rewrite (gradeStartingHand_suits (mkCard r0 s) (mkCard r1 s)
             (mkCard r0 HEARTS) (mkCard r1 HEARTS)) by done.
  rewrite (gradeStartingHand_suits (mkCard r0 s0) (mkCard r1 s1)
             (mkCard r0 HEARTS) (mkCard r1 DIAMONDS)) by done.
  destruct r0, r1; by vm_compute.
Qed.

Lemma gradeStartingHand_suited_witness :
  HandGrade.score (gradeStartingHand [card JACK SPADES; card TEN SPADES])
  = HandGrade.score (gradeStartingHand [card JACK HEARTS; card TEN CLUBS])
    + 3.
Proof. apply (gradeStartingHand_suited JACK TEN SPADES HEARTS CLUBS). done.
Defined.

(** ** The evaluator's decision order at the top of the chain *)

(** The flush check in terms of the cards: none when no suit is held five
    times, otherwise the highest card of such a suit. *)
Lemma flushTop_None cards :
  flushTop cards = None
  ↔ ∀ s, (occ s (suit <$> cards) < 5)%nat.
Proof.
  unfold flushTop. rewrite head_None.
  set (flushCards := filter _ cards).
  assert (sortDescBy id (getCardValue <$> flushCards) = []
          ↔ flushCards = []) as ->.
  { split.
    - intros Hnil. apply (f_equal length) in Hnil.
      rewrite sortDescBy_length, length_fmap in Hnil.
      by apply nil_length_inv.
    - by intros ->. }
  split.
  - intros Hnone s.
    destruct (decide (5 ≤ occ s (suit <$> cards))%nat) as [Hs|Hs]; [|lia].
    assert (s ∈ suit <$> cards) as (c & -> & Hc)%list_elem_of_fmap
      by (apply occ_pos; lia).
    assert (c ∈ flushCards) as Hin by (apply list_elem_of_filter; by split).
    rewrite Hnone in Hin. inversion Hin.
  - intros Hlt. destruct flushCards as [|c l] eqn:Hfc; [done|].
    assert (c ∈ flushCards) as [Hocc _]%list_elem_of_filter
      by (rewrite Hfc; left).
    specialize (Hlt (suit c)). lia.
Qed.

Lemma descBy_head {A} (key : A → Z) x l y :
  descBy key (x :: l) → y ∈ x :: l → key y ≤ key x.
Proof.
  intros Hs [->|Hy]%elem_of_cons; [done|].
  apply StronglySorted_inv in Hs as [_ Hall].
  rewrite Forall_forall in Hall. by apply Hall.
Qed.

Lemma flushTop_max cards top :
  flushTop cards = Some top →
  ∃ c, c ∈ cards ∧ getCardValue c = top
       ∧ (5 ≤ occ (suit c) (suit <$> cards))%nat
       ∧ ∀ c', c' ∈ cards → (5 ≤ occ (suit c') (suit <$> cards))%nat →
               getCardValue c' ≤ top.
Proof.
  unfold flushTop.
  set (flushCards := filter _ cards).
  pose proof (sortDescBy_desc id (getCardValue <$> flushCards)) as Hdesc.
  pose proof (sortDescBy_perm id (getCardValue <$> flushCards)) as Hperm.
  destruct (sortDescBy id (getCardValue <$> flushCards)) as [|v vs] eqn:Hs;
    [done|].
  intros [= ->].
  assert (top ∈ getCardValue <$> flushCards) as (c & Hc & Hin)%list_elem_of_fmap
    by (rewrite <- Hperm; left).
  apply list_elem_of_filter in Hin as [Hocc Hin].
  exists c. split; [done|]. split; [done|]. split; [done|].
  intros c' Hc' Hocc'.
  apply (descBy_head id top vs (getCardValue c') Hdesc).
  rewrite Hperm. apply list_elem_of_fmap. exists c'. split; [done|].
  apply list_elem_of_filter. by split.
Qed.

(** Which of the top three categories the chain returns. *)
Lemma detectHands_top values isFlush flushCards flush sh r :
  (∀ v, v ∈ values → 2 ≤ v ≤ 14) →
  isFlush = bool_decide (is_Some flush) → flushCards !! 0%nat = flush →
  detectHands values isFlush flushCards sh = Some r →
  let quads := ∃ v, occ v values = 4%nat in
  let full := ∃ three two, three ≠ two ∧ occ three values = 3%nat
                           ∧ (2 ≤ occ two values)%nat in
  (description r = "Four of a Kind" ↔ quads)
  ∧ (description r = "Full House" ↔ ¬ quads ∧ full)
  ∧ (description r = "Flush" ↔ ¬ quads ∧ ¬ full ∧ is_Some flush).
Proof.
  intros Hbnd -> Hfc. unfold detectHands.
  set (counts := tallyValues values).
  set (dv := sortDescBy id (objectKeys counts)).
  assert (∀ v, v ∈ dv ↔ v ∈ values) as Hdv
    by (intros; apply elem_of_distinctValues).
  assert (∀ v, countOf counts v = occ v values) as Hco
    by (intros; apply countOf_tallyValues).
  destruct (list_find _ dv) as [[i v]|] eqn:Hquad.
  { apply list_find_Some in Hquad as (Hi & Hc & _).
    intros [= <-]. simpl.
    assert (∃ v, occ v values = 4%nat) as Hq
      by (exists v; by rewrite <- Hco).
    split_and!; split; try done; tauto. }
  apply list_find_None in Hquad. rewrite Forall_forall in Hquad.
  assert (¬ ∃ v, occ v values = 4%nat) as Hnq.
  { intros (v & Hv). apply (Hquad v); [|by rewrite Hco].
    apply Hdv, occ_pos. lia. }
  pose proof (fullHouseScan_inv values) as Hinv. fold counts dv in Hinv.
  destruct (fullHouseScan counts dv) as [three two].
  destruct Hinv as (H3 & H2 & Hdiff & Hn3 & Hn2).
  destruct (decide (three ≠ 0 ∧ two ≠ 0)) as [[Ht Hw]|Hnf].
  { intros [= <-]. simpl.
    assert (∃ three two, three ≠ two ∧ occ three values = 3%nat
                         ∧ (2 ≤ occ two values)%nat) as Hf.
    { destruct H3 as [?|[? ?]]; [done|]. destruct H2 as [?|[? ?]]; [done|].
      exists three, two. auto. }
    split_and!; split; try done; tauto. }
  assert (¬ ∃ t w, t ≠ w ∧ occ t values = 3%nat
                   ∧ (2 ≤ occ w values)%nat) as Hnfull.
  { intros (t & w & Htw & Hot & How).
    assert (t ∈ values) as Htin by (apply occ_pos; lia).
    assert (w ∈ values) as Hwin by (apply occ_pos; lia).
    pose proof (Hbnd _ Htin). pose proof (Hbnd _ Hwin).
    destruct (decide (three = 0)) as [Hz|Hz].
    { apply (Hn3 Hz t); [by apply Hdv|lia|done]. }
    assert (two = 0) as Hz2 by (apply dec_stable; tauto).
    destruct (decide (w = three)) as [->|Hwt].
    - assert (occ t values < 2)%nat; [|lia].
      apply (Hn2 Hz2 t); [by apply Hdv|lia|done].
    - assert (occ w values < 2)%nat; [|lia].
      apply (Hn2 Hz2 w); [by apply Hdv|lia|done]. }
  destruct flush as [top|]; simpl.
  { rewrite Hfc. simpl. intros [= <-]. simpl.
    split_and!; split; try done; tauto. }
  intros Hr.
  assert (description r ∈ ["Straight"; "Three of a Kind"; "Two Pair"; "Pair";
                           "High Card"]) as Hd.
  { repeat case_decide; simplify_option_eq; set_solver. }
  split_and!; split; try tauto;
    first [ intros (_ & _ & [? ?]); done
          | intros Heq; rewrite Heq in Hd; set_solver ].
Qed.

(** The same on an evaluation, in terms of the cards held. *)
Lemma evaluateHand_top holeCards communityCards r :
  holeCards ++ communityCards ≠ [] →
  evaluateHand holeCards communityCards = Some r →
  let cards := holeCards ++ communityCards in
  let values := getCardValue <$> cards in
  let quads := ∃ v, occ v values = 4%nat in
  let full := ∃ three two, three ≠ two ∧ occ three values = 3%nat
                           ∧ (2 ≤ occ two values)%nat in
  let flush := ∃ s, (5 ≤ occ s (suit <$> cards))%nat in
  (description r = "Four of a Kind" ↔ quads)
  ∧ (description r = "Full House" ↔ ¬ quads ∧ full)
  ∧ (description r = "Flush" ↔ ¬ quads ∧ ¬ full ∧ flush)
  ∧ (is_Some (flushTop cards) ↔ flush).
Proof.
  intros Hne Hr. cbv zeta.
  destruct (evaluateHand_shape _ _ Hne) as (sh & r' & Hsh & Hr' & _).
  rewrite Hr in Hr'. injection Hr' as <-.
  rewrite evaluateHand_canonical in Hr. cbv zeta in Hr.
  rewrite decide_False in Hr by (intros Hl; by apply Hne, nil_length_inv).
  cbv zeta in Hsh. rewrite Hsh in Hr. simpl in Hr.
  apply (detectHands_top _ _ _ (flushTop (holeCards ++ communityCards))) in Hr;
    [|apply sorted_values_bounds|done
     |by destruct (flushTop (holeCards ++ communityCards))].
  cbv zeta in Hr. destruct Hr as (Hq & Hf & Hfl).
  assert (∀ v,
            occ v (sortDescBy id
                     (getCardValue <$> holeCards ++ communityCards))
            = occ v (getCardValue <$> holeCards ++ communityCards)) as Hocc
    by (intros; apply occ_sorted_values).
  setoid_rewrite Hocc in Hq. setoid_rewrite Hocc in Hf.
  setoid_rewrite Hocc in Hfl.
  assert (is_Some (flushTop (holeCards ++ communityCards))
          ↔ ∃ s, (5 ≤ occ s (suit <$> holeCards ++ communityCards))%nat)
    as Hfl'.
  { rewrite <- not_eq_None_Some, flushTop_None.
    set (suits := suit <$> holeCards ++ communityCards). split.
    - intros Hn.
      destruct (decide (5 ≤ occ HEARTS suits)%nat); [by eexists|].
      destruct (decide (5 ≤ occ DIAMONDS suits)%nat); [by eexists|].
      destruct (decide (5 ≤ occ CLUBS suits)%nat); [by eexists|].
      destruct (decide (5 ≤ occ SPADES suits)%nat); [by eexists|].
      destruct Hn. intros []; lia.
    - intros (s & Hs) Hall. specialize (Hall s). lia. }
  rewrite Hfl' in Hfl. done.
Qed.

(** X20: the top of the decision chain.  Every evaluation returns, and its
    category is decided in this order: Four of a Kind exactly when some
    rank is held four times; otherwise Full House exactly when one rank is
    held three times and another twice or more; otherwise Flush exactly
    when some suit is held five times or more, whatever the ranks (a
    straight flush is reported as a Flush).  A Flush scores 5000 plus the
    highest card of a suit held five times or more. *)
Theorem evaluateHand_top_categories holeCards communityCards :
  let cards := holeCards ++ communityCards in
  let values := getCardValue <$> cards in
  let quads := ∃ v, occ v values = 4%nat in
  let full := ∃ three two, three ≠ two ∧ occ three values = 3%nat
                           ∧ (2 ≤ occ two values)%nat in
  let flush := ∃ s, (5 ≤ occ s (suit <$> cards))%nat in
  ∃ r,
    evaluateHand holeCards communityCards = Some r
    ∧ (description r = "Four of a Kind" ↔ quads)
    ∧ (description r = "Full House" ↔ ¬ quads ∧ full)
    ∧ (description r = "Flush" ↔ ¬ quads ∧ ¬ full ∧ flush)
    ∧ (description r = "Flush" →
       ∃ c, c ∈ cards ∧ score r = 5000 + getCardValue c
            ∧ (5 ≤ occ (suit c) (suit <$> cards))%nat
            ∧ ∀ c', c' ∈ cards → (5 ≤ occ (suit c') (suit <$> cards))%nat →
                    getCardValue c' ≤ getCardValue c).
Proof.
  intros cards values quads full flush.
  destruct (decide (cards = [])) as [Hnil|Hne].
  { exists (mkEval 0 "Waiting"). split; [by apply evaluateHand_empty|].
    unfold quads, full, flush, values. rewrite Hnil. simpl.
    split_and!; try done; split; try done.
    - by intros [? ?].
    - by intros (_ & ? & ? & _ & ? & _).
    - intros (_ & _ & s & Hs). unfold occ in Hs. simpl in Hs. lia. }
  destruct (evaluateHand_shape _ _ Hne) as (sh & r & Hsh & Hr & Hshape).
  exists r. split; [done|].
  destruct (evaluateHand_top _ _ r Hne Hr) as (Hq & Hf & Hfl & _).
  split; [done|]. split; [done|]. split; [done|].
  intros Hd. cbv zeta in Hshape.
  inversion Hshape as [| |top Htop| | | | |]; subst; try discriminate.
  destruct (flushTop_max _ _ Htop) as (c & Hc & <- & Hocc5 & Hmax).
  by exists c.
Qed.

(** ** Bets and pot *)

Lemma sumBets_insert players i p p' :
  players !! i = Some p →
  sumBets (<[i := p']> players)
  = sumBets players - Player.currentBet p + Player.currentBet p'.
Proof.
  revert i. induction players as [|q players IH]; intros [|i] Hi;
    simplify_eq/=; [lia|].
  rewrite (IH _ Hi). lia.
Qed.

Lemma sumBets_reset players : sumBets (Player.resetForHand <$> players) = 0.
Proof. induction players as [|p l IH]; [done|]. csimpl. by rewrite IH. Qed.

Lemma sumBets_dealHoleCards players deck players' deck' :
  dealHoleCards players deck = Some (players', deck') →
  sumBets players' = sumBets players.
Proof.
  revert deck players' deck'.
  induction players as [|p l IH]; intros deck players' deck' Hdeal.
  { by injection Hdeal as <- <-. }
  cbn [dealHoleCards] in Hdeal.
  destruct (Player.isActive p).
  - destruct (arrayPop deck) as [[a deck1]|]; [|done].
    cbn [mbind option_bind] in Hdeal.
    destruct (arrayPop deck1) as [[b deck2]|]; [|done].
    cbn [mbind option_bind] in Hdeal.
    destruct (dealHoleCards l deck2) as [[rest deck3]|] eqn:Hrest; [|done].
    cbn [mbind option_bind] in Hdeal. injection Hdeal as <- <-.
    simpl. by rewrite (IH _ _ _ Hrest).
  - destruct (dealHoleCards l deck) as [[rest deck3]|] eqn:Hrest; [|done].
    cbn [mbind option_bind] in Hdeal. injection Hdeal as <- <-.
    simpl. by rewrite (IH _ _ _ Hrest).
Qed.

(** X21: an action moves the same amount into the acting seat's bet and
    into the pot: the part of the pot that is not in front of the seats is
    unchanged. *)
Theorem processPlayerAction_bets_in_pot state player amount actionVerb
    displayTotal state' :
  processPlayerAction state player amount actionVerb displayTotal
  = Some state' →
  GameState.pot state' - sumBets (GameState.players state')
  = GameState.pot state - sumBets (GameState.players state).
Proof.
  intros Hrun.
  destruct (list_find (λ p, Player.id p = Player.id player)
              (GameState.players state)) as [[i p]|] eqn:Hfind.
  - destruct (processPlayerAction_fields state player amount actionVerb
                displayTotal i p Hfind) as (bubble & logMsg & Hret).
    cbv zeta in Hret. rewrite Hrun in Hret. injection Hret as ->.
    cbn [GameState.pot GameState.players].
    apply list_find_Some in Hfind as (Hi & _).
    rewrite (sumBets_insert _ _ p) by done. simpl. lia.
  - unfold processPlayerAction in Hrun. by rewrite Hfind in Hrun.
Qed.

Lemma processPlayerAction_bets_in_pot_witness :
  ∃ state',
    processPlayerAction
      (tableWith PRE_FLOP 30 []
         [seatWith "p1" 1000 0 [] true false;
          seatWith "bot_0" 990 10 [] true false;
          seatWith "bot_1" 980 20 [] true false] 0 0 20 (Some 2))
      (seatWith "p1" 1000 0 [] true false) 60 "Raises to" (Some 60)
    = Some state'
    ∧ GameState.pot state' - sumBets (GameState.players state') = 0.
Proof.
  eexists. split; [reflexivity|].
  apply (processPlayerAction_bets_in_pot
           (tableWith PRE_FLOP 30 []
              [seatWith "p1" 1000 0 [] true false;
               seatWith "bot_0" 990 10 [] true false;
               seatWith "bot_1" 980 20 [] true false] 0 0 20 (Some 2))
           (seatWith "p1" 1000 0 [] true false) 60 "Raises to" (Some 60)).
  reflexivity.
Defined.

(** X22: after hand setup at a table of two seats or more the pot is
    exactly what the seats have in front of them (the blinds), and no seat
    has more in front of it than the table's bet to match. *)
Theorem setupNewHand_bets_in_pot deck players dealerIdx handCount history
    state :
  (2 ≤ length players)%nat → -1 ≤ dealerIdx →
  setupNewHand deck players dealerIdx handCount history = Some state →
  GameState.pot state = sumBets (GameState.players state)
  ∧ Forall (λ p, Player.currentBet p ≤ GameState.currentBet state)
      (GameState.players state).
Proof.
  intros Hlen Hdealer Hrun.
  destruct (setupNewHand_Some _ _ _ _ _ _ Hrun)
    as (sbPlayer & bbPlayer & Hne & Hsb & Hbb & Hdeal & Hstate).
  cbv zeta in *.
  set (reset := Player.resetForHand <$> players) in *.
  set (len := Z.of_nat (length players)) in *.
  set (nextDealer := Z.rem (dealerIdx + 1) len) in *.
  assert (2 ≤ len) as Hlen2 by (unfold len; lia).
  assert (0 ≤ nextDealer < len) as Hnd
    by (apply rem_seat; lia).
  set (headsUp := bool_decide _) in *.
  set (sbIndex := if headsUp then nextDealer else Z.rem (nextDealer + 1) len)
    in *.
  set (bbIndex := if headsUp then Z.rem (nextDealer + 1) len
                  else Z.rem (nextDealer + 2) len) in *.
  assert (sbIndex ≠ bbIndex) as Hdiff.
  { unfold sbIndex, bbIndex. destruct headsUp.
    - rewrite <- (Z.rem_small nextDealer len) at 1 by lia.
      apply rem_succ_ne; lia.
    - replace (nextDealer + 2) with (nextDealer + 1 + 1) by lia.
      apply rem_succ_ne; lia. }
  apply arrayGet_Some in Hsb as [Hsb0 Hsb].
  apply arrayGet_Some in Hbb as [Hbb0 Hbb].
  rewrite list_lookup_insert_ne in Hbb by lia.
  assert (Player.currentBet sbPlayer = 0) as Hsbz.
  { apply list_lookup_fmap_Some in Hsb as (q & -> & _). done. }
  assert (Player.currentBet bbPlayer = 0) as Hbbz.
  { apply list_lookup_fmap_Some in Hbb as (q & -> & _). done. }
  pose proof (sumBets_dealHoleCards _ _ _ _ Hdeal) as Hsum.
  rewrite (sumBets_insert _ _ bbPlayer) in Hsum
    by (by rewrite list_lookup_insert_ne by lia).
  rewrite (sumBets_insert _ _ sbPlayer) in Hsum by done.
  unfold reset in Hsum. rewrite sumBets_reset in Hsum.
  cbn [Player.postBlind Player.currentBet] in Hsum.
  split.
  - pose proof (f_equal GameState.pot Hstate) as Hpot.
    cbn [GameState.pot] in Hpot. lia.
  - pose proof (f_equal GameState.currentBet Hstate) as Hcb.
    cbn [GameState.currentBet] in Hcb. rewrite Hcb.
    apply dealHoleCards_Some in Hdeal as [Hall _].
    eapply Forall2_Forall_r; [exact Hall|].
    apply Forall_insert; [apply Forall_insert|].
    + unfold reset. apply Forall_fmap, Forall_forall. intros q _ q' Hq'.
      destruct (Player.isActive _); [destruct Hq' as (a & b & ->)|subst q'];
        cbn; unfold BIG_BLIND; lia.
    + intros q' Hq'.
      assert (Player.currentBet q'
              = Z.min SMALL_BLIND (Player.chips sbPlayer)) as ->.
      { destruct (Player.isActive _);
          [destruct Hq' as (a & b & ->)|subst q']; done. }
      unfold SMALL_BLIND, BIG_BLIND. lia.
    + intros q' Hq'.
      assert (Player.currentBet q'
              = Z.min BIG_BLIND (Player.chips bbPlayer)) as ->.
      { destruct (Player.isActive _);
          [destruct Hq' as (a & b & ->)|subst q']; done. }
      lia.
Qed.

Lemma setupNewHand_bets_in_pot_witness :
  ∃ state,
    setupNewHand createDeck
      [seatWith "p1" 1000 0 [] true false;
       seatWith "bot_0" 5 0 [] true false;
       seatWith "bot_1" 1000 0 [] true false] (-1) 0 []
    = Some state
    ∧ GameState.pot state = 25
    ∧ sumBets (GameState.players state) = 25.
Proof.
  destruct (setupNewHand createDeck
              [seatWith "p1" 1000 0 [] true false;
               seatWith "bot_0" 5 0 [] true false;
               seatWith "bot_1" 1000 0 [] true false] (-1) 0 [])
    as [state|] eqn:Hrun; [|by vm_compute in Hrun].
  exists state. split; [done|].
  destruct (setupNewHand_bets_in_pot createDeck
              [seatWith "p1" 1000 0 [] true false;
               seatWith "bot_0" 5 0 [] true false;
               seatWith "bot_1" 1000 0 [] true false] (-1) 0 [] state)
    as [Hpot _]; [simpl; lia|lia|exact Hrun|].
  assert (GameState.pot state = 25) as Hp
    by (vm_compute in Hrun; injection Hrun as <-; reflexivity).
  split; [done|]. by rewrite <- Hpot.
Defined.

(** ** Depth of the street recursion *)

(** X23: [nextPhase] calls itself while nobody can act.  During a hand
    (pre-flop to showdown) four nested calls are enough, and a larger bound
    changes nothing; outside a hand ([MENU], [SHOP], [GAME_OVER]) with no
    seat able to act the phase never changes and no depth of recursion
    yields a result. *)
Theorem nextPhase_recursion now state :
  (GameState.phase state ∈ [PRE_FLOP; FLOP; TURN; RIVER; SHOWDOWN] →
   ∀ fuel, (4 ≤ fuel)%nat →
     nextPhaseFrom fuel now state = nextPhase now state)
  ∧ (GameState.phase state ∈ [MENU; SHOP; GAME_OVER] →
     Forall (λ q, Player.cannotAct q = true) (GameState.players state) →
     ∀ fuel, nextPhaseFrom fuel now state = None).
Proof.
  split.
  - intros Hphase fuel Hfuel. apply nextPhase_fuel; [|done].
    destruct (GameState.phase state); try done; set_solver.
  - intros Hphase Hall fuel. apply nextPhaseFrom_no_result; [|done].
    destruct (GameState.phase state); try done; set_solver.
Qed.

(** ** The straight check *)

Lemma elem_of_sublists {A} (k l : list A) :
  k `sublist_of` l → k ∈ sublists l.
Proof.
  induction 1 as [|x k l _ IH|x k l _ IH]; simpl.
  - by left.
  - apply elem_of_app. left. apply list_elem_of_fmap. by exists k.
  - apply elem_of_app. by right.
Qed.

Lemma StronglySorted_sublist {A} (R : relation A) (k l : list A) :
  k `sublist_of` l → StronglySorted R l → StronglySorted R k.
Proof.
  induction 1 as [|x k l Hsub IH|x k l _ IH]; intros Hs.
  - done.
  - apply StronglySorted_inv in Hs as [Hs Hall]. constructor; [by apply IH|].
    rewrite Forall_forall in Hall |- *. intros y Hy. apply Hall.
    by eapply elem_of_sublist.
  - apply StronglySorted_inv in Hs as [Hs _]. by apply IH.
Qed.

(** [new Set] keeps the first occurrences, in order. *)
Lemma setFromArray_foldl_spec (l acc : list Z) :
  NoDup acc →
  ∃ k, foldl (λ acc v, if decide (v ∈ acc) then acc else acc ++ [v]) acc l
       = acc ++ k
       ∧ k `sublist_of` l ∧ NoDup (acc ++ k).
Proof.
  revert acc. induction l as [|v l IH]; intros acc Hnd.
  { exists []. by rewrite (right_id_L [] (++)). }
  simpl. case_decide as Hv.
  - destruct (IH acc Hnd) as (k & -> & Hsub & Hnd').
    exists k. split; [done|]. split; [by apply sublist_cons|done].
  - destruct (IH (acc ++ [v])) as (k & -> & Hsub & Hnd').
    { apply NoDup_app. split; [done|]. split; [|apply NoDup_singleton].
      intros x Hx ->%list_elem_of_singleton. done. }
    exists (v :: k). rewrite <- (assoc_L (++)) in *.
    split; [done|]. split; [by apply sublist_skip|done].
Qed.

Lemma setFromArray_spec (l : list Z) :
  setFromArray l `sublist_of` l ∧ NoDup (setFromArray l).
Proof.
  destruct (setFromArray_foldl_spec l []) as (k & Hk & Hsub & Hnd);
    [constructor|].
  unfold setFromArray. rewrite Hk. done.
Qed.

(** The distinct values of a sorted hand are the rank values held, highest
    first. *)
Lemma uniqueSorted_ranks (values : list Z) :
  (∀ v, v ∈ values → 2 ≤ v ≤ 14) →
  setFromArray (sortDescBy id values)
  = filter (λ v, v ∈ values) rankValuesDesc.
Proof.
  intros Hbnd.
  destruct (setFromArray_spec (sortDescBy id values)) as [Hsub Hnd].
  apply (StronglySorted_unique_strong (λ a b : Z, b ≤ a)).
  - intros; lia.
  - eapply StronglySorted_sublist; [exact Hsub|].
    apply (sortDescBy_desc id).
  - eapply StronglySorted_sublist; [apply sublist_filter|].
    unfold rankValuesDesc.
    repeat (constructor; [|repeat (constructor; [lia|]); constructor]).
    constructor.
  - apply NoDup_Permutation; [done| |].
    + apply NoDup_filter. unfold rankValuesDesc.
      apply (bool_decide_unpack _). by vm_compute.
    + intros v. rewrite elem_of_setFromArray, sortDescBy_perm.
      rewrite list_elem_of_filter. split; [|tauto].
      intros Hv. split; [done|]. specialize (Hbnd v Hv).
      unfold rankValuesDesc.
      assert (v = 2 ∨ v = 3 ∨ v = 4 ∨ v = 5 ∨ v = 6 ∨ v = 7 ∨ v = 8 ∨ v = 9
              ∨ v = 10 ∨ v = 11 ∨ v = 12 ∨ v = 13 ∨ v = 14) as Hcase by lia.
      set_solver.
Qed.

(** The scan on every set of rank values. *)
Lemma straightScan_table : Forall straightChecked (sublists rankValuesDesc).
Proof. apply (bool_decide_unpack _). by vm_compute. Qed.

Lemma checkStraight_lowestRun (values : list Z) :
  (∀ v, v ∈ values → 2 ≤ v ≤ 14) →
  ∃ sh, checkStraight (sortDescBy id values) = Some sh
        ∧ lowestRun (filter (λ v, v ∈ values) rankValuesDesc) sh.
Proof.
  intros Hbnd. unfold checkStraight. cbv zeta.
  rewrite (uniqueSorted_ranks values Hbnd).
  pose proof straightScan_table as Htab. rewrite Forall_forall in Htab.
  specialize (Htab (filter (λ v, v ∈ values) rankValuesDesc)).
  unfold straightChecked in Htab.
  destruct (straightScan _ _ _ _ _) as [sh|].
  - simpl. eexists. split; [done|]. apply Htab.
    apply elem_of_sublists, sublist_filter.
  - destruct Htab. apply elem_of_sublists, sublist_filter.
Qed.

Lemma run5_ext (u u' : list Z) v :
  (∀ x, x ∈ u ↔ x ∈ u') → run5 u v ↔ run5 u' v.
Proof. intros Hu. unfold run5. by rewrite !Hu. Qed.

Lemma lowestRun_held (u values : list Z) sh :
  (∀ x, x ∈ u ↔ x ∈ values) → lowestRun u sh →
  (run5 values sh ∧ ∀ v, run5 values v → sh ≤ v)
  ∨ ((∀ v, ¬ run5 values v) ∧ wheel values ∧ sh = 5)
  ∨ ((∀ v, ¬ run5 values v) ∧ ¬ wheel values ∧ sh = 0).
Proof.
  intros Hu.
  assert (wheel u ↔ wheel values) as Hw by (unfold wheel; by rewrite !Hu).
  assert (∀ P : Z → Prop,
            (∀ v, P v → v ∈ values) → Forall (λ v, ¬ P v) u → ∀ v, ¬ P v)
    as Hnone.
  { intros P HP Hall v Hv. rewrite Forall_forall in Hall.
    apply (Hall v); [|done]. by apply Hu, HP. }
  intros [[Hrun Hmin]|[(Hno & Hwh & ->)|(Hno & Hwh & ->)]].
  - left. split; [by apply (run5_ext u)|].
    intros v Hv. rewrite Forall_forall in Hmin. apply Hmin.
    + apply Hu. by destruct Hv.
    + by apply (run5_ext u values).
  - right; left. split; [|by rewrite <- Hw].
    apply Hnone; [by intros v [? _]|].
    eapply Forall_impl; [exact Hno|]. intros v Hv. by rewrite <- (run5_ext u).
  - right; right. split; [|by rewrite <- Hw].
    apply Hnone; [by intros v [? _]|].
    eapply Forall_impl; [exact Hno|]. intros v Hv. by rewrite <- (run5_ext u).
Qed.

(** X24: the Straight category.  With no rank held four times, no full
    house and no suit held five times, the result is a Straight exactly
    when five ranks in a row or the wheel A-2-3-4-5 are held.  Its score is
    4000 plus the top of the lowest run of five held (a longer run is not
    scored by its highest card), and 4005 for the wheel alone. *)
Theorem evaluateHand_straight holeCards communityCards :
  let cards := holeCards ++ communityCards in
  let values := getCardValue <$> cards in
  let quads := ∃ v, occ v values = 4%nat in
  let full := ∃ three two, three ≠ two ∧ occ three values = 3%nat
                           ∧ (2 ≤ occ two values)%nat in
  let flush := ∃ s, (5 ≤ occ s (suit <$> cards))%nat in
  ∃ r,
    evaluateHand holeCards communityCards = Some r
    ∧ (description r = "Straight"
       ↔ ¬ quads ∧ ¬ full ∧ ¬ flush
         ∧ ((∃ v, run5 values v) ∨ wheel values))
    ∧ (description r = "Straight" →
       (run5 values (score r - 4000)
        ∧ ∀ v, run5 values v → score r - 4000 ≤ v)
       ∨ ((∀ v, ¬ run5 values v) ∧ wheel values ∧ score r = 4005)).
Proof.
  intros cards values quads full flush.
  unfold quads, full, flush; clear quads full flush.
  unfold values in *; clear values. unfold cards in *; clear cards.
  destruct (decide (holeCards ++ communityCards = [])) as [Hnil|Hne].
  { exists (mkEval 0 "Waiting"). split; [by apply evaluateHand_empty|].
    rewrite Hnil. simpl. split; [|done]. split; [done|].
    intros (_ & _ & _ & [[v [Hv _]]|[Hv _]]); inversion Hv. }
  destruct (evaluateHand_shape _ _ Hne) as (sh & r & Hsh & Hr & Hshape).
  exists r. split; [done|]. cbv zeta in Hshape.
  set (cards := holeCards ++ communityCards) in *.
  set (values := getCardValue <$> cards) in *.
  assert (∀ v, v ∈ values → 2 ≤ v ≤ 14) as Hbnd.
  { intros v (c & -> & _)%list_elem_of_fmap. apply getCardValue_bounds. }
  destruct (checkStraight_lowestRun values Hbnd) as (sh' & Hsh' & Hlow).
  rewrite Hsh in Hsh'. injection Hsh' as <-.
  apply (lowestRun_held _ values) in Hlow.
  2:{ intros x. rewrite list_elem_of_filter. split; [tauto|].
      intros Hx. split; [done|]. specialize (Hbnd x Hx).
      unfold rankValuesDesc.
      assert (x = 2 ∨ x = 3 ∨ x = 4 ∨ x = 5 ∨ x = 6 ∨ x = 7 ∨ x = 8 ∨ x = 9
              ∨ x = 10 ∨ x = 11 ∨ x = 12 ∨ x = 13 ∨ x = 14) as Hcase by lia.
      set_solver. }
  assert (sh ≠ 0 ↔ (∃ v, run5 values v) ∨ wheel values) as Hshnz.
  { destruct Hlow as [[Hrun _]|[(Hno & Hwh & ->)|(Hno & Hwh & ->)]].
    - split; [intros _; left; by exists sh|]. intros _.
      destruct Hrun as [Hin _]. specialize (Hbnd _ Hin). lia.
    - split; [by right|done].
    - split; [done|]. intros [[v Hv]|?]; [by destruct (Hno v)|done]. }
  assert (∀ v, occ v (sortDescBy id values) = occ v values) as Hocc
    by (intros; apply occ_sorted_values).
  assert (flushTop cards = None ↔ ¬ ∃ s, (5 ≤ occ s (suit <$> cards))%nat)
    as Hflush.
  { rewrite flushTop_None. split.
    - intros Hall (s & Hs). specialize (Hall s). lia.
    - intros Hno s.
      destruct (decide (5 ≤ occ s (suit <$> cards))%nat); [|lia].
      destruct Hno. by exists s. }
  split.
  - inversion Hshape as [v Hv Ho|three two H3 H2 Hd Ho3 Ho2|top Htop|Hnz Hfl
                        |three H3 Ho Hfl Hz|p0 p1 H0 H1 Hd Ho0 Ho1 Hfl Hz
                        |p Hp Ho Hu Hfl Hz|v0 Hv0 Ho Hfl Hz]; subst; simpl.
    + split; [done|]. intros (Hnq & _). destruct Hnq. exists v.
      by rewrite <- Hocc.
    + split; [done|]. intros (_ & Hnf & _). destruct Hnf.
      exists three, two. by rewrite <- !Hocc.
    + split; [done|]. intros (_ & _ & Hnfl & _).
      apply Hflush in Hnfl. congruence.
    + split; [intros _|done].
      destruct (evaluateHand_top _ _ _ Hne Hr) as (Hq & Hf & _ & _).
      cbv zeta in Hq, Hf. simpl in Hq, Hf. fold cards values in Hq, Hf.
      assert (¬ ∃ v, occ v values = 4%nat) as Hnq
        by (intros Hquads; by apply Hq in Hquads).
      split_and!.
      * done.
      * intros Hfull.
        assert ("Straight" = "Full House") by (by apply Hf). done.
      * by apply Hflush.
      * by apply Hshnz.
    + split; [done|]. intros (_ & _ & _ & Hs). by apply Hshnz in Hs.
    + split; [done|]. intros (_ & _ & _ & Hs). by apply Hshnz in Hs.
    + split; [done|]. intros (_ & _ & _ & Hs). by apply Hshnz in Hs.
    + split; [done|]. intros (_ & _ & _ & Hs). by apply Hshnz in Hs.
  - intros Hd.
    inversion Hshape as [| | |Hnz Hfl| | | |]; subst; try discriminate.
    simpl. replace (4000 + sh - 4000) with sh by lia.
    destruct Hlow as [Hrun|[(Hno & Hwh & ->)|(Hno & Hwh & ->)]];
      [by left|by right|done].
Qed.

(** ** Bot decisions *)

(** The pre-flop strength thresholds, in terms of the starting-hand score
    (0.3 and 0.4 of the 25-point scale, before and after the bluff
    adjustment). *)
Lemma preflop_thresholds (s : Z) :
  -1 ≤ s ≤ 25 →
  let strength := preflopStrength s in
  (strength <? 0.3)%float = bool_decide (s ≤ 7)
  ∧ (strength + 0.3 <? 0.3)%float = bool_decide (s < 0)
  ∧ (0.4 <? strength)%float = bool_decide (11 ≤ s)
  ∧ (0.4 <? strength + 0.3)%float = bool_decide (3 ≤ s).
Proof.
  intros Hs.
  assert (s = -1 ∨ s = 0 ∨ s = 1 ∨ s = 2 ∨ s = 3 ∨ s = 4 ∨ s = 5 ∨ s = 6
          ∨ s = 7 ∨ s = 8 ∨ s = 9 ∨ s = 10 ∨ s = 11 ∨ s = 12 ∨ s = 13
          ∨ s = 14 ∨ s = 15 ∨ s = 16 ∨ s = 17 ∨ s = 18 ∨ s = 19 ∨ s = 20
          ∨ s = 21 ∨ s = 22 ∨ s = 23 ∨ s = 24 ∨ s = 25) as Hcases by lia.
  repeat (destruct Hcases as [->|Hcases]; [by vm_compute|]).
  subst s. by vm_compute.
Qed.

(** The same thresholds after the flop, on the scores the evaluator
    returns. *)
Lemma postflop_thresholds (s : Z) :
  s = 0 ∨ 2 ≤ s ≤ 14 ∨ 1002 ≤ s ≤ 1014 ∨ 2000 ≤ s →
  let strength := postflopStrength s in
  (strength <? 0.3)%float = bool_decide (s < 1000)
  ∧ (strength + 0.3 <? 0.3)%float = false
  ∧ (0.4 <? strength)%float = bool_decide (1000 ≤ s)
  ∧ (0.4 <? strength + 0.3)%float = bool_decide (s ≠ 0).
Proof.
  intros [->|[Hs|[Hs|Hs]]].
  - by vm_compute.
  - assert (s = 2 ∨ s = 3 ∨ s = 4 ∨ s = 5 ∨ s = 6 ∨ s = 7 ∨ s = 8 ∨ s = 9
            ∨ s = 10 ∨ s = 11 ∨ s = 12 ∨ s = 13 ∨ s = 14) as Hcases by lia.
    repeat (destruct Hcases as [->|Hcases]; [by vm_compute|]).
    subst s. by vm_compute.
  - assert (s = 1002 ∨ s = 1003 ∨ s = 1004 ∨ s = 1005 ∨ s = 1006 ∨ s = 1007
            ∨ s = 1008 ∨ s = 1009 ∨ s = 1010 ∨ s = 1011 ∨ s = 1012
            ∨ s = 1013 ∨ s = 1014) as Hcases by lia.
    repeat (destruct Hcases as [->|Hcases]; [by vm_compute|]).
    subst s. by vm_compute.
  - cbv zeta. unfold postflopStrength.
    rewrite !decide_False by lia.
    rewrite bool_decide_eq_false_2, !bool_decide_eq_true_2 by lia.
    repeat case_decide; by vm_compute.
Qed.

Lemma gradeStartingHand_score_range hand :
  -1 ≤ HandGrade.score (gradeStartingHand hand) ≤ 22.
Proof.
  destruct hand as [|h0 [|h1 [|h2 hand]]]; try (simpl; lia).
  pattern h0, h1.
  match goal with |- ?P h0 h1 => apply (two_cards_ind P) end.
  by vm_compute.
Qed.

Lemma evaluateHand_scores holeCards communityCards r :
  evaluateHand holeCards communityCards = Some r →
  score r = 0 ∨ 2 ≤ score r ≤ 14 ∨ 1002 ≤ score r ≤ 1014 ∨ 2000 ≤ score r.
Proof.
  intros Hr.
  destruct (evaluateHand_band holeCards communityCards) as (r' & Hr' & Hb).
  rewrite Hr in Hr'. injection Hr' as <-. unfold inBand in Hb.
  destruct Hb as [[_ ?]|[[_ ?]|[[_ ?]|[[_ ?]|[[_ ?]|[[_ ?]|[[_ ?]|[[_ ?]
                 |[_ ?]]]]]]]]]; lia.
Qed.

(** The decision as a function of the adjusted strength. *)
Lemma getBotDecision_strength rolls player gameState strength :
  handStrength player gameState = Some strength →
  let adjusted :=
    if bluffing rolls player then (strength + 0.3)%float else strength in
  let profile := profileOf (Player.name player) in
  let folds :=
    negb (bool_decide (toCallOf player gameState = 0))
    && (adjusted <? 0.3)%float
    && (if decide (GameState.phase gameState = PRE_FLOP)
        then (vpip profile <? vpipRoll rolls)%float
        else (bluff profile <? foldRoll rolls)%float) in
  let raises :=
    bool_decide (canAffordRaise player gameState)
    && raiseDrawn rolls player && (0.4 <? adjusted)%float in
  getBotDecision rolls player gameState
  = if folds then Some (mkDecision FOLD None)
    else if raises then
      size ← mathFloor (numberOfZ (GameState.pot gameState)
                        * (0.5 + sizeRoll rolls))%float;
      Some (mkDecision RAISE
              (Some (Z.max (GameState.minBet gameState) size)))
    else Some (mkDecision
                 (if bool_decide (toCallOf player gameState = 0)
                  then CHECK else CALL) None).
Proof.
  intros Hs. unfold getBotDecision. rewrite Hs. cbn [mbind option_bind].
  cbv zeta. unfold bluffing, raiseDrawn, canAffordRaise, toCallOf.
  by case_decide.
Qed.

Lemma handStrength_is_Some player gameState :
  is_Some (handStrength player gameState).
Proof.
  unfold handStrength. case_decide; [done|].
  destruct (evaluateHand_band (Player.hand player)
              (GameState.communityCards gameState)) as (r & -> & _).
  done.
Qed.

(** X25: the action fits the bet faced.  Given a size draw whose product
    with the pot is a number, [getBotDecision] returns a decision.  It
    folds or calls only when there is something to call and checks only
    when there is nothing to call (so a bot never folds for free); it
    raises only when the seat holds more chips than the call plus the
    minimum raise, and then by at least the minimum raise; only a raise
    carries an amount. *)
Theorem getBotDecision_fits_bet rolls player gameState :
  is_Some (mathFloor (numberOfZ (GameState.pot gameState)
                      * (0.5 + sizeRoll rolls))%float) →
  ∃ d,
    getBotDecision rolls player gameState = Some d
    ∧ (action d = FOLD ∨ action d = CALL →
       toCallOf player gameState ≠ 0 ∧ amount d = None)
    ∧ (action d = CHECK → toCallOf player gameState = 0 ∧ amount d = None)
    ∧ (action d = RAISE →
       canAffordRaise player gameState
       ∧ ∃ a, amount d = Some a ∧ GameState.minBet gameState ≤ a).
Proof.
  intros [size Hsize].
  destruct (handStrength_is_Some player gameState) as [strength Hs].
  rewrite (getBotDecision_strength _ _ _ _ Hs). cbv zeta. rewrite Hsize.
  cbn [mbind option_bind].
  assert (∀ size', GameState.minBet gameState
                   ≤ GameState.minBet gameState `max` size') as Hmax
    by (intros; lia).
  (destruct (bool_decide (toCallOf player gameState = 0)) eqn:Hcall;
    [apply bool_decide_eq_true in Hcall|apply bool_decide_eq_false in Hcall]);
    (destruct (bool_decide (canAffordRaise player gameState)) eqn:Haff;
     [apply bool_decide_eq_true in Haff|]);
    cbn [negb andb];
    repeat match goal with
           | |- context [if ?b then _ else _] => destruct b
           end;
    eexists; (split; [done|]); simpl; split_and!; try done;
    try (by intros [?|?]);
    (intros _; split; [done|]; eexists; split; [done|]; apply Hmax).
Qed.

Lemma getBotDecision_fits_bet_witness :
  ∃ d,
    getBotDecision (rollsWith 0.5 0.5 0.5 0.5 0.25)
      (seatWith "Rob" 1000 0 [card ACE SPADES; card ACE HEARTS] true false)
      (tableWith PRE_FLOP 30 [] [] 0 0 20 (Some 2))
    = Some d
    ∧ action d = RAISE ∧ amount d = Some 22.
Proof.
  destruct (getBotDecision_fits_bet (rollsWith 0.5 0.5 0.5 0.5 0.25)
              (seatWith "Rob" 1000 0 [card ACE SPADES; card ACE HEARTS]
                 true false)
              (tableWith PRE_FLOP 30 [] [] 0 0 20 (Some 2)))
    as (d & Hd & _); [vm_compute; eauto|].
  exists d. split; [done|].
  vm_compute in Hd. by injection Hd as <-.
Defined.

(** Case analysis on the booleans of a decision. *)
Ltac decision_cases Hrun :=
  repeat (match type of Hrun with
          | context [bool_decide ?P] =>
              let H := fresh "Hb" in
              destruct (bool_decide P) eqn:H;
              [apply bool_decide_eq_true in H
              |apply bool_decide_eq_false in H]
          | context [raiseDrawn ?r ?p] =>
              let H := fresh "Hr" in destruct (raiseDrawn r p) eqn:H
          | context [PrimFloat.ltb ?a ?b] =>
              let H := fresh "Hc" in destruct (PrimFloat.ltb a b) eqn:H
          | context [mathFloor ?x] => destruct (mathFloor x)
          end;
          cbn [andb negb mbind option_bind] in Hrun).

(** X26: the pre-flop decision in terms of the starting-hand score.  A bot
    folds exactly when it faces a bet, its hand scores 7 or less (below 0
    when the bluff draw makes it overrate the hand) and the entry draw is
    above its [vpip]; it raises exactly when the hand scores 11 or more (3
    or more when overrating), it can afford the raise and the raise draw is
    below its [aggression]. *)
Theorem getBotDecision_preflop rolls player gameState d :
  GameState.phase gameState = PRE_FLOP →
  getBotDecision rolls player gameState = Some d →
  let s := preflopScore player in
  let profile := profileOf (Player.name player) in
  (action d = FOLD
   ↔ toCallOf player gameState ≠ 0
     ∧ (if bluffing rolls player then s < 0 else s ≤ 7)
     ∧ (vpip profile <? vpipRoll rolls)%float = true)
  ∧ (action d = RAISE
     ↔ (if bluffing rolls player then 3 ≤ s else 11 ≤ s)
       ∧ canAffordRaise player gameState
       ∧ raiseDrawn rolls player = true).
Proof.
  intros Hphase Hrun s profile. unfold profile; clear profile.
  assert (handStrength player gameState = Some (preflopStrength s)) as Hs
    by (unfold handStrength; by rewrite decide_True).
  rewrite (getBotDecision_strength _ _ _ _ Hs) in Hrun. cbv zeta in Hrun.
  rewrite decide_True in Hrun by done.
  destruct (preflop_thresholds s) as (Hw & Hwa & Hst & Hsta).
  { pose proof (gradeStartingHand_score_range (Player.hand player)).
    unfold s, preflopScore. lia. }
  cbv zeta in Hw, Hwa, Hst, Hsta.
  destruct (bluffing rolls player);
    [rewrite Hwa, Hsta in Hrun|rewrite Hw, Hst in Hrun];
    clear Hw Hwa Hst Hsta;
    decision_cases Hrun;
    try discriminate; injection Hrun as <-; simpl;
    (split;
     (split; [try done; intros _; split_and!; try done; lia
             |try done; intros (? & ? & ?); try done; try lia; congruence])).
Qed.

Lemma getBotDecision_preflop_witness :
  action
  <$> getBotDecision (rollsWith 0.5 0.5 0.5 0.5 0.25)
        (seatWith "Cody A" 1000 0 [card SEVEN CLUBS; card TWO HEARTS]
           true false)
        (tableWith PRE_FLOP 30 [] [] 0 0 20 (Some 2))
  = Some FOLD.
Proof.
  destruct (getBotDecision (rollsWith 0.5 0.5 0.5 0.5 0.25)
              (seatWith "Cody A" 1000 0 [card SEVEN CLUBS; card TWO HEARTS]
                 true false)
              (tableWith PRE_FLOP 30 [] [] 0 0 20 (Some 2)))
    as [d|] eqn:Hd; [|by vm_compute in Hd].
  simpl. f_equal.
  destruct (getBotDecision_preflop (rollsWith 0.5 0.5 0.5 0.5 0.25)
              (seatWith "Cody A" 1000 0 [card SEVEN CLUBS; card TWO HEARTS]
                 true false)
              (tableWith PRE_FLOP 30 [] [] 0 0 20 (Some 2)) d)
    as [Hfold _]; [reflexivity|exact Hd|].
  apply Hfold. split_and!; by vm_compute.
Defined.

(** X27: the decision after the flop in terms of the evaluation score.  A
    bot folds exactly when it faces a bet, holds no pair or better (score
    below 1000), does not overrate its hand and the fold draw is above its
    [bluff] factor; it raises exactly when it holds a pair or better (or
    overrates any hand of at least one card), can afford the raise and the
    raise draw is below its [aggression]. *)
Theorem getBotDecision_postflop rolls player gameState r d :
  GameState.phase gameState ≠ PRE_FLOP →
  evaluateHand (Player.hand player) (GameState.communityCards gameState)
  = Some r →
  getBotDecision rolls player gameState = Some d →
  let profile := profileOf (Player.name player) in
  (action d = FOLD
   ↔ toCallOf player gameState ≠ 0
     ∧ score r < 1000
     ∧ bluffing rolls player = false
     ∧ (bluff profile <? foldRoll rolls)%float = true)
  ∧ (action d = RAISE
     ↔ (if bluffing rolls player then score r ≠ 0 else 1000 ≤ score r)
       ∧ canAffordRaise player gameState
       ∧ raiseDrawn rolls player = true).
Proof.
  intros Hphase Hr Hrun profile. unfold profile; clear profile.
  assert (handStrength player gameState = Some (postflopStrength (score r)))
    as Hs by (unfold handStrength; by rewrite decide_False, Hr).
  rewrite (getBotDecision_strength _ _ _ _ Hs) in Hrun. cbv zeta in Hrun.
  rewrite decide_False in Hrun by done.
  destruct (postflop_thresholds (score r)) as (Hw & Hwa & Hst & Hsta);
    [by eapply evaluateHand_scores|].
  cbv zeta in Hw, Hwa, Hst, Hsta.
  destruct (bluffing rolls player);
    [rewrite Hwa, Hsta in Hrun|rewrite Hw, Hst in Hrun];
    clear Hw Hwa Hst Hsta;
    decision_cases Hrun;
    try discriminate; injection Hrun as <-; simpl;
    (split;
     (split; [try done; intros _; split_and!; try done; lia
             |try done; intros (? & ? & ?); try done; try lia;
              try congruence; naive_solver])).
Qed.

Lemma getBotDecision_postflop_witness :
  action
  <$> getBotDecision (rollsWith 0.5 0.5 0.5 0.1 0.25)
        (seatWith "Nick" 1000 0 [card ACE SPADES; card KING SPADES]
           true false)
        (tableWith FLOP 60
           [card ACE DIAMONDS; card NINE CLUBS; card SEVEN HEARTS] [] 0 0 0
           (Some 0))
  = Some RAISE.
Proof.
  destruct (getBotDecision (rollsWith 0.5 0.5 0.5 0.1 0.25)
              (seatWith "Nick" 1000 0 [card ACE SPADES; card KING SPADES]
                 true false)
              (tableWith FLOP 60
                 [card ACE DIAMONDS; card NINE CLUBS; card SEVEN HEARTS] []
                 0 0 0 (Some 0)))
    as [d|] eqn:Hd; [|by vm_compute in Hd].
  simpl. f_equal.
  destruct (getBotDecision_postflop (rollsWith 0.5 0.5 0.5 0.1 0.25)
              (seatWith "Nick" 1000 0 [card ACE SPADES; card KING SPADES]
                 true false)
              (tableWith FLOP 60
                 [card ACE DIAMONDS; card NINE CLUBS; card SEVEN HEARTS] []
                 0 0 0 (Some 0))
              (mkEval 1014 "Pair") d)
    as [_ Hraise]; [done|by vm_compute|exact Hd|].
  apply Hraise. split_and!; by vm_compute.
Defined.

(** ** The evaluator's classes against the classes of standard poker

    On five to seven distinct cards the evaluator's class is compared with
    the class of the best five-card hand under the standard rules.  The
    class [standardRank5] gives to five cards is first characterised by the
    patterns the five cards hold (a table over all descending lists of five
    ranks), then the evaluator's class by the patterns all the cards hold;
    a pattern held by the cards is held by five of them, and conversely. *)

(** ** Agreement with standard poker on the class of a hand *)

Lemma class5_table : Forall class5Checked (descLists rankValuesDesc 5).
Proof. apply (bool_decide_unpack _). by vm_compute. Qed.

Lemma standardRank5_class cards :
  default 0 (head (standardRank5 cards))
  = class5 (getCardValue <$> cards)
      (bool_decide (Forall (λ c, Some (suit c) = suit <$> head cards) cards)).
Proof.
  unfold standardRank5, class5. cbv zeta.
  repeat match goal with
         | |- context [if ?b then _ else _] => destruct b
         end; done.
Qed.

Lemma standardRank5_nonempty cards : standardRank5 cards ≠ [].
Proof.
  unfold standardRank5. cbv zeta.
  repeat match goal with
         | |- context [if ?b then _ else _] => destruct b
         end; done.
Qed.

(** [descLists] holds every descending list over its values. *)
Lemma elem_of_descLists (l vs : list Z) :
  StronglySorted (λ a b, b < a) l →
  StronglySorted (λ a b, b ≤ a) vs →
  (∀ v, v ∈ vs → v ∈ l) →
  vs ∈ descLists l (length vs).
Proof.
  intros Hl. revert vs. induction Hl as [|x l Hl IH Hx]; intros vs Hvs Hin.
  { destruct vs as [|v vs]; [by left|].
    specialize (Hin v (list_elem_of_here _ _)). inversion Hin. }
  induction Hvs as [|y vs Hvs IHvs Hy]; [by left|].
  cbn [length descLists]. apply elem_of_app.
  destruct (decide (y = x)) as [->|Hne].
  - left. apply list_elem_of_fmap. exists vs. split; [done|].
    apply IHvs. intros v Hv. apply Hin. by right.
  - right. apply (IH (y :: vs)); [by constructor|].
    assert (y < x) as Hlt.
    { specialize (Hin y (list_elem_of_here _ _)).
      apply elem_of_cons in Hin as [?|Hyl]; [done|].
      rewrite Forall_forall in Hx. by apply Hx. }
    intros v Hv.
    assert (v ≤ y) as Hle.
    { apply elem_of_cons in Hv as [->|Hv]; [lia|].
      rewrite Forall_forall in Hy. by apply Hy. }
    specialize (Hin v Hv). apply elem_of_cons in Hin as [->|?]; [lia|done].
Qed.

Lemma rankValuesDesc_sorted : StronglySorted (λ a b, b < a) rankValuesDesc.
Proof.
  unfold rankValuesDesc.
  repeat (constructor; [|repeat (constructor; [lia|]); constructor]).
  constructor.
Qed.

Lemma elem_of_rankValuesDesc v : v ∈ rankValuesDesc ↔ 2 ≤ v ≤ 14.
Proof.
  unfold rankValuesDesc. split.
  - set_unfold. lia.
  - intros Hv.
    assert (v = 2 ∨ v = 3 ∨ v = 4 ∨ v = 5 ∨ v = 6 ∨ v = 7 ∨ v = 8 ∨ v = 9
            ∨ v = 10 ∨ v = 11 ∨ v = 12 ∨ v = 13 ∨ v = 14) as Hcase by lia.
    set_solver.
Qed.

(** The patterns do not depend on the order of the values. *)
Lemma held_heldP n vals vals' :
  vals ≡ₚ vals' → (0 < n)%nat → held n vals ↔ heldP n vals'.
Proof.
  intros Hp Hn. unfold held, heldP. rewrite Exists_exists. split.
  - intros (v & _ & Hv). exists v. by rewrite <- (occ_perm _ _ _ Hp).
  - intros (v & Hv). exists v. rewrite (occ_perm _ _ _ Hp). split; [|done].
    apply occ_pos. rewrite (occ_perm _ _ _ Hp). lia.
Qed.

Lemma heldTwo_heldTwoP n m vals vals' :
  vals ≡ₚ vals' → (0 < n)%nat → (0 < m)%nat →
  heldTwo n m vals ↔ heldTwoP n m vals'.
Proof.
  intros Hp Hn Hm. unfold heldTwo, heldTwoP. rewrite Exists_exists. split.
  - intros (v & _ & Hv & (w & _ & Hne & Hw)%Exists_exists).
    exists v, w. by rewrite <- !(occ_perm _ _ _ Hp).
  - intros (v & w & Hne & Hv & Hw). exists v.
    rewrite !(occ_perm _ _ _ Hp). split_and!; [|done|].
    + apply occ_pos. rewrite (occ_perm _ _ _ Hp). lia.
    + apply Exists_exists. exists w. rewrite (occ_perm _ _ _ Hp).
      split_and!; [|done..]. apply occ_pos. rewrite (occ_perm _ _ _ Hp). lia.
Qed.

Lemma run5_perm vals vals' v : vals ≡ₚ vals' → run5 vals v ↔ run5 vals' v.
Proof. intros Hp. apply run5_ext. intros x. by rewrite Hp. Qed.

Lemma hasRun_runP vals vals' : vals ≡ₚ vals' → hasRun vals ↔ runP vals'.
Proof.
  intros Hp. unfold hasRun, runP, wheel. rewrite Exists_exists.
  setoid_rewrite (run5_perm vals vals' _ Hp). rewrite !Hp.
  split; (intros [(v & Hv)|?]; [left|by right]).
  - exists v. tauto.
  - exists v. split; [|done]. rewrite Hp. by destruct Hv.
Qed.

Lemma class5_sorted vals fl :
  class5 (sortDescBy id vals) fl = class5 vals fl.
Proof.
  unfold class5.
  by rewrite (sortDescBy_id_perm (sortDescBy id vals) vals)
    by apply sortDescBy_perm.
Qed.

(** What [standardRank5]'s class says about five values, and what the
    values say about the class. *)
Lemma class5_patterns vals fl :
  length vals = 5%nat → (∀ v, v ∈ vals → 2 ≤ v ≤ 14) → ¬ heldP 5 vals →
  let c := class5 vals fl in
  0 ≤ c ≤ 8
  ∧ (c = 8 → runP vals ∧ fl = true ∧ ¬ heldP 2 vals)
  ∧ (c = 7 → heldP 4 vals)
  ∧ (c = 6 → heldTwoP 3 2 vals)
  ∧ (c = 5 → fl = true)
  ∧ (c = 4 → runP vals)
  ∧ (c = 3 → heldP 3 vals)
  ∧ (c = 2 → heldTwoP 2 2 vals)
  ∧ (c = 1 → heldP 2 vals)
  ∧ (heldP 4 vals → 7 ≤ c)
  ∧ (heldTwoP 3 2 vals → 6 ≤ c)
  ∧ (fl = true → 5 ≤ c)
  ∧ (runP vals → 4 ≤ c)
  ∧ (heldP 3 vals → 3 ≤ c)
  ∧ (heldTwoP 2 2 vals → 2 ≤ c)
  ∧ (heldP 2 vals → 1 ≤ c).
Proof.
  intros Hlen Hbnd Hfive c. unfold c; clear c.
  set (vs := sortDescBy id vals).
  assert (vs ≡ₚ vals) as Hp by apply sortDescBy_perm.
  pose proof class5_table as Htab. rewrite Forall_forall in Htab.
  destruct (Htab vs) as (Ht & Hf & Hrun).
  { replace 5%nat with (length vs)
      by (unfold vs; by rewrite sortDescBy_length).
    apply elem_of_descLists.
    - apply rankValuesDesc_sorted.
    - apply (sortDescBy_desc id).
    - intros v Hv. apply elem_of_rankValuesDesc, Hbnd. by rewrite <- Hp. }
  { by rewrite (held_heldP 5 vs vals) by (done || lia). }
  unfold vs in Ht at 1. unfold vs in Hf at 1.
  rewrite class5_sorted in Ht, Hf.
  rewrite (hasRun_runP vs vals), (held_heldP 2 vs vals) in Hrun
    by (done || lia).
  assert (class5 vals fl = classOf vs fl) as -> by (by destruct fl).
  clear Ht Hf Htab. unfold classOf.
  repeat case_decide;
    repeat match goal with
           | H : context [hasRun vs] |- _ =>
               rewrite (hasRun_runP vs vals) in H by done
           | H : context [held ?n vs] |- _ =>
               rewrite (held_heldP n vs vals) in H by (done || lia)
           | H : context [heldTwo ?n ?m vs] |- _ =>
               rewrite (heldTwo_heldTwoP n m vs vals) in H by (done || lia)
           end;
    (assert (heldP 4 vals → heldP 3 vals) as H43
       by (intros [v ?]; exists v; lia));
    (assert (heldP 3 vals → heldP 2 vals) as H32
       by (intros [v ?]; exists v; lia));
    (assert (heldTwoP 3 2 vals → heldP 3 vals) as H323
       by (intros (v & w & ? & ? & ?); by exists v));
    (assert (heldTwoP 3 2 vals → heldTwoP 2 2 vals) as H3222
       by (intros (v & w & ? & ? & ?); exists v, w;
           split_and!; [done|lia|done]));
    (assert (heldTwoP 2 2 vals → heldP 2 vals) as H222
       by (intros (v & w & ? & ? & ?); by exists v));
    destruct fl; split_and!; intros; try lia; try done; tauto.
Qed.

(** [choose k l] lists the sublists of [l] of length [k]. *)
Lemma elem_of_choose {A} (k : nat) (l s : list A) :
  s ∈ choose k l ↔ s `sublist_of` l ∧ length s = k.
Proof.
  split.
  - revert k s. induction l as [|x l IH]; intros [|k] s Hs; simpl in Hs.
    + apply list_elem_of_singleton in Hs as ->. by split.
    + inversion Hs.
    + apply list_elem_of_singleton in Hs as ->.
      split; [apply sublist_nil_l|done].
    + apply elem_of_app in Hs as [Hs|Hs].
      * apply list_elem_of_fmap in Hs as (s' & -> & Hs').
        apply IH in Hs' as [Hsub <-]. split; [by apply sublist_skip|done].
      * apply IH in Hs as [Hsub Hlen]. split; [by apply sublist_cons|done].
  - intros [Hsub <-].
    induction Hsub as [|x s l Hsub IH|x s l Hsub IH]; simpl.
    + by left.
    + apply elem_of_app. left. apply list_elem_of_fmap. by exists s.
    + destruct s as [|y s]; [simpl; by left|].
      simpl. apply elem_of_app. by right.
Qed.

(** The best ranking is one of the rankings and no ranking has a higher
    class. *)
Lemma best_ranking (rs : list (list Z)) :
  Forall (λ r, r ≠ []) rs → rs ≠ [] →
  let best := foldr (λ r best, if lexLt best r then r else best) [] rs in
  best ∈ rs
  ∧ ∀ r, r ∈ rs → default 0 (head r) ≤ default 0 (head best).
Proof.
  induction rs as [|r rs IH]; intros Hne Hrs; [done|]. cbv zeta.
  apply Forall_cons in Hne as [Hr Hne]. cbn [foldr].
  set (best := foldr _ [] rs) in *.
  destruct rs as [|r' rs'].
  { simpl in best. unfold best. destruct r as [|x r]; [done|]. simpl.
    split; [by left|]. by intros ? ->%list_elem_of_singleton. }
  destruct IH as [Hin Hmax]; [done..|].
  assert (best ≠ []) as Hb
    by (rewrite Forall_forall in Hne; by apply Hne).
  destruct best as [|y best'] eqn:Hbest; [done|].
  destruct r as [|x r]; [done|]. cbn [lexLt].
  destruct (decide (y < x)).
  - split; [by left|]. intros q [->|Hq]%elem_of_cons; [done|].
    specialize (Hmax q Hq). simpl in *. lia.
  - assert (lexLt (y :: best') (x :: r) = true → x ≤ y) as Hle.
    { cbn [lexLt]. rewrite decide_False by done. case_decide; [done|lia]. }
    cbn [lexLt] in Hle. rewrite decide_False in Hle by done.
    destruct (decide (x < y)).
    + split; [by right|]. intros q [->|Hq]%elem_of_cons; [simpl; lia|].
      by apply Hmax.
    + destruct (lexLt best' r).
      * split; [by left|]. intros q [->|Hq]%elem_of_cons; [done|].
        specialize (Hmax q Hq). simpl in *. lia.
      * split; [by right|]. intros q [->|Hq]%elem_of_cons; [simpl; lia|].
        by apply Hmax.
Qed.

(** The standard class of a hand is the highest class among its five-card
    sublists, and one of them has it. *)
Lemma standardClass_max (cards : list Card) :
  (5 ≤ length cards)%nat →
  (∃ s, s `sublist_of` cards ∧ length s = 5%nat
        ∧ default 0 (head (standardRank5 s)) = standardClass cards)
  ∧ ∀ s, s `sublist_of` cards → length s = 5%nat →
         default 0 (head (standardRank5 s)) ≤ standardClass cards.
Proof.
  intros Hlen. unfold standardClass, standardBest.
  destruct (best_ranking (standardRank5 <$> choose 5 cards))
    as [Hin Hmax].
  - apply Forall_fmap, Forall_forall. intros s _.
    apply standardRank5_nonempty.
  - assert (take 5 cards ∈ choose 5 cards) as Hin.
    { apply elem_of_choose. split; [apply sublist_take|].
      rewrite length_take. lia. }
    intros Hnil. apply (list_elem_of_fmap_2 standardRank5) in Hin.
    rewrite Hnil in Hin. inversion Hin.
  - cbv zeta in Hin, Hmax. split.
    + apply list_elem_of_fmap in Hin as (s & Hs & [Hsub Hl]%elem_of_choose).
      exists s. split; [done|]. split; [done|]. by rewrite Hs.
    + intros s Hsub Hl. apply Hmax, list_elem_of_fmap_2.
      by apply elem_of_choose.
Qed.

Lemma standardBest_nonempty (cards : list Card) :
  (5 ≤ length cards)%nat → standardBest cards ≠ [].
Proof.
  intros Hlen. unfold standardBest.
  destruct (best_ranking (standardRank5 <$> choose 5 cards))
    as [Hin _].
  - apply Forall_fmap, Forall_forall. intros s _.
    apply standardRank5_nonempty.
  - assert (take 5 cards ∈ choose 5 cards) as Hin.
    { apply elem_of_choose. split; [apply sublist_take|].
      rewrite length_take. lia. }
    intros Hnil. apply (list_elem_of_fmap_2 standardRank5) in Hin.
    rewrite Hnil in Hin. inversion Hin.
  - cbv zeta in Hin.
    apply list_elem_of_fmap in Hin as (s & -> & _).
    apply standardRank5_nonempty.
Qed.

(** A hand of a higher class is the stronger hand under the standard
    rules. *)
Lemma standardClass_stronger (a b : list Card) :
  (5 ≤ length a)%nat → (5 ≤ length b)%nat →
  standardClass a < standardClass b → standardStronger b a.
Proof.
  intros Ha Hb. unfold standardClass, standardStronger.
  pose proof (standardBest_nonempty a Ha) as Hna.
  pose proof (standardBest_nonempty b Hb) as Hnb.
  destruct (standardBest a) as [|x ra]; [done|].
  destruct (standardBest b) as [|y rb]; [done|].
  simpl. intros Hlt. by rewrite decide_True.
Qed.

Lemma heldP_mono n m vals : (m ≤ n)%nat → heldP n vals → heldP m vals.
Proof. intros Hle [v Hv]. exists v. lia. Qed.

(** The class [detectHands] returns, by the patterns held, when no rank is
    held five times. *)
Lemma detectHands_class values isFlush flushCards flush sh r :
  (∀ v, v ∈ values → 2 ≤ v ≤ 14) → ¬ heldP 5 values →
  isFlush = bool_decide (is_Some flush) → flushCards !! 0%nat = flush →
  detectHands values isFlush flushCards sh = Some r →
  let c := classRank (description r) in
  0 ≤ c ≤ 7
  ∧ (7 ≤ c ↔ heldP 4 values)
  ∧ (6 ≤ c ↔ heldP 4 values ∨ heldTwoP 3 2 values)
  ∧ (5 ≤ c ↔ heldP 4 values ∨ heldTwoP 3 2 values ∨ is_Some flush)
  ∧ (4 ≤ c
     ↔ heldP 4 values ∨ heldTwoP 3 2 values ∨ is_Some flush ∨ sh ≠ 0)
  ∧ (3 ≤ c ↔ is_Some flush ∨ sh ≠ 0 ∨ heldP 3 values)
  ∧ (2 ≤ c
     ↔ is_Some flush ∨ sh ≠ 0 ∨ heldP 3 values ∨ heldTwoP 2 2 values)
  ∧ (1 ≤ c ↔ is_Some flush ∨ sh ≠ 0 ∨ heldP 2 values).
Proof.
  intros Hbnd Hfive -> Hfc. unfold detectHands.
  set (counts := tallyValues values).
  set (dv := sortDescBy id (objectKeys counts)).
  assert (∀ v, v ∈ dv ↔ v ∈ values) as Hdv
    by (intros; apply elem_of_distinctValues).
  assert (∀ v, countOf counts v = occ v values) as Hco
    by (intros; apply countOf_tallyValues).
  assert (∀ v, (occ v values ≤ 4)%nat) as Hle4.
  { intros v. destruct (decide (occ v values ≤ 4)%nat); [done|].
    destruct Hfive. exists v. lia. }
  assert (∀ v, (0 < occ v values)%nat → v ∈ dv ∧ v ≠ 0) as Hpos.
  { intros v Hv. apply occ_pos in Hv. split; [by apply Hdv|].
    specialize (Hbnd v Hv). lia. }
  assert (heldP 4 values → heldP 3 values) as H43 by (by apply heldP_mono; lia).
  assert (heldP 3 values → heldP 2 values) as H32 by (by apply heldP_mono; lia).
  assert (heldTwoP 3 2 values → heldP 3 values) as H323
    by (intros (v & w & ? & ? & ?); by exists v).
  assert (heldTwoP 3 2 values → heldTwoP 2 2 values) as H3222
    by (intros (v & w & ? & ? & ?); exists v, w; split_and!; [done|lia|done]).
  assert (heldTwoP 2 2 values → heldP 2 values) as H222
    by (intros (v & w & ? & ? & ?); by exists v).
  assert (∀ x : Z, is_Some (Some x)) as HSome by (by eexists).
  assert (¬ is_Some (@None Z)) as HNone by (by intros [? ?]).
  destruct (list_find _ dv) as [[i v]|] eqn:Hquad.
  { apply list_find_Some in Hquad as (Hi & Hc & _).
    intros [= <-]. cbv zeta. change (classRank _) with 7.
    assert (heldP 4 values) as Hq by (exists v; rewrite <- Hco; lia).
    split_and!; try lia; split; intros; try lia; tauto. }
  apply list_find_None in Hquad. rewrite Forall_forall in Hquad.
  assert (¬ heldP 4 values) as Hnq.
  { intros (v & Hv). apply (Hquad v); [apply Hpos; lia|].
    rewrite Hco. specialize (Hle4 v). lia. }
  assert (∀ v, (occ v values ≤ 3)%nat) as Hle3.
  { intros v. destruct (decide (occ v values ≤ 3)%nat); [done|].
    destruct Hnq. exists v. lia. }
  pose proof (fullHouseScan_inv values) as Hinv. fold counts dv in Hinv.
  destruct (fullHouseScan counts dv) as [three two].
  destruct Hinv as (H3 & H2 & Hdiff & Hn3 & Hn2).
  destruct (decide (three ≠ 0 ∧ two ≠ 0)) as [[Ht Hw]|Hnf].
  { intros [= <-]. cbv zeta. change (classRank _) with 6.
    assert (heldTwoP 3 2 values) as Hf.
    { destruct H3 as [?|[? ?]]; [done|]. destruct H2 as [?|[? ?]]; [done|].
      exists three, two.
      split_and!; [intros Heq; by apply (Hdiff Ht Hw)|lia|done]. }
    split_and!; try lia; split; intros; try lia; tauto. }
  assert (¬ heldTwoP 3 2 values) as Hnfull.
  { intros (t & w & Htw & Hot & How).
    assert (occ t values = 3%nat) as Hot3 by (specialize (Hle3 t); lia).
    destruct (Hpos t) as [Htin Htz]; [lia|].
    destruct (Hpos w) as [Hwin Hwz]; [lia|].
    destruct (decide (three = 0)) as [Hz|Hz].
    { by apply (Hn3 Hz t). }
    assert (two = 0) as Hz2 by (apply dec_stable; tauto).
    destruct (decide (w = three)) as [->|Hwt].
    - assert (occ t values < 2)%nat; [|lia]. by apply (Hn2 Hz2 t).
    - assert (occ w values < 2)%nat; [|lia]. by apply (Hn2 Hz2 w). }
  destruct flush as [top|]; simpl.
  { rewrite Hfc. simpl. intros [= <-]. cbv zeta.
    change (classRank _) with 5.
    specialize (HSome top).
    split_and!; try lia; split; intros; try lia; tauto. }
  destruct (decide (sh ≠ 0)) as [Hsh|Hsh].
  { intros [= <-]. cbv zeta. change (classRank _) with 4.
    split_and!; try lia; split; intros; try lia; tauto. }
  apply dec_stable in Hsh.
  destruct (decide (three ≠ 0)) as [Ht|Ht].
  { intros [= <-]. cbv zeta. change (classRank _) with 3.
    assert (heldP 3 values) as Htr.
    { destruct H3 as [?|[? ?]]; [done|]. exists three. lia. }
    split_and!; try lia; split; intros; try lia; tauto. }
  apply dec_stable in Ht.
  assert (¬ heldP 3 values) as Hntr.
  { intros (v & Hv). destruct (Hpos v) as [? ?]; [lia|].
    apply (Hn3 Ht v); [done..|]. specialize (Hle3 v). lia. }
  assert (∀ v, (occ v values ≤ 2)%nat) as Hle2.
  { intros v. destruct (decide (occ v values ≤ 2)%nat); [done|].
    destruct Hntr. exists v. lia. }
  set (pairs := filter (λ v, countOf counts v = 2%nat) dv).
  assert (NoDup pairs) as Hnd by apply NoDup_filter, NoDup_distinctValues.
  assert (∀ q, q ∈ pairs ↔ (2 ≤ occ q values)%nat) as Hpairs.
  { intros q. unfold pairs. rewrite list_elem_of_filter, Hco. split.
    - intros [-> _]. done.
    - intros Hq. split; [specialize (Hle2 q); lia|]. apply Hpos. lia. }
  destruct pairs as [|p0 [|p1 rest]] eqn:Hp; simpl.
  - destruct (values !! 0%nat) as [v0|]; [|done]. simpl.
    intros [= <-]. cbv zeta. change (classRank _) with 0.
    assert (¬ heldP 2 values) as Hn2p.
    { intros (v & Hv). apply Hpairs in Hv. inversion Hv. }
    split_and!; try lia; split; intros; try lia; tauto.
  - intros [= <-]. cbv zeta. change (classRank _) with 1.
    assert (heldP 2 values) as Hp1.
    { exists p0. apply Hpairs. by left. }
    assert (¬ heldTwoP 2 2 values) as Hn22.
    { intros (v & w & Hne & Hv & Hw). apply Hpairs in Hv, Hw.
      apply list_elem_of_singleton in Hv, Hw. congruence. }
    split_and!; try lia; split; intros; try lia; tauto.
  - intros [= <-]. cbv zeta. change (classRank _) with 2.
    assert (heldTwoP 2 2 values) as Hp2.
    { exists p0, p1. split_and!.
      - apply NoDup_cons in Hnd as [Hnd _]. intros ->. apply Hnd. left.
      - apply Hpairs. left.
      - apply Hpairs. right; left. }
    split_and!; try lia; split; intros; try lia; tauto.
Qed.

(** *** Counting cards *)

Lemma occ_submseteq {A} `{EqDecision A} (x : A) (l k : list A) :
  l ⊆+ k → (occ x l ≤ occ x k)%nat.
Proof.
  induction 1; rewrite ?occ_cons; lia.
Qed.

Lemma occ_app {A} `{EqDecision A} (x : A) (l k : list A) :
  occ x (l ++ k) = (occ x l + occ x k)%nat.
Proof. unfold occ. by rewrite filter_app, length_app. Qed.

Lemma occ_fmap_filter {A B} `{EqDecision B} (f : A → B) (y : B) (l : list A) :
  occ y (f <$> l) = length (filter (λ x, f x = y) l).
Proof. unfold occ. by rewrite filter_fmap_comm, length_fmap. Qed.

Lemma NoDup_suits (l : list Suit) : NoDup l → (length l ≤ 4)%nat.
Proof.
  intros Hnd. change 4%nat with (length SUITS).
  apply submseteq_length, NoDup_submseteq; [done|].
  intros [] _; unfold SUITS; set_solver.
Qed.

Lemma card_eq (c c' : Card) :
  getCardValue c = getCardValue c' → suit c = suit c' → c = c'.
Proof.
  destruct c as [r s], c' as [r' s']. unfold getCardValue. simpl.
  intros Hr ->. f_equal. by destruct r, r'.
Qed.

(** Distinct cards hold no rank five times. *)
Lemma NoDup_not_five (cards : list Card) :
  NoDup cards → ¬ heldP 5 (getCardValue <$> cards).
Proof.
  intros Hnd [v Hv]. rewrite occ_fmap_filter in Hv.
  assert (NoDup (suit <$> filter (λ c, getCardValue c = v) cards)) as Hs.
  { apply NoDup_fmap_2_strong; [|by apply NoDup_filter].
    intros c c' [Hc _]%list_elem_of_filter [Hc' _]%list_elem_of_filter Heq.
    apply card_eq; congruence. }
  apply NoDup_suits in Hs. rewrite length_fmap in Hs. lia.
Qed.

(** Patterns held by some of the cards are held by all of them. *)
Lemma heldP_submseteq n (l k : list Z) : l ⊆+ k → heldP n l → heldP n k.
Proof.
  intros Hsub [v Hv]. exists v. pose proof (occ_submseteq v _ _ Hsub). lia.
Qed.

Lemma heldTwoP_submseteq n m (l k : list Z) :
  l ⊆+ k → heldTwoP n m l → heldTwoP n m k.
Proof.
  intros Hsub (v & w & Hne & Hv & Hw). exists v, w.
  pose proof (occ_submseteq v _ _ Hsub).
  pose proof (occ_submseteq w _ _ Hsub). split_and!; [done|lia..].
Qed.

Lemma runP_subseteq (l k : list Z) :
  (∀ x, x ∈ l → x ∈ k) → runP l → runP k.
Proof.
  intros Hsub [[v Hv]|Hw]; [left; exists v|right];
    unfold run5, wheel in *; naive_solver.
Qed.

Lemma submseteq_elem_of {A} (l k : list A) x : l ⊆+ k → x ∈ l → x ∈ k.
Proof.
  intros Hsub Hx. apply submseteq_Permutation in Hsub as [k' ->].
  apply elem_of_app. by left.
Qed.

(** Five cards of one suit. *)
Lemma flush_five (s : list Card) :
  length s = 5%nat →
  bool_decide (Forall (λ c, Some (suit c) = suit <$> head s) s) = true
  ↔ ∃ σ, Forall (λ c, suit c = σ) s.
Proof.
  intros Hlen. rewrite bool_decide_eq_true.
  destruct s as [|c0 s]; [done|]. simpl. split.
  - intros Hall. exists (suit c0). eapply Forall_impl; [exact Hall|].
    simpl. by intros c [= ->].
  - intros [σ Hall]. pose proof (Forall_inv Hall) as H0. simpl in H0.
    eapply Forall_impl; [exact Hall|]. simpl. intros c ->. by rewrite H0.
Qed.

Lemma flush_occ (s cards : list Card) σ :
  s ⊆+ cards → Forall (λ c, suit c = σ) s →
  (length s ≤ occ σ (suit <$> cards))%nat.
Proof.
  intros Hsub Hall.
  etrans; [|apply (occ_submseteq σ (suit <$> s)); by apply fmap_submseteq].
  rewrite occ_fmap_filter.
  assert (filter (λ c, suit c = σ) s = s) as ->; [|done].
  clear Hsub. induction Hall as [|c s Hc _ IH]; [done|].
  rewrite filter_cons, decide_True by done. by rewrite IH.
Qed.

Lemma heldP_perm n (l k : list Z) : l ≡ₚ k → heldP n l ↔ heldP n k.
Proof.
  intros Hp. unfold heldP. by setoid_rewrite (λ v, occ_perm v _ _ Hp).
Qed.

Lemma heldTwoP_perm n m (l k : list Z) :
  l ≡ₚ k → heldTwoP n m l ↔ heldTwoP n m k.
Proof.
  intros Hp. unfold heldTwoP. by setoid_rewrite (λ v, occ_perm v _ _ Hp).
Qed.

(** The straight check finds a straight exactly when a run is held. *)
Lemma checkStraight_runP (values : list Z) :
  (∀ v, v ∈ values → 2 ≤ v ≤ 14) →
  ∃ sh, checkStraight (sortDescBy id values) = Some sh
        ∧ (sh ≠ 0 ↔ runP values).
Proof.
  intros Hbnd.
  destruct (checkStraight_lowestRun values Hbnd) as (sh & Hsh & Hlow).
  exists sh. split; [done|].
  apply (lowestRun_held _ values) in Hlow.
  2:{ intros x. rewrite list_elem_of_filter, elem_of_rankValuesDesc.
      split; [tauto|]. intros Hx. split; [done|]. by apply Hbnd. }
  unfold runP.
  destruct Hlow as [[Hrun _]|[(Hno & Hwh & ->)|(Hno & Hwh & ->)]].
  - split; [intros _; left; by exists sh|]. intros _.
    destruct Hrun as [Hin _]. specialize (Hbnd _ Hin). lia.
  - split; [by right|done].
  - split; [done|]. intros [[v Hv]|?]; [by destruct (Hno v)|done].
Qed.

(** The class of an evaluation by the patterns the cards hold, when no
    rank is held five times. *)
Lemma evaluateHand_classes holeCards communityCards r :
  holeCards ++ communityCards ≠ [] →
  ¬ heldP 5 (getCardValue <$> holeCards ++ communityCards) →
  evaluateHand holeCards communityCards = Some r →
  let cards := holeCards ++ communityCards in
  let values := getCardValue <$> cards in
  let flush := ∃ σ, (5 ≤ occ σ (suit <$> cards))%nat in
  let c := classRank (description r) in
  0 ≤ c ≤ 7
  ∧ (7 ≤ c ↔ heldP 4 values)
  ∧ (6 ≤ c ↔ heldP 4 values ∨ heldTwoP 3 2 values)
  ∧ (5 ≤ c ↔ heldP 4 values ∨ heldTwoP 3 2 values ∨ flush)
  ∧ (4 ≤ c ↔ heldP 4 values ∨ heldTwoP 3 2 values ∨ flush ∨ runP values)
  ∧ (3 ≤ c ↔ flush ∨ runP values ∨ heldP 3 values)
  ∧ (2 ≤ c ↔ flush ∨ runP values ∨ heldP 3 values ∨ heldTwoP 2 2 values)
  ∧ (1 ≤ c ↔ flush ∨ runP values ∨ heldP 2 values).
Proof.
  intros Hne Hfive Hr. cbv zeta.
  destruct (evaluateHand_top _ _ r Hne Hr) as (_ & _ & _ & Hflush).
  cbv zeta in Hflush. rewrite <- Hflush. clear Hflush.
  set (cards := holeCards ++ communityCards) in *.
  set (values := getCardValue <$> cards) in *.
  assert (∀ v, v ∈ values → 2 ≤ v ≤ 14) as Hbnd.
  { intros v (c & -> & _)%list_elem_of_fmap. apply getCardValue_bounds. }
  destruct (checkStraight_runP values Hbnd) as (sh & Hsh & Hrun).
  rewrite <- Hrun. clear Hrun.
  assert (sortDescBy id values ≡ₚ values) as Hp by apply sortDescBy_perm.
  rewrite <- !(heldP_perm _ _ _ Hp), <- !(heldTwoP_perm _ _ _ _ Hp).
  rewrite evaluateHand_canonical in Hr. cbv zeta in Hr.
  fold cards values in Hr.
  rewrite decide_False in Hr by (intros Hl; by apply Hne, nil_length_inv).
  rewrite Hsh in Hr. simpl in Hr.
  assert (∀ v, v ∈ sortDescBy id values → 2 ≤ v ≤ 14) as Hbnd'
    by (intros v; rewrite Hp; apply Hbnd).
  assert (¬ heldP 5 (sortDescBy id values)) as Hfive'
    by (by rewrite (heldP_perm _ _ _ Hp)).
  assert (option_list (flushTop cards) !! 0%nat = flushTop cards) as Hfc
    by (by destruct (flushTop cards)).
  exact (detectHands_class _ _ _ _ sh r Hbnd' Hfive' eq_refl Hfc Hr).
Qed.

(** *** No five-card sublist outranks the evaluation, straight flush
    aside *)

Section Agreement.
Variables holeCards communityCards : list Card.
Variable r : HandEval.
Let cards := holeCards ++ communityCards.
Let values := getCardValue <$> cards.
Hypothesis cards_distinct : NoDup cards.
Hypothesis cards_five : (5 ≤ length cards)%nat.
Hypothesis evaluated : evaluateHand holeCards communityCards = Some r.

Lemma five_cards_patterns (s : list Card) :
  s `sublist_of` cards → length s = 5%nat →
  ∃ fl,
    default 0 (head (standardRank5 s)) = class5 (getCardValue <$> s) fl
    ∧ (fl = true ↔ ∃ σ, Forall (λ c, suit c = σ) s)
    ∧ getCardValue <$> s ⊆+ values
    ∧ ¬ heldP 5 (getCardValue <$> s)
    ∧ length (getCardValue <$> s) = 5%nat
    ∧ ∀ v, v ∈ getCardValue <$> s → 2 ≤ v ≤ 14.
Proof.
  intros Hsub Hlen. eexists. split; [apply standardRank5_class|].
  split; [by apply flush_five|]. split_and!.
  - by apply fmap_submseteq, sublist_submseteq.
  - apply NoDup_not_five. by eapply sublist_NoDup.
  - by rewrite length_fmap.
  - intros v (c & -> & _)%list_elem_of_fmap. apply getCardValue_bounds.
Qed.

Lemma cards_nonempty : holeCards ++ communityCards ≠ [].
Proof.
  fold cards. intros Hnil. rewrite Hnil in cards_five. simpl in *. lia.
Qed.

Lemma standard_le_evaluator (s : list Card) :
  s `sublist_of` cards → length s = 5%nat →
  default 0 (head (standardRank5 s)) ≤ classRank (description r)
  ∨ default 0 (head (standardRank5 s)) = 8.
Proof.
  intros Hsub Hlen.
  destruct (five_cards_patterns s Hsub Hlen)
    as (fl & -> & Hfl & Hvals & Hfive & Hlen' & Hbnd).
  destruct (class5_patterns _ fl Hlen' Hbnd Hfive)
    as (Hrange & _ & P7 & P6 & P5 & P4 & P3 & P2 & P1 & _).
  destruct (evaluateHand_classes _ _ r cards_nonempty
              (NoDup_not_five _ cards_distinct) evaluated)
    as (_ & H7 & H6 & H5 & H4 & H3 & H2 & H1).
  cbv zeta in *. fold cards values in H7, H6, H5, H4, H3, H2, H1.
  set (k := class5 (getCardValue <$> s) fl) in *.
  assert (k = 0 ∨ k = 1 ∨ k = 2 ∨ k = 3 ∨ k = 4 ∨ k = 5 ∨ k = 6 ∨ k = 7
          ∨ k = 8) as Hk by lia.
  destruct Hk as [Hk|[Hk|[Hk|[Hk|[Hk|[Hk|[Hk|[Hk|Hk]]]]]]]];
    [| | | | | | | |by right]; left; rewrite Hk.
  - pose proof (evaluateHand_classes _ _ r cards_nonempty
                  (NoDup_not_five _ cards_distinct) evaluated) as [? _].
    cbv zeta in *. lia.
  - apply H1. right; right. eapply heldP_submseteq; [exact Hvals|auto].
  - apply H2. do 3 right. eapply heldTwoP_submseteq; [exact Hvals|auto].
  - apply H3. right; right. eapply heldP_submseteq; [exact Hvals|auto].
  - apply H4. do 3 right. eapply runP_subseteq; [|by apply P4].
    intros x. by apply submseteq_elem_of.
  - apply H5. right; right.
    destruct (proj1 Hfl (P5 Hk)) as [σ Hall]. exists σ.
    rewrite <- Hlen. apply flush_occ; [by apply sublist_submseteq|done].
  - apply H6. right. eapply heldTwoP_submseteq; [exact Hvals|auto].
  - apply H7. eapply heldP_submseteq; [exact Hvals|auto].
Qed.

(** A straight flush among at most seven cards is reported as a Flush. *)
Lemma straight_flush_reported (s : list Card) :
  (length cards ≤ 7)%nat →
  s `sublist_of` cards → length s = 5%nat →
  default 0 (head (standardRank5 s)) = 8 →
  classRank (description r) = 5.
Proof.
  intros Hseven Hsub Hlen.
  destruct (five_cards_patterns s Hsub Hlen)
    as (fl & -> & Hfl & Hvals & Hfive & Hlen' & Hbnd).
  destruct (class5_patterns _ fl Hlen' Hbnd Hfive)
    as (_ & P8 & _).
  destruct (evaluateHand_classes _ _ r cards_nonempty
              (NoDup_not_five _ cards_distinct) evaluated)
    as (_ & _ & H6 & H5 & _).
  cbv zeta in *. fold cards values in H6, H5.
  intros Hk. destruct (P8 Hk) as (_ & Hflush & Hpair).
  assert (5 ≤ classRank (description r)) as Hge.
  { apply H5. right; right.
    destruct (proj1 Hfl Hflush) as [σ Hall]. exists σ.
    rewrite <- Hlen. apply flush_occ; [by apply sublist_submseteq|done]. }
  assert (¬ 6 ≤ classRank (description r)) as Hlt; [|lia].
  rewrite H6.
  destruct (submseteq_Permutation _ _ (sublist_submseteq _ _ Hsub))
    as [rest Hrest].
  assert (length rest ≤ 2)%nat as Hrl.
  { apply Permutation_length in Hrest. rewrite length_app in Hrest. lia. }
  assert (∀ x, (occ x values
                ≤ 1 + occ x (getCardValue <$> rest))%nat) as Hocc.
  { intros x. unfold values.
    rewrite (occ_perm x _ (getCardValue <$> s ++ rest)) by by rewrite Hrest.
    rewrite fmap_app, occ_app.
    destruct (decide (occ x (getCardValue <$> s) ≤ 1)%nat); [lia|].
    destruct Hpair. exists x. lia. }
  assert (length (getCardValue <$> rest) ≤ 2)%nat as Hrl'
    by (by rewrite length_fmap).
  intros [[v Hv]|(v & w & Hne & Hv & Hw)].
  - pose proof (Hocc v).
    pose proof (occ_le_length v (getCardValue <$> rest)). lia.
  - pose proof (Hocc v). pose proof (Hocc w).
    pose proof (occ_two_le_length v w (getCardValue <$> rest)
                  (not_eq_sym Hne)). lia.
Qed.
End Agreement.

(** *** Some five-card sublist has the class of the evaluation *)

Lemma sublist_extend {A} (s l : list A) (k : nat) :
  s `sublist_of` l → (length s ≤ k ≤ length l)%nat →
  ∃ s', s `sublist_of` s' ∧ s' `sublist_of` l ∧ length s' = k.
Proof.
  intros Hsub. revert k.
  induction Hsub as [|x s l Hsub IH|x s l Hsub IH]; intros k Hk;
    simpl in Hk.
  - exists []. split_and!; [done..|simpl; lia].
  - destruct k as [|k]; [lia|].
    destruct (IH k) as (s' & Hs & Hl & Hlen); [lia|].
    exists (x :: s'). split_and!; [by apply sublist_skip..|simpl; lia].
  - destruct (decide (k ≤ length l)%nat) as [Hle|Hgt].
    + destruct (IH k) as (s' & Hs & Hl & Hlen); [lia|].
      exists s'. split_and!; [done|by apply sublist_cons|done].
    + exists (x :: l). split_and!; [by apply sublist_cons|done|simpl; lia].
Qed.

(** Up to five distinct cards of a hand of five cards or more are part of
    a five-card sublist of the hand. *)
Lemma five_with (cards A : list Card) :
  NoDup cards → NoDup A → (∀ c, c ∈ A → c ∈ cards) →
  (length A ≤ 5 ≤ length cards)%nat →
  ∃ s, s `sublist_of` cards ∧ length s = 5%nat ∧ A ⊆+ s.
Proof.
  intros Hnd HA Hin Hlen.
  set (s0 := filter (λ c, c ∈ A) cards).
  assert (s0 ≡ₚ A) as Hp.
  { apply NoDup_Permutation; [by apply NoDup_filter|done|].
    intros c. unfold s0. rewrite list_elem_of_filter. naive_solver. }
  destruct (sublist_extend s0 cards 5) as (s & Hs0 & Hs & Hl).
  - apply sublist_filter.
  - rewrite Hp. lia.
  - exists s. split; [done|]. split; [done|].
    rewrite <- Hp. by apply sublist_submseteq.
Qed.

(** [n] cards of value [v], when the hand holds as many. *)
Lemma cards_of_value (cards : list Card) (n : nat) (v : Z) :
  NoDup cards → (n ≤ occ v (getCardValue <$> cards))%nat →
  ∃ A, NoDup A ∧ (∀ c, c ∈ A → c ∈ cards ∧ getCardValue c = v)
       ∧ length A = n ∧ occ v (getCardValue <$> A) = n.
Proof.
  intros Hnd Hn. rewrite occ_fmap_filter in Hn.
  set (A := take n (filter (λ c, getCardValue c = v) cards)).
  assert (∀ c, c ∈ A → c ∈ cards ∧ getCardValue c = v) as Hin.
  { intros c Hc.
    apply (elem_of_sublist A (filter (λ c, getCardValue c = v) cards) c)
      in Hc; [|apply sublist_take].
    apply list_elem_of_filter in Hc. tauto. }
  assert (length A = n) as Hlen by (unfold A; rewrite length_take; lia).
  exists A. split_and!; [|done..|].
  - eapply sublist_NoDup; [|apply sublist_take]. by apply NoDup_filter.
  - rewrite occ_fmap_filter, <- Hlen. f_equal.
    clearbody A. clear Hlen. induction A as [|c A IH]; [done|].
    rewrite filter_cons, decide_True by (apply Hin; left).
    f_equal. apply IH. intros c' Hc'. apply Hin. by right.
Qed.

Section Witnesses.
Variable cards : list Card.
Let values := getCardValue <$> cards.
Hypothesis cards_distinct : NoDup cards.
Hypothesis cards_five : (5 ≤ length cards)%nat.

Lemma five_held (n : nat) :
  (n ≤ 5)%nat → heldP n values →
  ∃ s, s `sublist_of` cards ∧ length s = 5%nat
       ∧ heldP n (getCardValue <$> s).
Proof.
  intros Hn [v Hv].
  destruct (cards_of_value cards n v cards_distinct Hv)
    as (A & HA & Hin & Hlen & Hocc).
  destruct (five_with cards A) as (s & Hs & Hl & Hsub);
    [done|done|naive_solver|lia|].
  exists s. split; [done|]. split; [done|].
  exists v. rewrite <- Hocc at 1.
  by apply occ_submseteq, fmap_submseteq.
Qed.

Lemma five_heldTwo (n m : nat) :
  (n + m ≤ 5)%nat → heldTwoP n m values →
  ∃ s, s `sublist_of` cards ∧ length s = 5%nat
       ∧ heldTwoP n m (getCardValue <$> s).
Proof.
  intros Hnm (v & w & Hne & Hv & Hw).
  destruct (cards_of_value cards n v cards_distinct Hv)
    as (A & HA & Hin & Hlen & Hocc).
  destruct (cards_of_value cards m w cards_distinct Hw)
    as (B & HB & Hin' & Hlen' & Hocc').
  destruct (five_with cards (A ++ B)) as (s & Hs & Hl & Hsub).
  - done.
  - apply NoDup_app. split; [done|]. split; [|done].
    intros c Hc Hc'. apply Hin in Hc as [_ Hc]. apply Hin' in Hc' as [_ Hc'].
    congruence.
  - intros c [Hc|Hc]%elem_of_app; naive_solver.
  - rewrite length_app. lia.
  - exists s. split; [done|]. split; [done|].
    apply (fmap_submseteq getCardValue) in Hsub.
    pose proof (occ_submseteq v _ _ Hsub) as Hov.
    pose proof (occ_submseteq w _ _ Hsub) as How.
    rewrite fmap_app, occ_app in Hov, How.
    exists v, w. split_and!; [done|lia..].
Qed.

Lemma five_flush σ :
  (5 ≤ occ σ (suit <$> cards))%nat →
  ∃ s, s `sublist_of` cards ∧ length s = 5%nat
       ∧ Forall (λ c, suit c = σ) s.
Proof.
  intros Hσ. rewrite occ_fmap_filter in Hσ.
  exists (take 5 (filter (λ c, suit c = σ) cards)). split_and!.
  - etrans; [apply sublist_take|apply sublist_filter].
  - rewrite length_take. lia.
  - apply Forall_forall. intros c Hc.
    apply (elem_of_sublist _ (filter (λ c, suit c = σ) cards) c) in Hc;
      [|apply sublist_take].
    by apply list_elem_of_filter in Hc as [? _].
Qed.

(** Cards for distinct values held. *)
Lemma cards_of_values (xs : list Z) :
  (∀ x, x ∈ xs → x ∈ values) →
  ∃ A, (∀ c, c ∈ A → c ∈ cards) ∧ getCardValue <$> A = xs.
Proof.
  induction xs as [|x xs IH]; intros Hin.
  { exists []. split; [by intros c Hc; inversion Hc|done]. }
  destruct IH as (A & HA & Hvals); [intros y Hy; apply Hin; by right|].
  destruct (proj1 (list_elem_of_fmap _ _ _) (Hin x (list_elem_of_here _ _)))
    as (c & Hc & Hcin).
  exists (c :: A). split.
  - intros c' [->|Hc']%elem_of_cons; auto.
  - by rewrite fmap_cons, Hvals, Hc.
Qed.

Lemma five_values (xs : list Z) :
  NoDup xs → length xs = 5%nat → (∀ x, x ∈ xs → x ∈ values) →
  ∃ s, s `sublist_of` cards ∧ length s = 5%nat
       ∧ ∀ x, x ∈ xs → x ∈ getCardValue <$> s.
Proof.
  intros Hnd Hlen Hin.
  destruct (cards_of_values xs Hin) as (A & HA & Hvals).
  destruct (five_with cards A) as (s & Hs & Hl & Hsub).
  - done.
  - apply (NoDup_fmap_1 getCardValue). by rewrite Hvals.
  - done.
  - apply (f_equal length) in Hvals. rewrite length_fmap in Hvals. lia.
  - exists s. split; [done|]. split; [done|]. intros x Hx.
    apply (fmap_submseteq getCardValue) in Hsub. rewrite Hvals in Hsub.
    by eapply submseteq_elem_of.
Qed.

Lemma five_run :
  runP values →
  ∃ s, s `sublist_of` cards ∧ length s = 5%nat
       ∧ runP (getCardValue <$> s).
Proof.
  intros [[v (H0 & H1 & H2 & H3 & H4)]|(H14 & H2 & H3 & H4 & H5)].
  - destruct (five_values [v; v - 1; v - 2; v - 3; v - 4])
      as (s & Hs & Hl & Hin).
    + repeat (constructor; [set_unfold; lia|]). constructor.
    + done.
    + intros x Hx. set_unfold. naive_solver.
    + exists s. split; [done|]. split; [done|]. left. exists v.
      unfold run5. split_and!; apply Hin; set_solver.
  - destruct (five_values [14; 2; 3; 4; 5]) as (s & Hs & Hl & Hin).
    + repeat (constructor; [set_unfold; lia|]). constructor.
    + done.
    + intros x Hx. set_unfold. naive_solver.
    + exists s. split; [done|]. split; [done|]. right.
      unfold wheel. split_and!; apply Hin; set_solver.
Qed.
End Witnesses.

Section StandardClass.
Variables holeCards communityCards : list Card.
Variable r : HandEval.
Let cards := holeCards ++ communityCards.
Let values := getCardValue <$> cards.
Hypothesis cards_distinct : NoDup cards.
Hypothesis cards_five : (5 ≤ length cards)%nat.
Hypothesis evaluated : evaluateHand holeCards communityCards = Some r.

Lemma five_class_ge (s : list Card) :
  s `sublist_of` cards → length s = 5%nat →
  let k := default 0 (head (standardRank5 s)) in
  let vals := getCardValue <$> s in
  0 ≤ k
  ∧ (heldP 4 vals → 7 ≤ k)
  ∧ (heldTwoP 3 2 vals → 6 ≤ k)
  ∧ ((∃ σ, Forall (λ c, suit c = σ) s) → 5 ≤ k)
  ∧ (runP vals → 4 ≤ k)
  ∧ (heldP 3 vals → 3 ≤ k)
  ∧ (heldTwoP 2 2 vals → 2 ≤ k)
  ∧ (heldP 2 vals → 1 ≤ k).
Proof.
  intros Hsub Hlen. cbv zeta.
  destruct (five_cards_patterns holeCards communityCards cards_distinct
              s Hsub Hlen)
    as (fl & -> & Hfl & Hvals & Hfive & Hlen' & Hbnd).
  destruct (class5_patterns _ fl Hlen' Hbnd Hfive)
    as (Hrange & _ & _ & _ & _ & _ & _ & _ & _ & L7 & L6 & L5 & L4 & L3 & L2
        & L1).
  cbv zeta in *. split_and!; try done; [lia|].
  intros Hσ. by apply L5, Hfl.
Qed.

Lemma evaluator_le_standard :
  ∃ s, s `sublist_of` cards ∧ length s = 5%nat
       ∧ classRank (description r) ≤ default 0 (head (standardRank5 s)).
Proof.
  destruct (evaluateHand_classes _ _ r
              (cards_nonempty holeCards communityCards cards_five)
              (NoDup_not_five _ cards_distinct) evaluated)
    as (Hrange & H7 & H6 & H5 & H4 & H3 & H2 & H1).
  cbv zeta in *. fold cards values in H7, H6, H5, H4, H3, H2, H1.
  set (c := classRank (description r)) in *.
  assert (∀ n (k : Z), (n ≤ 5)%nat → heldP n values →
            (∀ s, s `sublist_of` cards → length s = 5%nat →
                  heldP n (getCardValue <$> s) →
                  k ≤ default 0 (head (standardRank5 s))) →
            ∃ s, s `sublist_of` cards ∧ length s = 5%nat
                 ∧ k ≤ default 0 (head (standardRank5 s))) as Wheld.
  { intros n k Hn Hp Hk.
    destruct (five_held cards cards_distinct cards_five n Hn Hp)
      as (s & Hs & Hl & Hps).
    exists s. split; [done|]. split; [done|]. by apply Hk. }
  assert (∀ n m (k : Z), (n + m ≤ 5)%nat → heldTwoP n m values →
            (∀ s, s `sublist_of` cards → length s = 5%nat →
                  heldTwoP n m (getCardValue <$> s) →
                  k ≤ default 0 (head (standardRank5 s))) →
            ∃ s, s `sublist_of` cards ∧ length s = 5%nat
                 ∧ k ≤ default 0 (head (standardRank5 s))) as Wtwo.
  { intros n m k Hn Hp Hk.
    destruct (five_heldTwo cards cards_distinct cards_five n m Hn Hp)
      as (s & Hs & Hl & Hps).
    exists s. split; [done|]. split; [done|]. by apply Hk. }
  assert ((∃ σ, (5 ≤ occ σ (suit <$> cards))%nat) →
          ∃ s, s `sublist_of` cards ∧ length s = 5%nat
               ∧ 5 ≤ default 0 (head (standardRank5 s))) as Wflush.
  { intros [σ Hσ].
    destruct (five_flush cards cards_five σ Hσ) as (s & Hs & Hl & Hall).
    exists s. split; [done|]. split; [done|].
    apply (five_class_ge s Hs Hl). by exists σ. }
  assert (runP values →
          ∃ s, s `sublist_of` cards ∧ length s = 5%nat
               ∧ 4 ≤ default 0 (head (standardRank5 s))) as Wrun.
  { intros Hrun.
    destruct (five_run cards cards_distinct cards_five Hrun)
      as (s & Hs & Hl & Hps).
    exists s. split; [done|]. split; [done|].
    by apply (five_class_ge s Hs Hl). }
  assert (∀ (k k' : Z),
            k ≤ k' →
            (∃ s, s `sublist_of` cards ∧ length s = 5%nat
                  ∧ k' ≤ default 0 (head (standardRank5 s))) →
            ∃ s, s `sublist_of` cards ∧ length s = 5%nat
                 ∧ k ≤ default 0 (head (standardRank5 s))) as Wmono.
  { intros k k' Hkk (s & Hs & Hl & Hk). exists s. split_and!; [done..|lia]. }
  assert (heldP 4 values →
          ∃ s, s `sublist_of` cards ∧ length s = 5%nat
               ∧ 7 ≤ default 0 (head (standardRank5 s))) as W7.
  { intros Hp. apply (Wheld 4%nat); [lia|done|].
    intros s Hs Hl. apply (five_class_ge s Hs Hl). }
  assert (heldTwoP 3 2 values →
          ∃ s, s `sublist_of` cards ∧ length s = 5%nat
               ∧ 6 ≤ default 0 (head (standardRank5 s))) as W6.
  { intros Hp. apply (Wtwo 3%nat 2%nat); [lia|done|].
    intros s Hs Hl. apply (five_class_ge s Hs Hl). }
  assert (heldP 3 values →
          ∃ s, s `sublist_of` cards ∧ length s = 5%nat
               ∧ 3 ≤ default 0 (head (standardRank5 s))) as W3.
  { intros Hp. apply (Wheld 3%nat); [lia|done|].
    intros s Hs Hl. apply (five_class_ge s Hs Hl). }
  assert (heldTwoP 2 2 values →
          ∃ s, s `sublist_of` cards ∧ length s = 5%nat
               ∧ 2 ≤ default 0 (head (standardRank5 s))) as W2.
  { intros Hp. apply (Wtwo 2%nat 2%nat); [lia|done|].
    intros s Hs Hl. apply (five_class_ge s Hs Hl). }
  assert (heldP 2 values →
          ∃ s, s `sublist_of` cards ∧ length s = 5%nat
               ∧ 1 ≤ default 0 (head (standardRank5 s))) as W1.
  { intros Hp. apply (Wheld 2%nat); [lia|done|].
    intros s Hs Hl. apply (five_class_ge s Hs Hl). }
  clear Wheld Wtwo.
  assert (c = 0 ∨ c = 1 ∨ c = 2 ∨ c = 3 ∨ c = 4 ∨ c = 5 ∨ c = 6 ∨ c = 7)
    as Hc by lia.
  destruct Hc as [Hc|[Hc|[Hc|[Hc|[Hc|[Hc|[Hc|Hc]]]]]]]; rewrite Hc in *.
  - exists (take 5 cards). split; [apply sublist_take|].
    split; [rewrite length_take; lia|].
    apply (five_class_ge (take 5 cards)); [apply sublist_take|].
    rewrite length_take; lia.
  - destruct (proj1 H1) as [?|[?|?]]; [lia| | |].
    + apply (Wmono 1 5); [lia|auto].
    + apply (Wmono 1 4); [lia|auto].
    + auto.
  - destruct (proj1 H2) as [?|[?|[?|?]]]; [lia| | | |].
    + apply (Wmono 2 5); [lia|auto].
    + apply (Wmono 2 4); [lia|auto].
    + apply (Wmono 2 3); [lia|auto].
    + auto.
  - destruct (proj1 H3) as [?|[?|?]]; [lia| | |].
    + apply (Wmono 3 5); [lia|auto].
    + apply (Wmono 3 4); [lia|auto].
    + auto.
  - destruct (proj1 H4) as [?|[?|[?|?]]]; [lia| | | |].
    + apply (Wmono 4 7); [lia|auto].
    + apply (Wmono 4 6); [lia|auto].
    + apply (Wmono 4 5); [lia|auto].
    + auto.
  - destruct (proj1 H5) as [?|[?|?]]; [lia| | |].
    + apply (Wmono 5 7); [lia|auto].
    + apply (Wmono 5 6); [lia|auto].
    + auto.
  - destruct (proj1 H6) as [?|?]; [lia| |].
    + apply (Wmono 6 7); [lia|auto].
    + auto.
  - apply W7, H7. lia.
Qed.

(** On five to seven distinct cards the evaluator's class is the class of
    the best standard five-card hand, except that a straight flush is
    reported as a Flush. *)
Lemma evaluateHand_standardClass :
  (length cards ≤ 7)%nat →
  classRank (description r)
  = if decide (standardClass cards = 8) then 5 else standardClass cards.
Proof.
  intros Hseven.
  destruct (standardClass_max cards cards_five)
    as [(s & Hs & Hl & Hbest) Hmax].
  case_decide as Height.
  - apply (straight_flush_reported holeCards communityCards r cards_distinct
             cards_five evaluated s Hseven Hs Hl).
    by rewrite Hbest.
  - destruct evaluator_le_standard as (s' & Hs' & Hl' & Hge).
    pose proof (Hmax s' Hs' Hl') as Hle.
    destruct (standard_le_evaluator holeCards communityCards r
                cards_distinct cards_five evaluated s Hs Hl) as [Hu|Hu].
    + lia.
    + rewrite Hbest in Hu. done.
Qed.
End StandardClass.

(** C1, amended: both evaluations return, and the score is the class offset
    plus a term below 1000, so numeric comparison orders any two evaluations
    by the evaluator's class first: the higher class has the strictly
    greater score, and equal scores imply the same class.  On five to seven
    distinct cards the evaluator's class is the class of the best five-card
    hand under standard poker rules, except that a straight flush is
    reported as a Flush; so of two such inputs without a straight flush,
    the one of the higher standard class, which is the stronger hand under
    the standard rules, has the strictly greater score.
    Within Four of a Kind, Three of a Kind and Pair the term is the rank
    held four, three or two times, and within High Card the score is the
    highest rank held; kickers are not part of the score. *)
Theorem evaluateHand_class_order h1 c1 h2 c2 :
  ∃ r1 r2,
    evaluateHand h1 c1 = Some r1 ∧ evaluateHand h2 c2 = Some r2
    ∧ (classRank (description r1) < classRank (description r2) →
       score r1 < score r2)
    ∧ (score r1 = score r2 → description r1 = description r2)
    ∧ 0 ≤ score r1 - 1000 * classRank (description r1) < 1000
    ∧ 0 ≤ score r2 - 1000 * classRank (description r2) < 1000
    ∧ primaryRank (h1 ++ c1) r1 ∧ primaryRank (h2 ++ c2) r2
    ∧ (NoDup (h1 ++ c1) → (5 ≤ length (h1 ++ c1) ≤ 7)%nat →
       classRank (description r1)
       = if decide (standardClass (h1 ++ c1) = 8) then 5
         else standardClass (h1 ++ c1))
    ∧ (NoDup (h2 ++ c2) → (5 ≤ length (h2 ++ c2) ≤ 7)%nat →
       classRank (description r2)
       = if decide (standardClass (h2 ++ c2) = 8) then 5
         else standardClass (h2 ++ c2))
    ∧ (NoDup (h1 ++ c1) → NoDup (h2 ++ c2) →
       (5 ≤ length (h1 ++ c1) ≤ 7)%nat → (5 ≤ length (h2 ++ c2) ≤ 7)%nat →
       standardClass (h1 ++ c1) < standardClass (h2 ++ c2) < 8 →
       standardStronger (h2 ++ c2) (h1 ++ c1) ∧ score r1 < score r2).
Proof.
  destruct (evaluateHand_band h1 c1) as (r1 & Hr1 & Hb1).
  destruct (evaluateHand_band h2 c2) as (r2 & Hr2 & Hb2).
  exists r1, r2.
  pose proof (classRank_band _ Hb1) as Hc1.
  pose proof (classRank_band _ Hb2) as Hc2.
  assert (∀ h c r, evaluateHand h c = Some r →
            NoDup (h ++ c) → (5 ≤ length (h ++ c) ≤ 7)%nat →
            classRank (description r)
            = if decide (standardClass (h ++ c) = 8) then 5
              else standardClass (h ++ c)) as Hclass.
  { intros h c r Hr Hnd [Hfive Hseven].
    exact (evaluateHand_standardClass h c r Hnd Hfive Hr Hseven). }
  split_and!; try done; try lia; try by apply evaluateHand_primaryRank.
  - intros Heq. unfold inBand in Hb1, Hb2.
    destruct Hb1 as [[D1 S1]|[[D1 S1]|[[D1 S1]|[[D1 S1]|[[D1 S1]|[[D1 S1]|
                    [[D1 S1]|[[D1 S1]|[D1 S1]]]]]]]]];
      destruct Hb2 as [[D2 S2]|[[D2 S2]|[[D2 S2]|[[D2 S2]|[[D2 S2]|[[D2 S2]|
                      [[D2 S2]|[[D2 S2]|[D2 S2]]]]]]]]];
      rewrite D1, D2; done || lia.
  - by apply Hclass.
  - by apply Hclass.
  - intros Hnd1 Hnd2 Hlen1 Hlen2 Hlt.
    pose proof (Hclass _ _ _ Hr1 Hnd1 Hlen1) as E1.
    pose proof (Hclass _ _ _ Hr2 Hnd2 Hlen2) as E2.
    rewrite decide_False in E1 by lia. rewrite decide_False in E2 by lia.
    split; [apply standardClass_stronger; lia|lia].
Qed.

Lemma evaluateHand_class_order_witness :
  standardClass
    ([card ACE SPADES; card KING SPADES]
     ++ [card ACE DIAMONDS; card NINE CLUBS; card SEVEN HEARTS;
         card FOUR SPADES; card TWO DIAMONDS]) = 1
  ∧ standardClass
      ([card NINE SPADES; card NINE HEARTS]
       ++ [card ACE DIAMONDS; card NINE CLUBS; card SEVEN HEARTS;
           card FOUR SPADES; card TWO DIAMONDS]) = 3
  ∧ ∃ r1 r2,
      evaluateHand [card ACE SPADES; card KING SPADES]
        [card ACE DIAMONDS; card NINE CLUBS; card SEVEN HEARTS;
         card FOUR SPADES; card TWO DIAMONDS] = Some r1
      ∧ evaluateHand [card NINE SPADES; card NINE HEARTS]
          [card ACE DIAMONDS; card NINE CLUBS; card SEVEN HEARTS;
           card FOUR SPADES; card TWO DIAMONDS] = Some r2
      ∧ classRank (description r1) = 1 ∧ classRank (description r2) = 3
      ∧ score r1 < score r2.
Proof.
  pose (board := [card ACE DIAMONDS; card NINE CLUBS; card SEVEN HEARTS;
                  card FOUR SPADES; card TWO DIAMONDS]).
  pose (h1 := [card ACE SPADES; card KING SPADES]).
  pose (h2 := [card NINE SPADES; card NINE HEARTS]).
  split; [reflexivity|]. split; [reflexivity|].
  destruct (evaluateHand_class_order h1 board h2 board)
    as (r1 & r2 & H1 & H2 & _ & _ & _ & _ & _ & _ & E1 & E2 & Hlt).
  assert (NoDup (h1 ++ board)) as Hnd1
    by (apply (bool_decide_unpack _); vm_compute; exact I).
  assert (NoDup (h2 ++ board)) as Hnd2
    by (apply (bool_decide_unpack _); vm_compute; exact I).
  assert (5 ≤ length (h1 ++ board) ≤ 7)%nat as Hlen1 by (simpl; lia).
  assert (5 ≤ length (h2 ++ board) ≤ 7)%nat as Hlen2 by (simpl; lia).
  exists r1, r2. split; [exact H1|]. split; [exact H2|].
  split; [exact (E1 Hnd1 Hlen1)|]. split; [exact (E2 Hnd2 Hlen2)|].
  apply (Hlt Hnd1 Hnd2 Hlen1 Hlen2). vm_compute. split; reflexivity.
Defined.
